(** * structex: annotation-driven binary transcoding

    A shallow embedding of the Go package [structex] (field tags, the
    reflective traversal engine, the bit-level decoder and encoder, the
    sizer) together with the properties of its specification.

    Conventions of the embedding:
    - a [uint64] is a [Z] in [[0, 2^64)], wrap-around written out with
      [u64]; a byte is a [Z] in [[0, 256)], truncation written with [u8];
    - Go's [error] results and [panic]s are the constructors [Err] and
      [Panic] of [result];
    - a [reflect.Value] is a value of the model together with the two flags
      of package reflect that decide [CanSet];
    - the field map of the transcoder (a Go [map[string]*tagReference]) is a
      [gmap string tagReference];
    - [int] and [uint] are 64 bits wide (64-bit targets).

    Where the definitions come from:
    - the field tags follow the tags file that has the [endian] type
      ([parseFieldTags], [parseString], [add]);
    - the traversal follows [transcoder.transcode], [fieldByName] and
      [getValue] of tags.go;
    - [Module decoder] follows decoder.go;
    - [Module encoder] follows the encoder that has [align] and the byte
      order; encoder.go has another bit-level [write], which is
      [encoder_go.write];
    - [Module sizer], [size] and [typeSize] follow the sizer file;
    - [Module Buffer] follows buffer.go;
    - what the package takes from the Go library follows the library:
      [strconv.ParseInt], [strings.ToLower], [Lookup] of a struct tag, the
      panics of package reflect, and [memSize], the size of a value in
      memory, on which the allocation of a slice depends. *)

From Stdlib Require Import ZArith Lia Ascii String List Bool.
From stdpp Require Import gmap strings list.

Local Open Scope Z_scope.

(** ** Package reflect: kinds *)

Module reflect.
Inductive Kind :=
| Invalid | Bool
| Int | Int8 | Int16 | Int32 | Int64
| Uint | Uint8 | Uint16 | Uint32 | Uint64 | Uintptr
| Float32 | Float64 | Complex64 | Complex128
| Array | Chan | Func | Interface | Map | Ptr | Slice | String | Struct
| UnsafePointer.

Definition Kind_eqb (a b : Kind) : bool :=
  match a, b with
  | Invalid, Invalid | Bool, Bool | Int, Int | Int8, Int8 | Int16, Int16
  | Int32, Int32 | Int64, Int64 | Uint, Uint | Uint8, Uint8
  | Uint16, Uint16 | Uint32, Uint32 | Uint64, Uint64 | Uintptr, Uintptr
  | Float32, Float32 | Float64, Float64 | Complex64, Complex64
  | Complex128, Complex128 | Array, Array | Chan, Chan | Func, Func
  | Interface, Interface | Map, Map | Ptr, Ptr | Slice, Slice
  | String, String | Struct, Struct | UnsafePointer, UnsafePointer => true
  | _, _ => false
  end.
End reflect.

Definition intSize : Z := 64.

Definition u64 (z : Z) : Z := z mod 2 ^ 64.
Definition u32 (z : Z) : Z := z mod 2 ^ 32.
Definition u16 (z : Z) : Z := z mod 2 ^ 16.
Definition u8 (z : Z) : Z := z mod 2 ^ 8.

(** ** Errors, panics and results *)

Inductive error :=
| io_EOF
| SourceError (code : nat)
| SinkError (code : nat)
| UnsupportedZeroBitOperation
| InsufficientBitCount
| UnsupportedBitSpan (nbits : Z)
| FieldCannotBeSet (k : reflect.Kind)
| BitfieldExceedsFieldSize (k : reflect.Kind) (tagbits fieldbits : Z)
| UnsupportedReadType (k : reflect.Kind)
| SliceSizeNonMultiple (size sz : Z)
| SliceSizeUndetermined
| CannotLocateFieldName (name : string)
| ReferencedLayoutNotSequence (k : reflect.Kind)
| CannotDeductSliceLengthError
| LeftOverBits
| ValueWillOverflowBitfield (value nbits : Z)
| BitfieldOverflowsSingleByte
| CannotSpanMultiByteBitfield
| OnlyByteMultiples.

Inductive panic :=
| TaggingError (tag : string) (kind : reflect.Kind)
| FieldTypeUnsupported (k : reflect.Kind)
| ReflectBitsOfNonArithmetic (k : reflect.Kind)
| ReflectIndexOutOfRange
| ReflectWrongKind (k : reflect.Kind)
| ReflectSetUnaddressable
| ReflectMakeSliceNegativeLen
| RuntimeAllocationSizeOutOfRange
| IntegerDivideByZero.

Inductive failure :=
| Err (e : error)
| Panic (p : panic)
| OutOfFuel.

(** The result of a call that returns a value or fails. *)
Inductive result (A : Type) :=
| Ok (a : A)
| Fail (f : failure).
Arguments Ok {A} a.
Arguments Fail {A} f.

(** The [error] a call returns beside the state it leaves behind: [Ok tt] is
    Go's [nil]. *)
Definition status := result unit.

Definition bind {A B} (r : result A) (k : A -> result B) : result B :=
  match r with
  | Ok a => k a
  | Fail f => Fail f
  end.

Notation "'do' x <- r ; k" := (bind r (fun x => k))
  (at level 10, x name, r at level 100, k at level 200).
Notation "'do' ' p <- r ; k" := (bind r (fun p => k))
  (at level 10, p pattern, r at level 100, k at level 200).

(** ** Types and struct tags *)

(** A struct tag: its raw text and what [Tag.Lookup("structex")] of package
    reflect returns for it. *)
Record StructTag := { raw : string; structex : option string }.

#[local] Set Warnings "-register-all".

Inductive type :=
| TBasic (k : reflect.Kind)
| TArray (len : nat) (elem : type)
| TSlice (elem : type)
| TStruct (fields : list (string * StructTag * type))
| TPtr (elem : type).

Definition Kind (t : type) : reflect.Kind :=
  match t with
  | TBasic k => k
  | TArray _ _ => reflect.Array
  | TSlice _ => reflect.Slice
  | TStruct _ => reflect.Struct
  | TPtr _ => reflect.Ptr
  end.

(** [Type.Bits]: the size of an arithmetic type in bits; panics on the other
    kinds. *)
Definition KindBits (k : reflect.Kind) : result Z :=
  match k with
  | reflect.Int | reflect.Uint | reflect.Uintptr => Ok intSize
  | reflect.Int8 | reflect.Uint8 => Ok 8
  | reflect.Int16 | reflect.Uint16 => Ok 16
  | reflect.Int32 | reflect.Uint32 | reflect.Float32 => Ok 32
  | reflect.Int64 | reflect.Uint64 | reflect.Float64 | reflect.Complex64 => Ok 64
  | reflect.Complex128 => Ok 128
  | _ => Fail (Panic (ReflectBitsOfNonArithmetic k))
  end.

Definition Bits (t : type) : result Z := KindBits (Kind t).

Record StructField := { Name : string; Tag : StructTag; Type_ : type }.

(** ** Package strings and strconv, as far as the tags use them *)

Module strings.
Definition lowerAscii (c : ascii) : ascii :=
  let n := nat_of_ascii c in
  if ((65 <=? n) && (n <=? 90))%nat then ascii_of_nat (n + 32) else c.

(** [strings.ToLower] on the bytes of the UTF-8 text. Two letters outside
    ASCII have a lower case inside it: U+0130 (bytes C4 B0) becomes [i] and
    U+212A (bytes E2 84 AA) becomes [k]. Every other letter outside ASCII is
    lowered to a letter outside ASCII; the model leaves its bytes as they
    are, and the tags compare the result with ASCII keywords only. *)
Fixpoint ToLower (s : string) : string :=
  match s with
  | EmptyString => EmptyString
  | String c s' =>
      match s' with
      | String c1 s1 =>
          if ((nat_of_ascii c =? 196) && (nat_of_ascii c1 =? 176))%nat
          then String "i"%char (ToLower s1)
          else
            match s1 with
            | String c2 s2 =>
                if ((nat_of_ascii c =? 226) && (nat_of_ascii c1 =? 132)
                    && (nat_of_ascii c2 =? 170))%nat
                then String "k"%char (ToLower s2)
                else String (lowerAscii c) (ToLower s')
            | EmptyString => String (lowerAscii c) (ToLower s')
            end
      | EmptyString => String (lowerAscii c) (ToLower s')
      end
  end.

(** [strings.Split(s, ",")[0]] *)
Fixpoint SplitCommaHead (s : string) : string :=
  match s with
  | EmptyString => EmptyString
  | String c s' =>
      if Ascii.eqb c ","%char then EmptyString else String c (SplitCommaHead s')
  end.

Fixpoint Contains (s sub : string) : bool :=
  if String.prefix sub s then true
  else match s with
       | EmptyString => false
       | String _ s' => Contains s' sub
       end.
End strings.

Module strconv.
Definition code (c : ascii) : Z := Z.of_nat (nat_of_ascii c).

(** [lower(c) = c | ('x' - 'X')] *)
Definition lower (c : Z) : Z := Z.lor c 32.

Definition digit (c : Z) : option Z :=
  if (48 <=? c) && (c <=? 57) then Some (c - 48)
  else if (97 <=? lower c) && (lower c <=? 122) then Some (lower c - 97 + 10)
  else None.

Fixpoint digits (base : Z) (s : list Z) (n : Z) : option Z :=
  match s with
  | [] => Some n
  | c :: s' =>
      if c =? 95 then digits base s' n
      else match digit c with
           | None => None
           | Some d => if base <=? d then None else digits base s' (n * base + d)
           end
  end.

(** The state of [underscoreOK]: beginning, digit, underscore, other. *)
Inductive saw := SawStart | SawDigit | SawUnderscore | SawOther.

Fixpoint underscoreScan (hex : bool) (st : saw) (s : list Z) : bool :=
  match s with
  | [] => match st with SawUnderscore => false | _ => true end
  | c :: s' =>
      if ((48 <=? c) && (c <=? 57))
         || (hex && (97 <=? lower c) && (lower c <=? 102))
      then underscoreScan hex SawDigit s'
      else if c =? 95 then
        match st with
        | SawDigit => underscoreScan hex SawUnderscore s'
        | _ => false
        end
      else match st with
           | SawUnderscore => false
           | _ => underscoreScan hex SawOther s'
           end
  end.

Definition isPrefixLetter (c : Z) : bool :=
  (lower c =? 98) || (lower c =? 111) || (lower c =? 120).

Definition underscoreOK (s : list Z) : bool :=
  let s := match s with
           | c :: s' => if (c =? 45) || (c =? 43) then s' else s
           | [] => s
           end in
  match s with
  | 48 :: c :: s' =>
      if isPrefixLetter c then underscoreScan (lower c =? 120) SawDigit s'
      else underscoreScan false SawStart s
  | _ => underscoreScan false SawStart s
  end.

(** [ParseUint(s, 0, bitSize)] *)
Definition ParseUint0 (s : list Z) (bitSize : Z) : option Z :=
  match s with
  | [] => None
  | c0 :: rest =>
      let '(base, body) :=
        if c0 =? 48 then
          match rest with
          | c1 :: ((_ :: _) as body') =>
              if lower c1 =? 98 then (2, body')
              else if lower c1 =? 111 then (8, body')
              else if lower c1 =? 120 then (16, body')
              else (8, rest)
          | _ => (8, rest)
          end
        else (10, s) in
      let bitSize := if bitSize =? 0 then intSize else bitSize in
      if (bitSize <? 0) || (64 <? bitSize) then None
      else match digits base body 0 with
           | None => None
           | Some n =>
               if 2 ^ bitSize <=? n then None
               else if existsb (Z.eqb 95) body && negb (underscoreOK s) then None
               else Some n
           end
  end.

(** [ParseInt(s, 0, bitSize)]; [None] stands for any [*NumError]. *)
Definition ParseInt0 (str : string) (bitSize : Z) : option Z :=
  match map code (list_ascii_of_string str) with
  | [] => None
  | (c0 :: rest) as s =>
      let neg := c0 =? 45 in
      let s := if (c0 =? 43) || (c0 =? 45) then rest else s in
      match ParseUint0 s bitSize with
      | None => None
      | Some un =>
          let bitSize := if bitSize =? 0 then intSize else bitSize in
          let cutoff := 2 ^ (bitSize - 1) in
          if negb neg && (cutoff <=? un) then None
          else if neg && (cutoff <? un) then None
          else Some (if neg then - un else un)
      end
  end.
End strconv.

(** ** Field tags (the descriptor model) *)

Inductive endian := little | big.

Record bitfield := { nbits : Z; reserved : bool }.

Inductive layoutFormat := none | sizeOf | countOf.

Record layout := {
  format : layoutFormat;
  name : string;
  relative : bool;
  value : Z
}.

Record tags := {
  tags_endian : endian;
  tags_bitfield : bitfield;
  tags_layout : layout;
  tags_alignment : Z;
  tags_truncate : bool
}.

Definition set_endian (t : tags) (e : endian) : tags :=
  {| tags_endian := e; tags_bitfield := tags_bitfield t;
     tags_layout := tags_layout t; tags_alignment := tags_alignment t;
     tags_truncate := tags_truncate t |}.

Definition set_bitfield (t : tags) (b : bitfield) : tags :=
  {| tags_endian := tags_endian t; tags_bitfield := b;
     tags_layout := tags_layout t; tags_alignment := tags_alignment t;
     tags_truncate := tags_truncate t |}.

Definition set_layout (t : tags) (l : layout) : tags :=
  {| tags_endian := tags_endian t; tags_bitfield := tags_bitfield t;
     tags_layout := l; tags_alignment := tags_alignment t;
     tags_truncate := tags_truncate t |}.

Definition set_alignment (t : tags) (a : Z) : tags :=
  {| tags_endian := tags_endian t; tags_bitfield := tags_bitfield t;
     tags_layout := tags_layout t; tags_alignment := a;
     tags_truncate := tags_truncate t |}.

Definition set_truncate (t : tags) (b : bool) : tags :=
  {| tags_endian := tags_endian t; tags_bitfield := tags_bitfield t;
     tags_layout := tags_layout t; tags_alignment := tags_alignment t;
     tags_truncate := b |}.

Definition set_layout_value (t : tags) (v : Z) : tags :=
  set_layout t {| format := format (tags_layout t); name := name (tags_layout t);
                  relative := relative (tags_layout t); value := v |}.

(** [tags.add]: one key with its value. A number that [strconv.ParseInt]
    rejects panics with a [TaggingError] carrying the raw tag and the kind of
    the field. *)
Definition add (t : tags) (sf : StructField) (key val : string) : result tags :=
  let k := strings.ToLower key in
  if String.eqb k "little" then Ok (set_endian t little)
  else if String.eqb k "big" then Ok (set_endian t big)
  else if String.eqb k "bitfield" then
    let nbs := strings.SplitCommaHead val in
    let res := strings.Contains val "reserved" in
    if (String.length nbs =? 0)%nat then
      Ok (set_bitfield t {| nbits := nbits (tags_bitfield t); reserved := res |})
    else
      do bitSize <- Bits (Type_ sf);
      match strconv.ParseInt0 nbs bitSize with
      | None => Fail (Panic (TaggingError (raw (Tag sf)) (Kind (Type_ sf))))
      | Some n => Ok (set_bitfield t {| nbits := u64 n; reserved := res |})
      end
  else if String.eqb k "sizeof" then
    Ok (set_layout t {| format := sizeOf; name := strings.SplitCommaHead val;
                        relative := strings.Contains val "relative";
                        value := value (tags_layout t) |})
  else if String.eqb k "countof" then
    Ok (set_layout t {| format := countOf; name := val;
                        relative := relative (tags_layout t);
                        value := value (tags_layout t) |})
  else if String.eqb k "truncate" then Ok (set_truncate t true)
  else if String.eqb k "align" then
    match strconv.ParseInt0 val 64 with
    | None => Fail (Panic (TaggingError (raw (Tag sf)) (Kind (Type_ sf))))
    | Some a => Ok (set_alignment t (u64 a))
    end
  else Ok t.

Record parseOptions := { sep : ascii; quote : ascii; assign : ascii }.

Definition snoc (s : string) (r : ascii) : string := (s ++ String r EmptyString)%string.

(** The loop of [tags.parseString] over the runes that remain; [key], [val],
    [inKey] and [inVal] are the loop's variables. The index test
    [idx == len(runes)-1] is [rest = []]. *)
Fixpoint parseRunes (sf : StructField) (opts : parseOptions) (runes : list ascii)
    (key val : string) (inKey inVal : bool) (t : tags) : result tags :=
  match runes with
  | [] => Ok t
  | r :: rest =>
      if Ascii.eqb r (assign opts) then
        parseRunes sf opts rest key val false inVal t
      else if Ascii.eqb r (quote opts) then
        if inVal then
          do t' <- add t sf key val;
          parseRunes sf opts rest EmptyString EmptyString inKey false t'
        else parseRunes sf opts rest key val inKey true t
      else if Ascii.eqb r (sep opts) || Ascii.eqb r ","%char then
        if negb inVal then parseRunes sf opts rest key val true inVal t
        else parseRunes sf opts rest key (snoc val r) inKey inVal t
      else if inKey then
        match rest with
        | [] =>
            do t' <- add t sf (snoc key r) val;
            parseRunes sf opts rest EmptyString EmptyString inKey inVal t'
        | _ => parseRunes sf opts rest (snoc key r) val inKey inVal t
        end
      else if inVal then parseRunes sf opts rest key (snoc val r) inKey inVal t
      else parseRunes sf opts rest key val inKey inVal t
  end.

Definition parseString (t : tags) (sf : StructField) (tagString : string)
    (opts : parseOptions) : result tags :=
  parseRunes sf opts (list_ascii_of_string tagString)
    EmptyString EmptyString true false t.

Definition dquote : ascii := ascii_of_nat 34.
Definition squote : ascii := ascii_of_nat 39.

Definition parseFieldTags (sf : StructField) : result tags :=
  let t0 := {| tags_endian := little;
               tags_bitfield := {| nbits := 0; reserved := false |};
               tags_layout := {| format := none; name := EmptyString;
                                 relative := false; value := 0 |};
               tags_alignment := 0;
               tags_truncate := false |} in
  do t <- match Kind (Type_ sf) with
          | reflect.Array | reflect.Slice | reflect.Struct | reflect.Ptr => Ok t0
          | reflect.Bool => Ok (set_bitfield t0 {| nbits := 1; reserved := false |})
          | _ => do b <- Bits (Type_ sf);
                 Ok (set_bitfield t0 {| nbits := u64 b; reserved := false |})
          end;
  match structex (Tag sf) with
  | Some s => parseString t sf s {| sep := ","%char; quote := squote; assign := "="%char |}
  | None => parseString t sf (raw (Tag sf))
              {| sep := " "%char; quote := dquote; assign := ":"%char |}
  end.

(** Tags as they are written in Go source: [bare k v] is [k:"v"], for a key
    other than [structex], under which [Tag.Lookup] then finds nothing;
    [full s] is the tag whose key [structex] has the value [s]. *)
Definition quoted (s : string) : string :=
  (String dquote EmptyString ++ s ++ String dquote EmptyString)%string.
Definition bare (k v : string) : StructTag :=
  {| raw := (k ++ ":" ++ quoted v)%string; structex := None |}.
Definition notag : StructTag := {| raw := EmptyString; structex := None |}.
Definition full (s : string) : StructTag :=
  {| raw := ("structex:" ++ quoted s)%string; structex := Some s |}.

Definition sfield (n : string) (tg : StructTag) (k : reflect.Kind) : StructField :=
  {| Name := n; Tag := tg; Type_ := TBasic k |}.

(** ** Values and package reflect *)

(** The data a Go value holds. A [DBasic] holds the integer of an integer
    kind (signed kinds as signed numbers), [0] or [1] for a [bool], and an
    opaque number for the other basic kinds ([0] is their zero value). *)
Inductive data :=
| DBasic (k : reflect.Kind) (n : Z)
| DArray (elem : type) (vs : list data)
| DSlice (elem : type) (vs : list data)
| DStruct (fields : list (string * StructTag * data))
| DPtr (elem : type) (target : option data).

Fixpoint typeOf (d : data) : type :=
  match d with
  | DBasic k _ => TBasic k
  | DArray elem vs => TArray (length vs) elem
  | DSlice elem _ => TSlice elem
  | DStruct fs => TStruct (map (fun '(n, tg, v) => (n, tg, typeOf v)) fs)
  | DPtr elem _ => TPtr elem
  end.

Fixpoint zero (t : type) : data :=
  match t with
  | TBasic k => DBasic k 0
  | TArray n elem => DArray elem (repeat (zero elem) n)
  | TSlice elem => DSlice elem []
  | TStruct fs => DStruct (map (fun '(n, tg, ft) => (n, tg, zero ft)) fs)
  | TPtr elem => DPtr elem None
  end.

(** A [reflect.Value]: the data with the flags that decide [CanSet]. *)
Record Value := { flagAddr : bool; flagRO : bool; val : data }.

Definition ValueOf (d : data) : Value :=
  {| flagAddr := false; flagRO := false; val := d |}.

Definition CanSet (v : Value) : bool := flagAddr v && negb (flagRO v).

Definition VKind (v : Value) : reflect.Kind := Kind (typeOf (val v)).

(** Whether the name of a field is exported: its first letter is upper
    case. The model knows the upper-case letters of ASCII; a name that begins
    with an upper-case letter outside ASCII is exported in Go and not in the
    model. *)
Definition IsExported (n : string) : bool :=
  match n with
  | EmptyString => false
  | String c _ => let x := nat_of_ascii c in ((65 <=? x) && (x <=? 90))%nat
  end.

(** [v.Field(i)] for the field [(n, tg, d)] of the struct [v]. *)
Definition FieldOf (v : Value) (n : string) (d : data) : Value :=
  {| flagAddr := flagAddr v; flagRO := flagRO v || negb (IsExported n); val := d |}.

(** [v.Index(i)] for the element [d] of the array or slice [v]. *)
Definition IndexOf (v : Value) (d : data) : Value :=
  match val v with
  | DSlice _ _ => {| flagAddr := true; flagRO := flagRO v; val := d |}
  | _ => {| flagAddr := flagAddr v; flagRO := flagRO v; val := d |}
  end.

Definition elements (d : data) : list data :=
  match d with
  | DArray _ vs | DSlice _ vs => vs
  | _ => []
  end.

Definition elemType (d : data) : type :=
  match d with
  | DArray t _ | DSlice t _ | DPtr t _ => t
  | _ => TBasic reflect.Invalid
  end.

Definition Len (v : Value) : Z := Z.of_nat (length (elements (val v))).

(** [v.Index(i)], which panics out of range. *)
Definition Index (v : Value) (i : nat) : result Value :=
  match elements (val v) !! i with
  | Some d => Ok (IndexOf v d)
  | None => Fail (Panic ReflectIndexOutOfRange)
  end.

(** [v.FieldByName(name)] (promotion through embedded fields is not
    modelled: the model has no embedded fields). *)
Fixpoint lookupField (fs : list (string * StructTag * data)) (n : string) : option data :=
  match fs with
  | [] => None
  | (fn, _, d) :: fs' => if String.eqb fn n then Some d else lookupField fs' n
  end.

Definition FieldByName (v : Value) (n : string) : option Value :=
  match val v with
  | DStruct fs => match lookupField fs n with
                  | Some d => Some (FieldOf v n d)
                  | None => None
                  end
  | _ => None
  end.

Fixpoint IsZeroData (d : data) : bool :=
  match d with
  | DBasic _ n => n =? 0
  | DArray _ vs => forallb IsZeroData vs
  | DSlice _ vs => match vs with [] => true | _ => false end
  | DStruct fs => forallb (fun '(_, _, v) => IsZeroData v) fs
  | DPtr _ t => match t with None => true | Some _ => false end
  end.

Definition IsZero (v : Value) : bool := IsZeroData (val v).

Definition isUintKind (k : reflect.Kind) : bool :=
  match k with
  | reflect.Uint | reflect.Uint8 | reflect.Uint16 | reflect.Uint32 | reflect.Uint64 => true
  | _ => false
  end.

Definition isIntKind (k : reflect.Kind) : bool :=
  match k with
  | reflect.Int | reflect.Int8 | reflect.Int16 | reflect.Int32 | reflect.Int64 => true
  | _ => false
  end.

(** [v.Uint()]: panics unless the kind is an unsigned integer kind. *)
Definition Uint (v : Value) : result Z :=
  match val v with
  | DBasic k n =>
      if isUintKind k || reflect.Kind_eqb k reflect.Uintptr then Ok n
      else Fail (Panic (ReflectWrongKind k))
  | d => Fail (Panic (ReflectWrongKind (Kind (typeOf d))))
  end.

(** [getValue]: the field as a [uint64]. *)
Definition getValue (v : Value) : result Z :=
  match val v with
  | DBasic k n =>
      if isUintKind k then Ok n
      else if isIntKind k then Ok (u64 n)
      else Fail (Panic (FieldTypeUnsupported k))
  | d => Fail (Panic (FieldTypeUnsupported (Kind (typeOf d))))
  end.

(** Conversion of a [uint64] to the signed integer of [bits] bits. *)
Definition toSigned (bits : Z) (v : Z) : Z :=
  let m := v mod 2 ^ bits in
  if m <? 2 ^ (bits - 1) then m else m - 2 ^ bits.

(** ** Byte sources and sinks *)

(** An [io.ByteReader] backed by the bytes that remain; once they are used
    up every [ReadByte] returns the error [exhausted] ([io.EOF] for a
    [bytes.Buffer]). *)
Record ByteReader := { pending : list Z; exhausted : error }.

Definition ReadByte (r : ByteReader) : result Z * ByteReader :=
  match pending r with
  | b :: rest => (Ok b, {| pending := rest; exhausted := exhausted r |})
  | [] => (Fail (Err (exhausted r)), r)
  end.

(** An [io.ByteWriter] of a fixed capacity (or unbounded). *)
Record ByteWriter := { written : list Z; capacity : option nat; overrun : error }.

Definition WriteByte (w : ByteWriter) (b : Z) : status * ByteWriter :=
  let w' := {| written := written w ++ [b]; capacity := capacity w;
               overrun := overrun w |} in
  match capacity w with
  | Some c =>
      if (c <=? length (written w))%nat then (Fail (Err (overrun w)), w)
      else (Ok tt, w')
  | None => (Ok tt, w')
  end.

Definition bytesBuffer (bs : list Z) : ByteReader :=
  {| pending := bs; exhausted := io_EOF |}.

Definition unbounded : ByteWriter :=
  {| written := []; capacity := None; overrun := SinkError 0 |}.

(** ** The traversal engine *)

(** A [tagReference]: the field tagged [sizeOf] or [countOf] and its tags.
    The Go code holds a pointer to the tags, which [decoder.layout] and
    [sizer.layout] update before the reference enters the field map; the
    handlers of the model return the updated reference. *)
Record tagReference := { ref_value : Value; ref_tags : tags }.

(** The back trace: [pop] only decrements [len], and [push] appends to
    [vals] and sets [len] to the new length of [vals]. *)
Record stack := { len : nat; vals : list Value }.

Definition push (s : stack) (v : Value) : stack :=
  {| len := length (vals s ++ [v]); vals := vals s ++ [v] |}.

Definition pop (s : stack) : stack :=
  {| len := Nat.pred (len s); vals := vals s |}.

Record transcoder (H : Type) := {
  handler : H;
  fieldMap : gmap string tagReference;
  backtrace : stack
}.
Arguments handler {H} t.
Arguments fieldMap {H} t.
Arguments backtrace {H} t.

Definition with_handler {H} (t : transcoder H) (h : H) : transcoder H :=
  {| handler := h; fieldMap := fieldMap t; backtrace := backtrace t |}.

Definition with_backtrace {H} (t : transcoder H) (s : stack) : transcoder H :=
  {| handler := handler t; fieldMap := fieldMap t; backtrace := s |}.

Definition with_ref {H} (t : transcoder H) (n : string) (r : tagReference)
    (h : H) : transcoder H :=
  {| handler := h; fieldMap := <[n := r]> (fieldMap t); backtrace := backtrace t |}.

Definition newTranscoder {H} (h : H) : transcoder H :=
  {| handler := h; fieldMap := ∅; backtrace := {| len := 0; vals := [] |} |}.

(** A call on a value returns its error, the value as the call leaves it
    (the Go code works in place) and the state it leaves behind. *)
Definition walk (H : Type) : Type :=
  Value -> transcoder H -> status * data * transcoder H.

(** The [handler] interface. The state [H] of the handler is part of the
    transcoder, so that [array] and [slice], which call back into
    [transcode], thread it through. *)
Record Handler (H : Type) := {
  h_field : Value -> option tags -> H -> status * data * H;
  h_layout : Value -> tagReference -> H -> status * tagReference * H;
  h_array : walk H -> Value -> tags -> option tagReference -> transcoder H ->
            status * data * transcoder H;
  h_slice : walk H -> Value -> tags -> option tagReference -> transcoder H ->
            status * data * transcoder H
}.
Arguments h_field {H} _.
Arguments h_layout {H} _.
Arguments h_array {H} _.
Arguments h_slice {H} _.

(** [transcoder.fieldByName]: the loop [for i := len; i != 0; i--] over
    [vals[i-1]]. [None] stands for the value the Go code returns when no
    frame has the field. The frames are the structs as they were pushed; the
    decoder, the one handler that changes fields, looks only at the kind of
    what is found. *)
Fixpoint searchFrames (vs : list Value) (i : nat) (n : string) : option Value :=
  match i with
  | O => None
  | S j =>
      match vs !! j with
      | Some v => match FieldByName v n with
                  | Some f => Some f
                  | None => searchFrames vs j n
                  end
      | None => None
      end
  end.

Definition fieldByName {H} (t : transcoder H) (n : string) : option Value :=
  searchFrames (vals (backtrace t)) (len (backtrace t)) n.

Definition isSequenceKind (k : reflect.Kind) : bool :=
  match k with
  | reflect.Slice | reflect.Array => true
  | _ => false
  end.

Definition isNone (f : layoutFormat) : bool :=
  match f with none => true | _ => false end.

Section Transcode.
Context {H : Type} (h : Handler H).

(** One field of the loop of [transcode]: the body of the [switch]. *)
Definition transcodeField (rec : walk H) (v : Value) (n : string) (d : data)
    (tags : tags) (t : transcoder H) : status * data * transcoder H :=
  let fieldVal := FieldOf v n d in
  match Kind (typeOf d) with
  | reflect.Struct => rec fieldVal t
  | reflect.Array => h_array h rec fieldVal tags (fieldMap t !! n) t
  | reflect.Slice => h_slice h rec fieldVal tags (fieldMap t !! n) t
  | _ =>
      if negb (isNone (format (tags_layout tags))) then
        match fieldByName t (name (tags_layout tags)) with
        | None => (Fail (Err (CannotLocateFieldName (name (tags_layout tags)))), d, t)
        | Some found =>
            if negb (isSequenceKind (VKind found)) then
              (Fail (Err (ReferencedLayoutNotSequence (VKind found))), d, t)
            else
              let '(st, ref, hs) :=
                h_layout h found {| ref_value := fieldVal; ref_tags := tags |}
                  (handler t) in
              match st with
              | Ok _ => (Ok tt, val (ref_value ref),
                         with_ref t (name (tags_layout tags)) ref hs)
              | Fail f => (Fail f, val (ref_value ref), with_handler t hs)
              end
        end
      else
        let '(st, d', hs) := h_field h fieldVal (Some tags) (handler t) in
        (st, d', with_handler t hs)
  end.

(** The loop of [transcode] over the fields that remain of the struct [v];
    [rec] is [transcode] itself. *)
Fixpoint transcodeFields (rec : walk H) (v : Value)
    (fs : list (string * StructTag * data)) (t : transcoder H)
    : status * list (string * StructTag * data) * transcoder H :=
  match fs with
  | [] => (Ok tt, [], t)
  | (n, tg, d) :: rest =>
      match parseFieldTags {| Name := n; Tag := tg; Type_ := typeOf d |} with
      | Fail f => (Fail f, fs, t)
      | Ok tags =>
          let '(st, d', t') := transcodeField rec v n d tags t in
          match st with
          | Ok _ =>
              let '(st', rest', t'') := transcodeFields rec v rest t' in
              (st', (n, tg, d') :: rest', t'')
          | Fail f => (Fail f, (n, tg, d') :: rest, t')
          end
      end
  end.

(** [transcoder.transcode]. Each nesting level (pointer, struct, element of
    a sequence) uses one unit of [fuel]. *)
Fixpoint transcode (fuel : nat) (v : Value) (t : transcoder H)
    : status * data * transcoder H :=
  match fuel with
  | O => (Fail OutOfFuel, val v, t)
  | S fuel' =>
      match val v with
      | DPtr elem (Some d) =>
          let '(st, d', t') :=
            transcode fuel' {| flagAddr := true; flagRO := flagRO v; val := d |} t in
          (st, DPtr elem (Some d'), t')
      | DPtr _ None => (Fail (Panic (ReflectWrongKind reflect.Invalid)), val v, t)
      | DStruct fs =>
          let '(st, fs', t') :=
            transcodeFields (transcode fuel') v fs
              (with_backtrace t (push (backtrace t) v)) in
          (st, DStruct fs', with_backtrace t' (pop (backtrace t')))
      | _ =>
          let '(st, d', hs) := h_field h v None (handler t) in
          (st, d', with_handler t hs)
      end
  end.
End Transcode.

(** ** Static size of a type *)

Definition KindSize (k : reflect.Kind) : Z :=
  match k with
  | reflect.Invalid => 0
  | reflect.Bool | reflect.Int8 | reflect.Uint8 => 1
  | reflect.Int16 | reflect.Uint16 => 2
  | reflect.Int32 | reflect.Uint32 | reflect.Float32 => 4
  | reflect.Complex128 | reflect.Interface | reflect.String => 16
  | _ => 8
  end.

(** The size of a value in memory, as the gc compiler lays types out on
    amd64: [Type.Align] and [Type.Size] of package reflect. A field starts at
    the next multiple of its alignment, a struct is as large as the next
    multiple of its own alignment, and a struct that is not empty and ends in
    a field of size zero is one byte longer before that rounding. *)
Definition KindAlign (k : reflect.Kind) : Z :=
  match k with
  | reflect.Invalid | reflect.Bool | reflect.Int8 | reflect.Uint8 => 1
  | reflect.Int16 | reflect.Uint16 => 2
  | reflect.Int32 | reflect.Uint32 | reflect.Float32 | reflect.Complex64 => 4
  | _ => 8
  end.

Definition roundUp (n a : Z) : Z := (n + a - 1) / a * a.

Fixpoint memAlign (t : type) : Z :=
  match t with
  | TBasic k => KindAlign k
  | TArray _ elem => memAlign elem
  | TSlice _ => 8
  | TStruct fs =>
      (fix maxAlign (fs : list (string * StructTag * type)) : Z :=
         match fs with
         | [] => 1
         | (_, _, ft) :: rest => Z.max (memAlign ft) (maxAlign rest)
         end) fs
  | TPtr _ => 8
  end.

Fixpoint memSize (t : type) : Z :=
  match t with
  | TBasic k => KindSize k
  | TArray n elem => Z.of_nat n * memSize elem
  | TSlice _ => 24
  | TStruct fs =>
      roundUp
        ((fix layout (fs : list (string * StructTag * type)) (offset : Z)
              (endsInZero : bool) : Z :=
            match fs with
            | [] => if endsInZero && (0 <? offset) then offset + 1 else offset
            | (_, _, ft) :: rest =>
                layout rest (roundUp offset (memAlign ft) + memSize ft)
                  (memSize ft =? 0)
            end) fs 0 false)
        (memAlign (TStruct fs))
  | TPtr _ => 8
  end.

(** The largest allocation of the runtime: [maxAlloc] is [2^48] bytes on
    amd64. Below that the model has the memory that is asked for. *)
Definition maxAlloc : Z := 2 ^ 48.

(** [typeSize] with [structTypeSize] as its inner loop over the fields;
    [bytes] and [bits] are the loop's counters. *)
Fixpoint typeSize (t : type) : result Z :=
  match t with
  | TStruct fs =>
      (fix structTypeSize (fs : list (string * StructTag * type)) (bytes bits : Z)
         : result Z :=
         match fs with
         | [] => if bits =? 0 then Ok bytes else Fail (Err CannotDeductSliceLengthError)
         | (n, tg, ft) :: rest =>
             do bits' <-
               match ft with
               | TArray l _ =>
                   do sz <- typeSize ft;
                   Ok (u64 (bits + u64 (u64 (sz * 8) * Z.of_nat l)))
               | TSlice _ => Fail (Err CannotDeductSliceLengthError)
               | _ =>
                   do tags <- parseFieldTags {| Name := n; Tag := tg; Type_ := ft |};
                   Ok (u64 (bits + nbits (tags_bitfield tags)))
               end;
             structTypeSize rest (u64 (bytes + bits' / 8)) (bits' mod 8)
         end) fs 0 0
  | TArray _ elem => typeSize elem
  | TSlice _ => Fail (Err CannotDeductSliceLengthError)
  | TBasic k => Ok (KindSize k)
  | TPtr _ => Ok 8
  end.

(** ** The decoder (decoder.go) *)

Module decoder.
Record state := {
  reader : ByteReader;
  currentByte : Z;
  byteOffset : Z;
  bitOffset : Z
}.

Definition with_reader (d : state) (r : ByteReader) : state :=
  {| reader := r; currentByte := currentByte d; byteOffset := byteOffset d;
     bitOffset := bitOffset d |}.

(** The loop [for i := 0; i < nbits; i += 8] of [read], [n] iterations
    from [i] on. *)
Fixpoint readBytes (n : nat) (i : Z) (v : Z) (d : state) : result Z * state :=
  match n with
  | O => (Ok v, d)
  | S n' =>
      match ReadByte (reader d) with
      | (Ok b, r) =>
          readBytes n' (i + 8) (Z.lor v (u64 (Z.shiftl b i))) (with_reader d r)
      | (Fail f, r) => (Fail f, with_reader d r)
      end
  end.

(** [decoder.read]: the result and the state the call leaves behind. *)
Definition read (nbits : Z) (d : state) : result Z * state :=
  if nbits =? 0 then (Fail (Err UnsupportedZeroBitOperation), d)
  else if nbits <? 8 then
    let '(fetched, d1) :=
      if bitOffset d =? 0 then
        match ReadByte (reader d) with
        | (Ok b, r) => (Ok tt, {| reader := r; currentByte := b;
                                  byteOffset := byteOffset d;
                                  bitOffset := bitOffset d |})
        | (Fail f, r) => (Fail f, with_reader d r)
        end
      else (Ok tt, d) in
    match fetched with
    | Ok _ =>
        if u64 (8 - bitOffset d1) <? nbits then (Fail (Err InsufficientBitCount), d1)
        else
          let mask := 2 ^ nbits - 1 in
          let v := Z.land (Z.shiftr (currentByte d1) (bitOffset d1)) mask in
          let bo := u64 (bitOffset d1 + nbits) in
          (Ok v, {| reader := reader d1; currentByte := currentByte d1;
                    byteOffset := byteOffset d1;
                    bitOffset := if 8 <=? bo then 0 else bo |})
    | Fail f => (Fail f, d1)
    end
  else if negb (nbits mod 8 =? 0) then (Fail (Err (UnsupportedBitSpan nbits)), d)
  else readBytes (Z.to_nat (nbits / 8)) 0 0 d.

(** What [SetBool], [SetUint] and [SetInt] store for the number [v] read. *)
Definition store (k : reflect.Kind) (v : Z) : result data :=
  match k with
  | reflect.Bool => Ok (DBasic k (if v =? 1 then 1 else 0))
  | reflect.Uint8 => Ok (DBasic k (v mod 2 ^ 8))
  | reflect.Uint16 => Ok (DBasic k (v mod 2 ^ 16))
  | reflect.Uint32 => Ok (DBasic k (v mod 2 ^ 32))
  | reflect.Uint64 | reflect.Uint => Ok (DBasic k (v mod 2 ^ 64))
  | reflect.Int8 => Ok (DBasic k (toSigned 8 v))
  | reflect.Int16 => Ok (DBasic k (toSigned 16 v))
  | reflect.Int32 => Ok (DBasic k (toSigned 32 v))
  | reflect.Int64 | reflect.Int => Ok (DBasic k (toSigned 64 v))
  | _ => Fail (Err (UnsupportedReadType k))
  end.

(** The width [readValue] reads: the natural width of the kind, or the
    width of the tags, which must not exceed it. *)
Definition width (value : Value) (tags : option tags) : result Z :=
  do natural <- (if reflect.Kind_eqb (VKind value) reflect.Bool then Ok 1
                 else do b <- KindBits (VKind value); Ok (u64 b));
  match tags with
  | Some tg =>
      if natural <? nbits (tags_bitfield tg)
      then Fail (Err (BitfieldExceedsFieldSize (VKind value)
                        (nbits (tags_bitfield tg)) natural))
      else Ok (nbits (tags_bitfield tg))
  | None => Ok natural
  end.

(** [decoder.readValue]: the number read, the field as the call leaves it
    and the state. *)
Definition readValue (value : Value) (tags : option tags) (d : state)
    : result Z * data * state :=
  if negb (CanSet value) then (Fail (Err (FieldCannotBeSet (VKind value))), val value, d)
  else
    match width value tags with
    | Ok n =>
        match read n d with
        | (Ok v, d') =>
            match store (VKind value) v with
            | Ok x => (Ok v, x, d')
            | Fail f => (Fail f, val value, d')
            end
        | (Fail f, d') => (Fail f, val value, d')
        end
    | Fail f => (Fail f, val value, d)
    end.

Definition nilOr {A} (r : result A) : status :=
  match r with Ok _ => Ok tt | Fail f => Fail f end.

Definition field (value : Value) (tags : option tags) (d : state)
    : status * data * state :=
  let '(r, x, d') := readValue value tags d in (nilOr r, x, d').

(** [decoder.layout]: the referenced sequence [found] is not used; the
    number read ([0] on an error) becomes [ref.tags.layout.value]. *)
Definition layout (found : Value) (ref : tagReference) (d : state)
    : status * tagReference * state :=
  let '(r, x, d') := readValue (ref_value ref) (Some (ref_tags ref)) d in
  (nilOr r,
   {| ref_value := {| flagAddr := flagAddr (ref_value ref);
                      flagRO := flagRO (ref_value ref); val := x |};
      ref_tags := set_layout_value (ref_tags ref)
                    (match r with Ok v => v | Fail _ => 0 end) |},
   d').

Definition isEOF (f : failure) : bool :=
  match f with Err io_EOF => true | _ => false end.

Section Loops.
Context (rec : walk state).

(** The loop of [decoder.array] over the elements that remain. *)
Fixpoint arrayLoop (arr : Value) (isStruct : bool) (tags : tags)
    (vs : list data) (t : transcoder state)
    : status * list data * transcoder state :=
  match vs with
  | [] => (Ok tt, [], t)
  | x :: rest =>
      if isStruct then
        match rec (IndexOf arr x) t with
        | (Ok _, x', t') =>
            let '(st, rest', t'') := arrayLoop arr isStruct tags rest t' in
            (st, x' :: rest', t'')
        | (Fail f, x', t') => (Fail f, x' :: rest, t')
        end
      else
        match readValue (IndexOf arr x) None (handler t) with
        | (Ok _, x', d') =>
            let '(st, rest', t'') :=
              arrayLoop arr isStruct tags rest (with_handler t d') in
            (st, x' :: rest', t'')
        | (Fail f, x', d') =>
            if isEOF f && tags_truncate tags
            then (Ok tt, x' :: rest, with_handler t d')
            else (Fail f, x' :: rest, with_handler t d')
        end
  end.

Definition array (arr : Value) (tags : tags) (ref : option tagReference)
    (t : transcoder state) : status * data * transcoder state :=
  let isStruct := reflect.Kind_eqb (Kind (elemType (val arr))) reflect.Struct in
  let '(st, vs, t') := arrayLoop arr isStruct tags (elements (val arr)) t in
  (st, DArray (elemType (val arr)) vs, t').

(** The loop of [decoder.slice] over the elements that remain. *)
Fixpoint sliceLoop (arr : Value) (tags : tags) (vs : list data)
    (t : transcoder state) : status * list data * transcoder state :=
  match vs with
  | [] => (Ok tt, [], t)
  | x :: rest =>
      match rec (IndexOf arr x) t with
      | (Ok _, x', t') =>
          let '(st, rest', t'') := sliceLoop arr tags rest t' in
          (st, x' :: rest', t'')
      | (Fail f, x', t') =>
          if isEOF f && tags_truncate tags
          then (Ok tt, x' :: rest, t')
          else (Fail f, x' :: rest, t')
      end
  end.

(** The length [decoder.slice] takes from the reference. *)
Definition sliceLength (arr : Value) (ref : tagReference) : result Z :=
  match format (tags_layout (ref_tags ref)) with
  | sizeOf =>
      do sz <- typeSize (elemType (val arr));
      if sz =? 0 then Fail (Panic IntegerDivideByZero)
      else if negb (value (tags_layout (ref_tags ref)) mod sz =? 0) then
        Fail (Err (SliceSizeNonMultiple (value (tags_layout (ref_tags ref))) sz))
      else Ok (value (tags_layout (ref_tags ref)) / sz)
  | countOf => Ok (value (tags_layout (ref_tags ref)))
  | none => Fail (Err SliceSizeUndetermined)
  end.

(** [arr.Set(reflect.MakeSlice(arr.Type(), int(length), int(length)))]: a
    length from [2^63] on is negative as an [int]; the runtime refuses an
    array of more than [maxAlloc] bytes; and [Set] comes last. *)
Definition makeSlice (arr : Value) (length : Z) : result data :=
  if 2 ^ 63 <=? length then Fail (Panic ReflectMakeSliceNegativeLen)
  else if maxAlloc <? memSize (elemType (val arr)) * length
  then Fail (Panic RuntimeAllocationSizeOutOfRange)
  else if negb (CanSet arr) then Fail (Panic ReflectSetUnaddressable)
  else Ok (DSlice (elemType (val arr))
             (repeat (zero (elemType (val arr))) (Z.to_nat length))).

Definition slice (arr : Value) (tags : tags) (ref : option tagReference)
    (t : transcoder state) : status * data * transcoder state :=
  match (match ref with
         | Some r => do length <- sliceLength arr r; makeSlice arr length
         | None => Ok (val arr)
         end) with
  | Fail f => (Fail f, val arr, t)
  | Ok x =>
      let arr' := {| flagAddr := flagAddr arr; flagRO := flagRO arr; val := x |} in
      let '(st, vs, t') := sliceLoop arr' tags (elements x) t in
      (st, DSlice (elemType x) vs, t')
  end.
End Loops.

Definition Handler : Handler state :=
  {| h_field := field; h_layout := layout; h_array := array; h_slice := slice |}.

(** [Decode]: the error, the structure as decoding leaves it and what
    remains of the source. *)
Definition Decode (fuel : nat) (reader : ByteReader) (s : data)
    : status * data * ByteReader :=
  let d := {| reader := reader; currentByte := 0; byteOffset := 0; bitOffset := 0 |} in
  let '(st, s', t) := transcode Handler fuel (ValueOf s) (newTranscoder d) in
  (st, s', decoder.reader (handler t)).
End decoder.

(** ** The sizer *)

Module sizer.
Record state := { size_ : Z; nbits_ : Z; nbytes : Z }.

Definition addBits (n : Z) (s : state) : state :=
  let b := u64 (nbits_ s + n) in
  {| size_ := size_ s; nbits_ := b mod 8; nbytes := u64 (nbytes s + b / 8) |}.

(** The number a layout field stands for, as [sizer.layout] and
    [encoder.layout] compute it; [offset] is the running byte offset of
    the handler. *)
Definition layoutValue (size : Value -> result Z) (found : Value)
    (ref : tagReference) (offset : Z) : result Z :=
  if IsZero (ref_value ref) then
    match format (tags_layout (ref_tags ref)) with
    | sizeOf =>
        do first <- Index found 0;
        do sz <- size first;
        let v := u64 (Len found * sz) in
        Ok (if relative (tags_layout (ref_tags ref)) then u64 (v - offset) else v)
    | countOf => Ok (Len found)
    | none => Ok 0
    end
  else getValue (ref_value ref).

(** The number of elements [array] walks: the length, or the value of the
    governing field when that is not zero. *)
Definition arrayLen (arr : Value) (ref : option tagReference) : result Z :=
  match ref with
  | Some r => if negb (IsZero (ref_value r)) then Uint (ref_value r) else Ok (Len arr)
  | None => Ok (Len arr)
  end.

Section Handlers.
Context (size : Value -> result Z).

Definition field (value : Value) (tags : option tags) (s : state)
    : status * data * state :=
  match tags with
  | None =>
      match KindBits (VKind value) with
      | Ok b => (Ok tt, val value, addBits (u64 b) s)
      | Fail f => (Fail f, val value, s)
      end
  | Some tg => (Ok tt, val value, addBits (nbits (tags_bitfield tg)) s)
  end.

Definition layout (found : Value) (ref : tagReference) (s : state)
    : status * tagReference * state :=
  match layoutValue size found ref (nbytes s) with
  | Ok v =>
      (Ok tt,
       {| ref_value := ref_value ref; ref_tags := set_layout_value (ref_tags ref) v |},
       addBits (nbits (tags_bitfield (ref_tags ref))) s)
  | Fail f => (Fail f, ref, s)
  end.

Definition array (rec : walk state) (arr : Value) (tags : tags)
    (ref : option tagReference) (t : transcoder state)
    : status * data * transcoder state :=
  match (do first <- Index arr 0;
         do sz <- size first;
         do l <- arrayLen arr ref;
         Ok (u64 (u64 (sz * l) * 8))) with
  | Ok n => (Ok tt, val arr, with_handler t (addBits n (handler t)))
  | Fail f => (Fail f, val arr, t)
  end.

Definition Handler : Handler state :=
  {| h_field := field; h_layout := layout; h_array := array; h_slice := array |}.
End Handlers.
End sizer.

(** [size]: the sizer run on a value. The handlers of the sizer call [size]
    again on the first element of a sequence; [fuel] bounds this nesting
    and that of [transcode]. *)
Fixpoint size (fuel : nat) (v : Value) : result Z :=
  match fuel with
  | O => Fail OutOfFuel
  | S fuel' =>
      let '(st, _, t) :=
        transcode (sizer.Handler (size fuel')) fuel' v
          (newTranscoder {| sizer.size_ := 0; sizer.nbits_ := 0; sizer.nbytes := 0 |}) in
      match st with
      | Fail f => Fail f
      | Ok _ =>
          if negb (sizer.nbits_ (handler t) =? 0) then Fail (Err LeftOverBits)
          else Ok (sizer.nbytes (handler t))
      end
  end.

(** ** The encoder *)

Definition ReverseBytes16 (x : Z) : Z :=
  Z.lor (Z.shiftr x 8) (Z.shiftl (x mod 2 ^ 8) 8).
Definition ReverseBytes32 (x : Z) : Z :=
  Z.lor (ReverseBytes16 (Z.shiftr x 16)) (Z.shiftl (ReverseBytes16 (x mod 2 ^ 16)) 16).
Definition ReverseBytes64 (x : Z) : Z :=
  Z.lor (ReverseBytes32 (Z.shiftr x 32)) (Z.shiftl (ReverseBytes32 (x mod 2 ^ 32)) 32).

Module encoder.
Record state := {
  writer : ByteWriter;
  currentByte : Z;
  byteOffset : Z;
  bitOffset : Z
}.

(** [encoder.writeByte]: the offset advances only when the sink took the
    byte. *)
Definition writeByte (b : Z) (e : state) : status * state :=
  match WriteByte (writer e) b with
  | (Ok _, w) => (Ok tt, {| writer := w; currentByte := currentByte e;
                            byteOffset := u64 (byteOffset e + 1);
                            bitOffset := bitOffset e |})
  | (Fail f, w) => (Fail f, {| writer := w; currentByte := currentByte e;
                               byteOffset := byteOffset e;
                               bitOffset := bitOffset e |})
  end.

Definition set_current (e : state) (c : Z) : state :=
  {| writer := writer e; currentByte := c; byteOffset := byteOffset e;
     bitOffset := bitOffset e |}.

Definition set_bitOffset (e : state) (b : Z) : state :=
  {| writer := writer e; currentByte := currentByte e; byteOffset := byteOffset e;
     bitOffset := b |}.

(** The loop [for nbits != 0] of [write]; at most [n] iterations. The
    error of [writeByte] is dropped, as in the Go code. *)
Fixpoint writeLoop (n : nat) (v nbits : Z) (e : state) : state :=
  match n with
  | O => e
  | S n' =>
      if nbits =? 0 then e
      else
        let e1 := set_current e (u8 v) in
        if nbits <? 8 then set_bitOffset e1 (u64 (bitOffset e1 + nbits))
        else writeLoop n' (Z.shiftr v 8) (nbits - 8) (snd (writeByte (currentByte e1) e1))
  end.

(** [encoder.write] *)
Definition write (v nbits : Z) (e : state) : status * state :=
  if (1 <? nbits) && (2 ^ 64 - 1 <? v) then
    (Fail (Err (ValueWillOverflowBitfield v nbits)), e)
  else if negb (bitOffset e =? 0) then
    let e1 := set_current e (Z.lor (currentByte e) (u8 (u64 (Z.shiftl v (bitOffset e))))) in
    let remainingBits := u64 (8 - bitOffset e1) in
    if nbits <? remainingBits then (Ok tt, set_bitOffset e1 (u64 (bitOffset e1 + nbits)))
    else
      let v' := Z.shiftr v remainingBits in
      let nbits' := nbits - remainingBits in
      let e2 := snd (writeByte (currentByte e1) e1) in
      let e3 := set_bitOffset (set_current e2 (u8 v')) 0 in
      (Ok tt, writeLoop (S (Z.to_nat (nbits' / 8))) v' nbits' e3)
  else (Ok tt, writeLoop (S (Z.to_nat (nbits / 8))) v nbits e).

(** The loop [for e.byteOffset%val != 0] of [align]. A sink that rejects
    the byte leaves [byteOffset] as it is, and the Go loop never ends: the
    model runs out of [fuel]. *)
Fixpoint alignLoop (fuel : nat) (boundary : Z) (e : state) : status * state :=
  if byteOffset e mod boundary =? 0 then (Ok tt, e)
  else match fuel with
       | O => (Fail OutOfFuel, e)
       | S fuel' =>
           match write 0 8 e with
           | (Ok _, e') => alignLoop fuel' boundary e'
           | (Fail f, e') => (Fail f, e')
           end
       end.

(** [encoder.align] *)
Definition align (boundary : Z) (e : state) : status * state :=
  match (if negb (bitOffset e =? 0) then write 0 (8 - bitOffset e) e else (Ok tt, e)) with
  | (Ok _, e1) =>
      if boundary =? 0 then (Fail (Panic IntegerDivideByZero), e1)
      else alignLoop (Z.to_nat boundary) boundary e1
  | (Fail f, e1) => (Fail f, e1)
  end.

Definition reverse (k : reflect.Kind) (v : Z) : Z :=
  match k with
  | reflect.Uint16 | reflect.Int16 => ReverseBytes16 (u16 v)
  | reflect.Uint32 | reflect.Int32 | reflect.Uint | reflect.Int => ReverseBytes32 (u32 v)
  | reflect.Uint64 | reflect.Int64 => ReverseBytes64 v
  | _ => v
  end.

(** [encoder.field] *)
Definition field (value : Value) (tags : option tags) (e : state)
    : status * data * state :=
  match getValue value with
  | Fail f => (Fail f, val value, e)
  | Ok v =>
      match tags with
      | None =>
          match KindBits (VKind value) with
          | Ok b => let '(st, e') := write v (u64 b) e in (st, val value, e')
          | Fail f => (Fail f, val value, e)
          end
      | Some tg =>
          let v' := match tags_endian tg with
                    | big => reverse (VKind value) v
                    | little => v
                    end in
          let '(st, e') := write v' (nbits (tags_bitfield tg)) e in
          (st, val value, e')
      end
  end.

Section Handlers.
Context (size : Value -> result Z).

(** [encoder.layout] *)
Definition layout (found : Value) (ref : tagReference) (e : state)
    : status * tagReference * state :=
  match sizer.layoutValue size found ref (byteOffset e) with
  | Ok v =>
      let '(st, e') := write v (nbits (tags_bitfield (ref_tags ref))) e in
      (st, ref, e')
  | Fail f => (Fail f, ref, e)
  end.

(** The loop of [encoder.array]: [l] more elements, of which [vs]
    remain in the sequence. *)
Fixpoint arrayLoop (rec : walk state) (arr : Value) (l : nat) (vs : list data)
    (t : transcoder state) : status * transcoder state :=
  match l with
  | O => (Ok tt, t)
  | S l' =>
      match vs with
      | [] => (Fail (Panic ReflectIndexOutOfRange), t)
      | x :: rest =>
          match rec (IndexOf arr x) t with
          | (Ok _, _, t') => arrayLoop rec arr l' rest t'
          | (Fail f, _, t') => (Fail f, t')
          end
      end
  end.

(** [encoder.array]; [int(ref.value.Uint())] is negative from [2^63]
    on, and the loop is then empty. *)
Definition array (rec : walk state) (arr : Value) (tags : tags)
    (ref : option tagReference) (t : transcoder state)
    : status * data * transcoder state :=
  match sizer.arrayLen arr ref with
  | Ok l =>
      let n := if 2 ^ 63 <=? l then O else Z.to_nat l in
      let '(st, t') := arrayLoop rec arr n (elements (val arr)) t in
      (st, val arr, t')
  | Fail f => (Fail f, val arr, t)
  end.

Definition Handler : Handler state :=
  {| h_field := field; h_layout := layout; h_array := array; h_slice := array |}.
End Handlers.

(** [Encode]: the error and the sink as encoding leaves it. *)
Definition Encode (fuel : nat) (writer : ByteWriter) (s : data)
    : status * ByteWriter :=
  let e := {| writer := writer; currentByte := 0; byteOffset := 0; bitOffset := 0 |} in
  let '(st, _, t) := transcode (Handler (size fuel)) fuel (ValueOf s) (newTranscoder e) in
  (st, encoder.writer (handler t)).
End encoder.

(** ** The encoder of encoder.go: its bit-level write *)

Module encoder_go.
(** [uint64(math.Pow(2, float64(nbits)))]: exact below 64 bits; from 64
    bits on the conversion is out of range, and gives [2^63] on amd64. *)
Definition pow2 (nbits : Z) : Z :=
  if nbits <? 64 then 2 ^ nbits else 2 ^ 63.

(** The loop [for b := 0; b < nbits/8; b++] of [write], [n] iterations
    from [b] on. *)
Fixpoint writeBytes (n : nat) (b : Z) (v : Z) (e : encoder.state)
    : status * encoder.state :=
  match n with
  | O => (Ok tt, e)
  | S n' =>
      match encoder.writeByte (u8 (Z.shiftr v (u64 (b * 8)))) e with
      | (Ok _, e') => writeBytes n' (b + 1) v e'
      | (Fail f, e') => (Fail f, e')
      end
  end.

(** [encoder.write] *)
Definition write (v nbits : Z) (e : encoder.state) : status * encoder.state :=
  if (1 <? nbits) && (u64 (pow2 nbits - 1) <? v) then
    (Fail (Err (ValueWillOverflowBitfield v nbits)), e)
  else if nbits <? 8 then
    let shift := encoder.bitOffset e in
    if 8 <? u64 (shift + nbits) then (Fail (Err BitfieldOverflowsSingleByte), e)
    else
      let e1 := encoder.set_current e
                  (Z.lor (encoder.currentByte e) (u8 (u64 (Z.shiftl v shift)))) in
      let e2 := encoder.set_bitOffset e1 (u64 (encoder.bitOffset e1 + nbits)) in
      if encoder.bitOffset e2 =? 8 then
        let e3 := snd (encoder.writeByte (encoder.currentByte e2) e2) in
        (Ok tt, encoder.set_current (encoder.set_bitOffset e3 0) 0)
      else (Ok tt, e2)
  else if negb (encoder.bitOffset e =? 0) then (Fail (Err CannotSpanMultiByteBitfield), e)
  else if negb (nbits mod 8 =? 0) then (Fail (Err OnlyByteMultiples), e)
  else writeBytes (Z.to_nat (nbits / 8)) 0 v e.
End encoder_go.

(** ** Building values *)

Definition U8 (n : Z) : data := DBasic reflect.Uint8 n.
Definition U16 (n : Z) : data := DBasic reflect.Uint16 n.
Definition U32 (n : Z) : data := DBasic reflect.Uint32 n.
Definition U64 (n : Z) : data := DBasic reflect.Uint64 n.
Definition I (n : Z) : data := DBasic reflect.Int n.

(** [&s]: a pointer to the struct, as the callers of [Decode] pass it. *)
Definition ptr (d : data) : data := DPtr (typeOf d) (Some d).


(** * Definitions for the properties *)

(** ** The bit-level read *)

Definition midByte : decoder.state :=
  {| decoder.reader := bytesBuffer [31];
     decoder.currentByte := 199;
     decoder.byteOffset := 0;
     decoder.bitOffset := 6 |}.

(** ** A field that cannot be set *)

Definition isBasicKind (k : reflect.Kind) : bool :=
  match k with
  | reflect.Struct | reflect.Array | reflect.Slice => false
  | _ => true
  end.

Definition decoderStart (rd : ByteReader) : transcoder decoder.state :=
  newTranscoder {| decoder.reader := rd; decoder.currentByte := 0;
                   decoder.byteOffset := 0; decoder.bitOffset := 0 |}.

(** The structure of the README: [reserved0] is not exported. *)
Definition SCSI_Standard_Inquiry : data :=
  DStruct [("PeripheralDeviceType", bare "bitfield" "5", U8 0);
           ("PeripheralQualifier", bare "bitfield" "3", U8 0);
           ("reserved0", bare "bitfield" "6,reserved", U8 0);
           ("LU_Cong", bare "bitfield" "1", U8 0);
           ("RMB", bare "bitfield" "1", U8 0);
           ("Version", notag, U8 0)].

(** ** Reserved fields on encode *)

Definition encoderStart (w : ByteWriter) : encoder.state :=
  {| encoder.writer := w; encoder.currentByte := 0; encoder.byteOffset := 0;
     encoder.bitOffset := 0 |}.

Definition set_reserved (tg : tags) (b : bool) : tags :=
  set_bitfield tg {| nbits := nbits (tags_bitfield tg); reserved := b |}.

(** The structure of the README with all the bits of [reserved0] set. *)
Definition inquiryReservedSet : data :=
  DStruct [("PeripheralDeviceType", bare "bitfield" "5", U8 0);
           ("PeripheralQualifier", bare "bitfield" "3", U8 0);
           ("reserved0", bare "bitfield" "6,reserved", U8 63);
           ("LU_Cong", bare "bitfield" "1", U8 0);
           ("RMB", bare "bitfield" "1", U8 0);
           ("Version", notag, U8 0)].

(** ** Overflow on write *)

Definition nibbles (a b : Z) : data :=
  DStruct [("A", bare "bitfield" "4", U8 a); ("B", bare "bitfield" "4", U8 b)].

(** ** Truncation *)

(** The test of the repository: 1024 bytes tagged [truncate], one byte of
    input. *)
Definition truncated1024 : data :=
  DStruct [("A", bare "truncate" "", DArray (TBasic reflect.Uint8) (repeat (U8 0) 1024))].

Definition pair8 (a b : Z) : data := DStruct [("V", notag, U8 a); ("W", notag, U8 b)].

Definition truncatedPairs : data :=
  DStruct [("A", bare "truncate" "",
            DArray (typeOf (pair8 0 0)) [pair8 0 0; pair8 0 0])].

Definition truncatedPairSlice : data :=
  DStruct [("N", bare "countOf" "A", U8 0);
           ("A", bare "truncate" "", DSlice (typeOf (pair8 0 0)) [])].

(** ** Alignment *)

Definition appended (w : ByteWriter) (bs : list Z) : ByteWriter :=
  {| written := written w ++ bs; capacity := capacity w; overrun := overrun w |}.

(** The test of the repository: a byte and a 32-bit field tagged
    [align:"4"]. *)
Definition padAligned : data :=
  DStruct [("Pad", notag, U8 0); ("Aligned", bare "align" "4", U32 255)].

(** ** Errors of the descriptor model *)

Definition badSecondTag : data :=
  DStruct [("A", notag, U8 1); ("B", bare "bitfield" "x", U8 2)].

Definition nineBits : tags :=
  {| tags_endian := little; tags_bitfield := {| nbits := 9; reserved := false |};
     tags_layout := {| format := none; name := EmptyString; relative := false; value := 0 |};
     tags_alignment := 0; tags_truncate := false |}.

Definition settableByte : Value :=
  {| flagAddr := true; flagRO := false; val := U8 0 |}.

(** ** Sequences governed by a reference *)

Definition sizeRef (span : Z) : tagReference :=
  {| ref_value := {| flagAddr := true; flagRO := false; val := U8 span |};
     ref_tags := {| tags_endian := little;
                    tags_bitfield := {| nbits := 8; reserved := false |};
                    tags_layout := {| format := sizeOf; name := "Ss"; relative := false;
                                      value := span |};
                    tags_alignment := 0; tags_truncate := false |} |}.

Definition wordSlice : Value :=
  {| flagAddr := true; flagRO := false; val := DSlice (TBasic reflect.Uint16) [] |}.

(** [struct{A uint8; In struct{X uint8}}]: two bytes on the wire. *)
Definition nested (a x : Z) : data :=
  DStruct [("A", notag, U8 a); ("In", notag, DStruct [("X", notag, U8 x)])].

(** [struct{Size uint8 `sizeOf:"Ts"`; Ts []struct{A uint8; In struct{X uint8}}}] *)
Definition sizedNested (span : Z) (vs : list data) : data :=
  DStruct [("Size", bare "sizeOf" "Ts", U8 span);
           ("Ts", notag, DSlice (typeOf (nested 0 0)) vs)].

(** [struct{In struct{X uint8}}], and a slice of it governed by a size. *)
Definition wrapped (x : Z) : data :=
  DStruct [("In", notag, DStruct [("X", notag, U8 x)])].

Definition sizedWrapped (span : Z) (vs : list data) : data :=
  DStruct [("Size", bare "sizeOf" "Ts", U8 span);
           ("Ts", notag, DSlice (typeOf (wrapped 0)) vs)].

(** ** The value of a layout field on encode *)

Definition layoutRef (f : layoutFormat) (rel : bool) (stored : Z) : tagReference :=
  {| ref_value := {| flagAddr := false; flagRO := false; val := U8 stored |};
     ref_tags := {| tags_endian := little;
                    tags_bitfield := {| nbits := 8; reserved := false |};
                    tags_layout := {| format := f; name := "Ts"; relative := rel;
                                      value := 0 |};
                    tags_alignment := 0; tags_truncate := false |} |}.

Definition twoPairs : Value :=
  ValueOf (DArray (typeOf (pair8 0 0)) [pair8 1 2; pair8 3 4]).

Definition afterOneByte : encoder.state :=
  {| encoder.writer := appended unbounded [9]; encoder.currentByte := 9;
     encoder.byteOffset := 1; encoder.bitOffset := 0 |}.

(** [struct{N uint8 `<tag>`; Ts []T}] with a slice of elements of type
    [elem], and the same with an array. *)
Definition governedSlice (tg : StructTag) (stored : Z) (elem : type) (vs : list data)
    : data :=
  DStruct [("N", tg, U8 stored); ("Ts", notag, DSlice elem vs)].

Definition governedArray (tg : StructTag) (stored : Z) (elem : type) (vs : list data)
    : data :=
  DStruct [("N", tg, U8 stored); ("Ts", notag, DArray elem vs)].

(** [struct{Pad uint8; N uint8 `sizeOf:"Ts,relative"`; Ts []uint16}] *)
Definition relativeWords (stored : Z) (ws : list Z) : data :=
  DStruct [("Pad", notag, U8 9); ("N", bare "sizeOf" "Ts,relative", U8 stored);
           ("Ts", notag, DSlice (TBasic reflect.Uint16) (map U16 ws))].

(** ** Round trip: the stream of bits *)

(** [n] bits of [v] from bit [i] on, least significant first. *)
Fixpoint bitsFrom (n : nat) (i : Z) (v : Z) : list bool :=
  match n with
  | O => []
  | S n' => Z.testbit v i :: bitsFrom n' (i + 1) v
  end.

Definition byteBits (b : Z) : list bool := bitsFrom 8 0 b.

Definition streamBits (bs : list Z) : list bool := flat_map byteBits bs.

Definition isByte (b : Z) : Prop := 0 <= b < 256.

(** The bits the encoder has produced: those of the bytes written and those
    pending in [currentByte]. *)
Definition encBits (e : encoder.state) : list bool :=
  streamBits (written (encoder.writer e))
  ++ bitsFrom (Z.to_nat (encoder.bitOffset e)) 0 (encoder.currentByte e).

Record encOk (e : encoder.state) : Prop := {
  enc_unbounded : capacity (encoder.writer e) = None;
  enc_offset : 0 <= encoder.bitOffset e < 8;
  enc_pending : 0 <= encoder.currentByte e < 2 ^ encoder.bitOffset e
                \/ encoder.bitOffset e = 0;
  enc_bytes : Forall isByte (written (encoder.writer e))
}.



(** The [m] low bytes of [v], least significant first. *)
Fixpoint leBytes (m : nat) (v : Z) : list Z :=
  match m with
  | O => []
  | S m' => u8 v :: leBytes m' (Z.shiftr v 8)
  end.

(** ** Round trip: one integer field *)

Definition intBits (k : reflect.Kind) : Z :=
  match k with
  | reflect.Int8 | reflect.Uint8 => 8
  | reflect.Int16 | reflect.Uint16 => 16
  | reflect.Int32 | reflect.Uint32 => 32
  | reflect.Int64 | reflect.Uint64 | reflect.Int | reflect.Uint => 64
  | _ => 0
  end.




(** ** Round trip: the structures covered *)



Section Packed.
Context (rec : Z -> data -> option Z).



End Packed.




(** ** Round trip: the walk *)






(** ** Round trip *)




(** * Further code and definitions *)

(** ** The bit-level read: widths and byte order *)

(** The number whose little-endian bytes are [bs]. *)
Fixpoint leValue (bs : list Z) : Z :=
  match bs with
  | [] => 0
  | b :: rest => b + 256 * leValue rest
  end.

(** ** Fields, slices and references on decode *)

Definition bitsTags (w : Z) : tags :=
  {| tags_endian := little; tags_bitfield := {| nbits := w; reserved := false |};
     tags_layout := {| format := none; name := EmptyString; relative := false; value := 0 |};
     tags_alignment := 0; tags_truncate := false |}.

Definition settable (d : data) : Value :=
  {| flagAddr := true; flagRO := false; val := d |}.

Definition countRef (c : Z) : tagReference :=
  {| ref_value := settable (U8 c);
     ref_tags := {| tags_endian := little;
                    tags_bitfield := {| nbits := 8; reserved := false |};
                    tags_layout := {| format := countOf; name := "Ts"; relative := false;
                                      value := c |};
                    tags_alignment := 0; tags_truncate := false |} |}.

(** ** A count and its bytes *)

Definition countedBytes (c : Z) (bs : list Z) : data :=
  DStruct [("Count", bare "countOf" "Ts", U8 c);
           ("Ts", notag, DSlice (TBasic reflect.Uint8) (map U8 bs))].

Definition countTags (c : Z) : tags := ref_tags (countRef c).

(** ** The bit-level write *)

Definition sixBitsPending : encoder.state :=
  {| encoder.writer := unbounded; encoder.currentByte := 5; encoder.byteOffset := 0;
     encoder.bitOffset := 6 |}.

Definition fullSink (bs : list Z) : ByteWriter :=
  {| written := bs; capacity := Some (length bs); overrun := SinkError 1 |}.

(** ** Byte order on encode *)

(** The bytes a big-endian field of kind [k] takes at its full width. *)
Definition wideBytes (k : reflect.Kind) : nat :=
  match k with
  | reflect.Uint16 | reflect.Int16 => 2
  | reflect.Uint32 | reflect.Int32 => 4
  | reflect.Uint64 | reflect.Int64 => 8
  | _ => 0
  end.

Definition bigTags (w : Z) : tags :=
  {| tags_endian := big; tags_bitfield := {| nbits := w; reserved := false |};
     tags_layout := {| format := none; name := EmptyString; relative := false; value := 0 |};
     tags_alignment := 0; tags_truncate := false |}.

(** ** The sizer and the static size *)

Definition sizerAt (bytes bits : Z) : sizer.state :=
  {| sizer.size_ := 0; sizer.nbits_ := bits; sizer.nbytes := bytes |}.

(** [structTypeSize] from the counters [bytes] and [bits] on: the inner loop
    of [typeSize]. *)
Definition structTypeSize (fs : list (string * StructTag * type)) (bytes bits : Z)
    : result Z :=
  (fix loop (fs : list (string * StructTag * type)) (bytes bits : Z) : result Z :=
     match fs with
     | [] => if bits =? 0 then Ok bytes else Fail (Err CannotDeductSliceLengthError)
     | (n, tg, ft) :: rest =>
         do bits' <-
           match ft with
           | TArray l _ =>
               do sz <- typeSize ft;
               Ok (u64 (bits + u64 (u64 (sz * 8) * Z.of_nat l)))
           | TSlice _ => Fail (Err CannotDeductSliceLengthError)
           | _ =>
               do tags <- parseFieldTags {| Name := n; Tag := tg; Type_ := ft |};
               Ok (u64 (bits + nbits (tags_bitfield tags)))
           end;
         loop rest (u64 (bytes + bits' / 8)) (bits' mod 8)
     end) fs bytes bits.

(** A field that is a scalar without a layout role. *)
Definition flatField (f : string * StructTag * data) : bool :=
  let '(n, tg, d) := f in
  match d with
  | DBasic k _ =>
      isBasicKind k &&
      match parseFieldTags {| Name := n; Tag := tg; Type_ := TBasic k |} with
      | Ok tags => isNone (format (tags_layout tags))
      | Fail _ => true
      end
  | _ => false
  end.

Definition fieldTypes (fs : list (string * StructTag * data))
    : list (string * StructTag * type) :=
  map (fun '(n, tg, v) => (n, tg, typeOf v)) fs.

Definition flatSample : list (string * StructTag * data) :=
  [("A", bare "bitfield" "3", U8 1); ("B", bare "bitfield" "5", U8 2);
   ("C", notag, U16 3); ("D", bare "bitfield" "16", U32 4)].

(** ** The byte buffer (buffer.go) *)

Module Buffer.
(** The errors of the buffer are [fmt.Errorf] values, errors of a source and
    of a sink that are not [io.EOF]. *)
Definition ReadBufferOverrun : error := SourceError 0.
Definition WriteBufferOverrun : error := SinkError 0.

Record t := { bytes : list Z; offset : Z }.

Definition Bytes (buf : t) : list Z := bytes buf.

(** [buf.bytes[buf.offset]], which panics out of range; [offset] starts at 0
    and only grows, so that the index is never negative. *)
Definition WriteByte (buf : t) (b : Z) : status * t :=
  if Z.of_nat (length (bytes buf)) <=? offset buf
  then (Fail (Err WriteBufferOverrun), buf)
  else (Ok tt, {| bytes := <[Z.to_nat (offset buf) := b]> (bytes buf);
                  offset := offset buf + 1 |}).

Definition ReadByte (buf : t) : result Z * t :=
  if Z.of_nat (length (bytes buf)) <=? offset buf
  then (Fail (Err ReadBufferOverrun), buf)
  else match bytes buf !! Z.to_nat (offset buf) with
       | Some b => (Ok b, {| bytes := bytes buf; offset := offset buf + 1 |})
       | None => (Fail (Panic ReflectIndexOutOfRange), buf)
       end.

Definition Reset (buf : t) : t :=
  {| bytes := repeat 0 (length (bytes buf)); offset := 0 |}.

(** [WriteByte] for each byte of [bs] in turn, up to the first error. *)
Fixpoint writeAll (buf : t) (bs : list Z) : status * t :=
  match bs with
  | [] => (Ok tt, buf)
  | b :: rest =>
      match WriteByte buf b with
      | (Ok _, buf') => writeAll buf' rest
      | (Fail f, buf') => (Fail f, buf')
      end
  end.

(** The buffer as the sink and as the source the encoder and the decoder
    see: what has been written, and what remains to be read. *)
Definition sink (buf : t) : ByteWriter :=
  {| written := take (Z.to_nat (offset buf)) (bytes buf);
     capacity := Some (length (bytes buf));
     overrun := WriteBufferOverrun |}.

Definition source (buf : t) : ByteReader :=
  {| pending := drop (Z.to_nat (offset buf)) (bytes buf);
     exhausted := ReadBufferOverrun |}.
End Buffer.

(** A buffer whose cursor stands between [pre] and [suf]. *)
Definition bufferAt (pre suf : list Z) : Buffer.t :=
  {| Buffer.bytes := pre ++ suf; Buffer.offset := Z.of_nat (length pre) |}.

(** ** Truncation of byte arrays *)

Definition truncatedBytes (xs : list data) : data :=
  DStruct [("A", bare "truncate" "", DArray (TBasic reflect.Uint8) xs)].

Definition truncateTags : tags :=
  {| tags_endian := little; tags_bitfield := {| nbits := 0; reserved := false |};
     tags_layout := {| format := none; name := EmptyString; relative := false; value := 0 |};
     tags_alignment := 0; tags_truncate := true |}.

(** ** Struct tags as text *)

(** What [StructTag.Lookup] of package reflect returns for a key: the value,
    or that the tag has no such key. [Outside] is a value that
    [strconv.Unquote] has to rewrite (it holds a backslash or a byte outside
    ASCII), which the model does not follow. *)
Inductive lookupResult :=
| Found (value : string)
| NotFound
| Outside.

(** The loop [for i < len(tag) && tag[i] == ' '] of [Lookup] *)
Fixpoint skipSpaces (tag : list ascii) : list ascii :=
  match tag with
  | c :: rest => if Ascii.eqb c " "%char then skipSpaces rest else tag
  | [] => []
  end.

(** A byte of a name: above the space, and not the colon, the double quote
    or the byte 0x7f. *)
Definition nameByte (c : ascii) : bool :=
  (32 <? nat_of_ascii c)%nat && negb (Ascii.eqb c ":"%char)
  && negb (Ascii.eqb c dquote) && negb (nat_of_ascii c =? 127)%nat.

(** The scan to the colon: the bytes of the name and what follows them. *)
Fixpoint scanName (tag : list ascii) : list ascii * list ascii :=
  match tag with
  | c :: rest =>
      if nameByte c then let '(nm, tl) := scanName rest in (c :: nm, tl)
      else ([], tag)
  | [] => ([], [])
  end.

(** The scan of the quoted string, from the byte after the opening quote:
    the bytes before the closing quote and what follows it. A backslash
    takes the next byte with it; [None] when the string is not closed. *)
Fixpoint scanQuoted (tag : list ascii) : option (list ascii * list ascii) :=
  match tag with
  | [] => None
  | c :: rest =>
      if Ascii.eqb c dquote then Some ([], rest)
      else if Ascii.eqb c "\"%char then
        match rest with
        | [] => None
        | d :: rest' =>
            match scanQuoted rest' with
            | Some (body, tl) => Some (c :: d :: body, tl)
            | None => None
            end
        end
      else
        match scanQuoted rest with
        | Some (body, tl) => Some (c :: body, tl)
        | None => None
        end
  end.

Definition newline : ascii := ascii_of_nat 10.

(** [strconv.Unquote] of the double-quoted string with the bytes [body]
    between its quotes. A newline is a syntax error, and [Lookup] then finds
    nothing; a text of ASCII bytes without a backslash is returned as it
    is. *)
Definition Unquote (body : list ascii) : lookupResult :=
  if existsb (Ascii.eqb newline) body then NotFound
  else if existsb (fun c => Ascii.eqb c "\"%char || (128 <=? nat_of_ascii c)%nat) body
  then Outside
  else Found (string_of_list_ascii body).

(** The loop of [Lookup] over what is left of the tag. Every round takes
    at least the four bytes of a name, a colon and two quotes, so that [fuel]
    above the length of the tag is never used up. *)
Fixpoint lookupLoop (fuel : nat) (tag : list ascii) (key : string) : lookupResult :=
  match fuel with
  | O => NotFound
  | S fuel' =>
      match skipSpaces tag with
      | [] => NotFound
      | tag1 =>
          match scanName tag1 with
          | (c :: nm, colon :: quote :: rest) =>
              if Ascii.eqb colon ":"%char && Ascii.eqb quote dquote then
                match scanQuoted rest with
                | None => NotFound
                | Some (body, tl) =>
                    if String.eqb key (string_of_list_ascii (c :: nm)) then Unquote body
                    else lookupLoop fuel' tl key
                end
              else NotFound
          | _ => NotFound
          end
      end
  end.

(** [StructTag.Lookup] *)
Definition Lookup (tag key : string) : lookupResult :=
  lookupLoop (S (String.length tag)) (list_ascii_of_string tag) key.

(** The tag of a field whose text in the Go source is [rawTag]: the text
    with what [Lookup] finds under the key [structex]. *)
Definition tagOfText (rawTag : string) : option StructTag :=
  match Lookup rawTag "structex" with
  | Found s => Some {| raw := rawTag; structex := Some s |}
  | NotFound => Some {| raw := rawTag; structex := None |}
  | Outside => None
  end.

(** ** Tag strings made of pairs *)

Definition bareOptions : parseOptions :=
  {| sep := " "%char; quote := dquote; assign := ":"%char |}.
Definition fullOptions : parseOptions :=
  {| sep := ","%char; quote := squote; assign := "="%char |}.

(** A rune that can stand in a key: not one of the runes the parser acts on. *)
Definition keyRune (opts : parseOptions) (r : ascii) : bool :=
  negb (Ascii.eqb r (assign opts)) && negb (Ascii.eqb r (quote opts))
  && negb (Ascii.eqb r (sep opts)) && negb (Ascii.eqb r ","%char).

(** A rune that can stand in a value: the quote ends the value, and the
    assignment rune is dropped. *)
Definition valueRune (opts : parseOptions) (r : ascii) : bool :=
  negb (Ascii.eqb r (assign opts)) && negb (Ascii.eqb r (quote opts)).

Definition wellFormedPair (opts : parseOptions) (p : string * string) : bool :=
  forallb (keyRune opts) (list_ascii_of_string (fst p))
  && forallb (valueRune opts) (list_ascii_of_string (snd p)).

(** [key<assign><quote>value<quote>] *)
Definition renderPair (opts : parseOptions) (p : string * string) : list ascii :=
  list_ascii_of_string (fst p) ++ [assign opts; quote opts]
  ++ list_ascii_of_string (snd p) ++ [quote opts].

(** The pairs with one separator between them. *)
Fixpoint renderPairs (opts : parseOptions) (ps : list (string * string)) : list ascii :=
  match ps with
  | [] => []
  | p :: rest =>
      renderPair opts p
      ++ match rest with [] => [] | _ => sep opts :: renderPairs opts rest end
  end.

(** [tags.add] for each pair in turn. *)
Fixpoint addAll (sf : StructField) (t : tags) (ps : list (string * string)) : result tags :=
  match ps with
  | [] => Ok t
  | (k, v) :: rest => do t' <- add t sf k v; addAll sf t' rest
  end.

Definition isKeyword (k : string) : bool :=
  existsb (String.eqb (strings.ToLower k))
    ["little"; "big"; "bitfield"; "sizeof"; "countof"; "truncate"; "align"]%string.

(** The runes the parser acts on are distinct. *)
Definition optionsOk (opts : parseOptions) : bool :=
  negb (Ascii.eqb (quote opts) (assign opts))
  && negb (Ascii.eqb (sep opts) (assign opts))
  && negb (Ascii.eqb (sep opts) (quote opts)).

Definition untagged (n : string) (ty : type) : StructField :=
  {| Name := n; Tag := notag; Type_ := ty |}.

Definition text (runes : list ascii) : string := string_of_list_ascii runes.

(** A pair as another package writes it in a tag: a name that [Lookup] reads
    as a name and that the parser of the tags reads as a key, and a value
    without a double quote, a backslash or a colon. *)
Definition plainPair (p : string * string) : bool :=
  negb (String.eqb (fst p) EmptyString)
  && forallb (fun c => nameByte c && keyRune bareOptions c) (list_ascii_of_string (fst p))
  && forallb (fun c => valueRune bareOptions c && negb (Ascii.eqb c "\"%char))
       (list_ascii_of_string (snd p)).

Definition sizeTagText : string :=
  text (renderPairs bareOptions [("bitfield", "4,reserved"); ("sizeOf", "Ts,relative")]%string).

Definition fullTagText : string :=
  ("structex:" ++ quoted (text (renderPairs fullOptions [("bitfield", "3"); ("big", "")])))%string.

(** ** The size and the bytes written *)

(** The width the tags give a field (that of its kind, or the one of its
    [bitfield] tag), and the sum of the widths of the fields. *)
Definition fieldBits (f : string * StructTag * data) : Z :=
  let '(n, tg, d) := f in
  match parseFieldTags {| Name := n; Tag := tg; Type_ := typeOf d |} with
  | Ok tags => nbits (tags_bitfield tags)
  | Fail _ => 0
  end.

Definition flatBits (fs : list (string * StructTag * data)) : Z :=
  fold_right (fun f acc => fieldBits f + acc) 0 fs.

(** Two encoders after the same calls, the first on a sink of [c] bytes and
    the second on a sink without a limit: the first sink holds the first
    [c] bytes of the second. The byte offsets differ once the first sink is
    full. *)
Record sameWrites (c : nat) (ec eu : encoder.state) : Prop := {
  sw_capacity : capacity (encoder.writer ec) = Some c;
  sw_unbounded : capacity (encoder.writer eu) = None;
  sw_written : written (encoder.writer ec) = take c (written (encoder.writer eu));
  sw_current : encoder.currentByte ec = encoder.currentByte eu;
  sw_bits : encoder.bitOffset ec = encoder.bitOffset eu
}.

(** The tags of the field parse. *)
Definition parses (f : string * StructTag * data) : bool :=
  let '(n, tg, d) := f in
  match parseFieldTags {| Name := n; Tag := tg; Type_ := typeOf d |} with
  | Ok _ => true
  | Fail _ => false
  end.

Definition threeFields : list (string * StructTag * data) :=
  [("A", bare "bitfield" "3", U8 1); ("B", bare "bitfield" "5", U8 2); ("C", notag, U16 3)].

(** ** Encoding into a new buffer *)

(** What [NewBuffer] and [EncodeByteBuffer] do: they return, or
    [EncodeByteBuffer] returns its own error, or [make] panics, or the walk
    of [Size] or of [Encode] fails. *)
Inductive outcome (A : Type) :=
| Returns (a : A)
| CouldNotAllocateByteBuffer
| MakeSliceLenOutOfRange
| Fails (f : failure).
Arguments Returns {A} a.
Arguments CouldNotAllocateByteBuffer {A}.
Arguments MakeSliceLenOutOfRange {A}.
Arguments Fails {A} f.

(** [NewBuffer]; the argument [None] is the nil interface and the result
    [None] the nil pointer. A panic of [Size] is not an error, and leaves
    [NewBuffer]; [make([]byte, size)] panics when the runtime refuses the
    length, more than [maxAlloc] bytes. *)
Definition NewBuffer (fuel : nat) (s : option data) : outcome (option Buffer.t) :=
  match s with
  | None => Returns (Some {| Buffer.bytes := []; Buffer.offset := 0 |})
  | Some d =>
      match size fuel (ValueOf d) with
      | Ok n =>
          if maxAlloc <? n then MakeSliceLenOutOfRange
          else Returns (Some {| Buffer.bytes := repeat 0 (Z.to_nat n);
                                Buffer.offset := 0 |})
      | Fail (Err _) => Returns None
      | Fail f => Fails f
      end
  end.

(** The buffer [buf] after the writes that took its sink to [w]: the bytes
    written, then the bytes of [buf] that were not overwritten. *)
Definition bufferOf (buf : Buffer.t) (w : ByteWriter) : Buffer.t :=
  {| Buffer.bytes := written w ++ drop (length (written w)) (Buffer.bytes buf);
     Buffer.offset := Z.of_nat (length (written w)) |}.

(** [EncodeByteBuffer] on a value [s] that is not the nil interface. *)
Definition EncodeByteBuffer (fuel : nat) (s : data) : outcome (list Z) :=
  match NewBuffer fuel (Some s) with
  | Returns None => CouldNotAllocateByteBuffer
  | Returns (Some buf) =>
      match encoder.Encode fuel (Buffer.sink buf) s with
      | (Ok _, w) => Returns (Buffer.Bytes (bufferOf buf w))
      | (Fail f, _) => Fails f
      end
  | CouldNotAllocateByteBuffer => CouldNotAllocateByteBuffer
  | MakeSliceLenOutOfRange => MakeSliceLenOutOfRange
  | Fails f => Fails f
  end.

(** * Properties *)

(** ** The bit-level read *)

Lemma u64_small (z : Z) : 0 <= z < 2 ^ 64 -> u64 z = z.
Proof. intros Hz. unfold u64. apply Z.mod_small. exact Hz. Qed.

Lemma land_mask (a n : Z) : 0 <= n -> Z.land a (2 ^ n - 1) = a mod 2 ^ n.
Proof.
  intros Hn. rewrite <- Z.land_ones by exact Hn.
  rewrite Z.ones_equiv. reflexivity.
Qed.

Lemma read_subbyte_insufficient (n : Z) (d : decoder.state) :
  1 <= n < 8 -> 0 <= decoder.bitOffset d < 8 -> 8 - decoder.bitOffset d < n ->
  decoder.read n d = (Fail (Err InsufficientBitCount), d).
Proof.
  intros Hn Hk Hlt. unfold decoder.read.
  destruct (Z.eqb_spec n 0) as [->|_]; [lia|].
  destruct (Z.ltb_spec n 8) as [_|?]; [|lia].
  destruct (Z.eqb_spec (decoder.bitOffset d) 0) as [E|_]; [lia|].
  rewrite u64_small by lia.
  destruct (Z.ltb_spec (8 - decoder.bitOffset d) n) as [_|?]; [reflexivity|lia].
Qed.

Lemma read_subbyte_success (n : Z) (d d' : decoder.state) (v : Z) :
  1 <= n < 8 -> 0 <= decoder.bitOffset d < 8 ->
  decoder.read n d = (Ok v, d') ->
  (decoder.bitOffset d + n <= 8) /\
  (decoder.bitOffset d' = (decoder.bitOffset d + n) mod 8) /\
  (v = (Z.shiftr (decoder.currentByte d') (decoder.bitOffset d)) mod 2 ^ n) /\
  (decoder.bitOffset d <> 0 ->
     decoder.reader d' = decoder.reader d /\
     decoder.currentByte d' = decoder.currentByte d) /\
  (decoder.bitOffset d = 0 ->
     pending (decoder.reader d) = decoder.currentByte d' :: pending (decoder.reader d')).
Proof.
  intros Hn Hk. unfold decoder.read.
  destruct (Z.eqb_spec n 0) as [->|_]; [lia|].
  destruct (Z.ltb_spec n 8) as [_|?]; [|lia].
  destruct (Z.eqb_spec (decoder.bitOffset d) 0) as [E|NE].
  - unfold ReadByte. destruct (pending (decoder.reader d)) as [|b rest] eqn:Hp;
      cbn [decoder.bitOffset decoder.currentByte decoder.reader];
      [discriminate|].
    rewrite E. rewrite !u64_small by lia.
    destruct (Z.ltb_spec (8 - 0) n) as [?|_]; [lia|].
    intros [= <- <-]. cbn [decoder.bitOffset decoder.currentByte decoder.reader pending].
    destruct (Z.leb_spec 8 (0 + n)) as [?|_]; [lia|].
    rewrite land_mask by lia.
    repeat split; try lia.
    rewrite Z.mod_small; lia.
  - rewrite !u64_small by lia.
    destruct (Z.ltb_spec (8 - decoder.bitOffset d) n) as [?|Hfit]; [discriminate|].
    intros [= <- <-]. cbn [decoder.bitOffset decoder.currentByte decoder.reader].
    rewrite land_mask by lia.
    repeat split; try lia.
    destruct (Z.leb_spec 8 (decoder.bitOffset d + n)) as [Hge|Hlt].
    + assert (decoder.bitOffset d + n = 8) as -> by lia. reflexivity.
    + rewrite Z.mod_small; lia.
Qed.

Lemma readBytes_offset (n : nat) (i v : Z) (d : decoder.state) :
  decoder.bitOffset (snd (decoder.readBytes n i v d)) = decoder.bitOffset d.
Proof.
  revert i v d. induction n as [|n IH]; intros i v d; [reflexivity|].
  cbn [decoder.readBytes]. destruct (ReadByte (decoder.reader d)) as [[b|f] r].
  - rewrite IH. reflexivity.
  - reflexivity.
Qed.

(** The bit offset of the decoder stays below 8: it is 0 at the start. *)
Lemma read_keeps_offset (n : Z) (d : decoder.state) :
  0 <= n -> 0 <= decoder.bitOffset d < 8 ->
  0 <= decoder.bitOffset (snd (decoder.read n d)) < 8.
Proof.
  intros Hn Hk. unfold decoder.read.
  destruct (n =? 0); [exact Hk|].
  destruct (Z.ltb_spec n 8) as [Hlt|Hge].
  - destruct (decoder.bitOffset d =? 0) eqn:E.
    + destruct (ReadByte (decoder.reader d)) as [[b|f] r]; cbn; [|exact Hk].
      destruct (u64 (8 - decoder.bitOffset d) <? n); cbn; [exact Hk|].
      destruct (Z.leb_spec 8 (u64 (decoder.bitOffset d + n))); [lia|].
      unfold u64 in *. pose proof (Z.mod_pos_bound (decoder.bitOffset d + n) (2 ^ 64)). lia.
    + destruct (u64 (8 - decoder.bitOffset d) <? n); cbn; [exact Hk|].
      destruct (Z.leb_spec 8 (u64 (decoder.bitOffset d + n))); [lia|].
      unfold u64 in *. pose proof (Z.mod_pos_bound (decoder.bitOffset d + n) (2 ^ 64)). lia.
  - destruct (negb (n mod 8 =? 0)); [exact Hk|].
    rewrite readBytes_offset. exact Hk.
Qed.

(** C4: a sub-byte read of [n] bits ([1 <= n < 8]) that asks for more bits
    than remain in the current byte fails with the insufficient-bits error
    and leaves the cursor and the source as they were; a sub-byte read that
    succeeds takes all its bits from one byte, the current one when bits of
    it remain (the source is then not read), a fresh one otherwise. *)
Theorem C4_sub_byte_read_stays_in_one_byte (n : Z) (d : decoder.state) :
  1 <= n < 8 -> 0 <= decoder.bitOffset d < 8 ->
  (8 - decoder.bitOffset d < n ->
     decoder.read n d = (Fail (Err InsufficientBitCount), d)) /\
  (forall v d', decoder.read n d = (Ok v, d') ->
     (decoder.bitOffset d + n <= 8) /\
     (decoder.bitOffset d' = (decoder.bitOffset d + n) mod 8) /\
     (v = (Z.shiftr (decoder.currentByte d') (decoder.bitOffset d)) mod 2 ^ n) /\
     (decoder.bitOffset d <> 0 ->
        decoder.reader d' = decoder.reader d /\
        decoder.currentByte d' = decoder.currentByte d) /\
     (decoder.bitOffset d = 0 ->
        pending (decoder.reader d)
        = decoder.currentByte d' :: pending (decoder.reader d'))).
Proof.
  intros Hn Hk. split.
  - intros Hlt. apply read_subbyte_insufficient; assumption.
  - intros v d' Hr. eapply read_subbyte_success; eassumption.
Qed.

Lemma C4_witness :
  decoder.read 3 midByte = (Fail (Err InsufficientBitCount), midByte) /\
  (forall v d', decoder.read 2 midByte = (Ok v, d') ->
     v = 3 /\ decoder.reader d' = bytesBuffer [31]).
Proof.
  split.
  - apply (C4_sub_byte_read_stays_in_one_byte 3 midByte); cbn; lia.
  - intros v d' Hr.
    destruct (C4_sub_byte_read_stays_in_one_byte 2 midByte) as [_ Hs]; [cbn; lia ..|].
    destruct (Hs v d' Hr) as (_ & _ & Hv & Hsame & _).
    destruct Hsame as [Hrd Hcur]; [cbn; lia|].
    split; [|exact Hrd].
    rewrite Hv, Hcur. reflexivity.
Defined.

(** ** A field that cannot be set *)

Lemma readValue_cannot_set (v : Value) (tags : option tags) (d : decoder.state) :
  CanSet v = false ->
  decoder.readValue v tags d = (Fail (Err (FieldCannotBeSet (VKind v))), val v, d).
Proof.
  intros Hc. unfold decoder.readValue. rewrite Hc. reflexivity.
Qed.

Lemma with_handler_same {H} (t : transcoder H) : with_handler t (handler t) = t.
Proof. destruct t. reflexivity. Qed.

Lemma transcodeField_cannot_set (rec : walk decoder.state) (v : Value) (n : string)
    (k : reflect.Kind) (x : Z) (tags : tags) (t : transcoder decoder.state) :
  CanSet (FieldOf v n (DBasic k x)) = false ->
  isBasicKind k = true ->
  (format (tags_layout tags) = none \/
   exists found, fieldByName t (name (tags_layout tags)) = Some found /\
                 isSequenceKind (VKind found) = true) ->
  transcodeField decoder.Handler rec v n (DBasic k x) tags t
  = (Fail (Err (FieldCannotBeSet k)), DBasic k x, t).
Proof.
  intros Hc Hk Hl. unfold transcodeField.
  assert (Hfield : forall o,
    (let '(st, d', hs) := h_field decoder.Handler (FieldOf v n (DBasic k x)) o (handler t) in
     (st, d', with_handler t hs))
    = (Fail (Err (FieldCannotBeSet k)), DBasic k x, t)).
  { intros o. cbn [h_field decoder.Handler]. unfold decoder.field.
    rewrite readValue_cannot_set by exact Hc. cbn. rewrite with_handler_same. reflexivity. }
  destruct Hl as [Hnone | (found & Hf & Hs)].
  - rewrite Hnone. cbn [isNone negb].
    destruct k; try discriminate Hk; cbn [typeOf Kind]; apply Hfield.
  - destruct (isNone (format (tags_layout tags))) eqn:Hn; cbn [negb].
    + destruct k; try discriminate Hk; cbn [typeOf Kind]; apply Hfield.
    + assert (Hlay :
        match fieldByName t (name (tags_layout tags)) with
        | None => (Fail (Err (CannotLocateFieldName (name (tags_layout tags)))), DBasic k x, t)
        | Some found =>
            if negb (isSequenceKind (VKind found)) then
              (Fail (Err (ReferencedLayoutNotSequence (VKind found))), DBasic k x, t)
            else
              let '(st, ref, hs) :=
                h_layout decoder.Handler found
                  {| ref_value := FieldOf v n (DBasic k x); ref_tags := tags |}
                  (handler t) in
              match st with
              | Ok _ => (Ok tt, val (ref_value ref),
                         with_ref t (name (tags_layout tags)) ref hs)
              | Fail f => (Fail f, val (ref_value ref), with_handler t hs)
              end
        end = (Fail (Err (FieldCannotBeSet k)), DBasic k x, t)).
      { rewrite Hf, Hs. cbn [negb h_layout decoder.Handler]. unfold decoder.layout.
        cbn [ref_value ref_tags]. rewrite readValue_cannot_set by exact Hc.
        cbn. rewrite with_handler_same. reflexivity. }
      destruct k; try discriminate Hk; cbn [typeOf Kind]; apply Hlay.
Qed.

Lemma transcodeFields_app {H} (h : Handler H) (rec : walk H) (v : Value)
    (pre post : list (string * StructTag * data)) (t : transcoder H) :
  transcodeFields h rec v (pre ++ post) t
  = match transcodeFields h rec v pre t with
    | (Ok _, pre', t') =>
        let '(st, post', t'') := transcodeFields h rec v post t' in
        (st, pre' ++ post', t'')
    | (Fail f, pre', t') => (Fail f, pre' ++ post, t')
    end.
Proof.
  revert t. induction pre as [|[[n tg] d] pre IH]; intros t.
  - cbn. destruct (transcodeFields h rec v post t) as [[st post'] t'']. reflexivity.
  - cbn [app transcodeFields].
    destruct (parseFieldTags _) as [tags|f]; [|reflexivity].
    destruct (transcodeField h rec v n d tags t) as [[st d'] t'].
    destruct st as [[]|f]; [|reflexivity].
    rewrite IH.
    destruct (transcodeFields h rec v pre t') as [[st1 pre'] t1].
    destruct st1 as [[]|f].
    + destruct (transcodeFields h rec v post t1) as [[st2 post'] t2]. reflexivity.
    + reflexivity.
Qed.

(** C10: when the walk of [Decode] reaches a scalar field that cannot be
    set (here: a field of the structure whose name is not exported), it
    does not skip it: [Decode] returns the error saying that the field
    cannot be set, the fields before it are decoded, the field and all the
    fields after it are left as they were, and nothing more is read from
    the source. *)
Theorem C10_unexported_field_aborts_decode
    (fuel : nat) (rd : ByteReader)
    (pre post pre' : list (string * StructTag * data))
    (n : string) (tg : StructTag) (k : reflect.Kind) (x : Z) (tags : tags)
    (t' : transcoder decoder.state) :
  let s := DStruct (pre ++ (n, tg, DBasic k x) :: post) in
  let v := {| flagAddr := true; flagRO := false; val := s |} in
  IsExported n = false ->
  isBasicKind k = true ->
  parseFieldTags {| Name := n; Tag := tg; Type_ := TBasic k |} = Ok tags ->
  (format (tags_layout tags) = none \/
   exists found, fieldByName t' (name (tags_layout tags)) = Some found /\
                 isSequenceKind (VKind found) = true) ->
  transcodeFields decoder.Handler (transcode decoder.Handler fuel) v pre
    (with_backtrace (decoderStart rd) (push (backtrace (decoderStart rd)) v))
  = (Ok tt, pre', t') ->
  decoder.Decode (S (S fuel)) rd (ptr s)
  = (Fail (Err (FieldCannotBeSet k)),
     DPtr (typeOf s) (Some (DStruct (pre' ++ (n, tg, DBasic k x) :: post))),
     decoder.reader (handler t')).
Proof.
  intros s v Hexp Hk Htags Hlay Hpre.
  unfold decoder.Decode, ptr.
  change (newTranscoder _) with (decoderStart rd).
  subst s. cbn [transcode ValueOf val flagRO].
  fold v.
  change (pre ++ (n, tg, DBasic k x) :: post)
    with (pre ++ [(n, tg, DBasic k x)] ++ post) at 2.
  rewrite transcodeFields_app, Hpre.
  cbn [app transcodeFields typeOf].
  rewrite Htags.
  rewrite transcodeField_cannot_set; [reflexivity| |exact Hk|exact Hlay].
  unfold CanSet, FieldOf, v. cbn. rewrite Hexp. reflexivity.
Qed.

Lemma C10_witness :
  exists s' r',
    decoder.Decode 2 (bytesBuffer [165; 0; 5]) (ptr SCSI_Standard_Inquiry)
    = (Fail (Err (FieldCannotBeSet reflect.Uint8)), s', r')
    /\ r' = bytesBuffer [0; 5].
Proof.
  eexists. eexists. split.
  - eapply (C10_unexported_field_aborts_decode 0 (bytesBuffer [165; 0; 5])
             [("PeripheralDeviceType", bare "bitfield" "5", U8 0);
              ("PeripheralQualifier", bare "bitfield" "3", U8 0)]
             [("LU_Cong", bare "bitfield" "1", U8 0);
              ("RMB", bare "bitfield" "1", U8 0);
              ("Version", notag, U8 0)]
             [("PeripheralDeviceType", bare "bitfield" "5", U8 5);
              ("PeripheralQualifier", bare "bitfield" "3", U8 5)]
             "reserved0" (bare "bitfield" "6,reserved") reflect.Uint8 0).
    + reflexivity.
    + reflexivity.
    + vm_compute. reflexivity.
    + left. reflexivity.
    + vm_compute. reflexivity.
  - reflexivity.
Defined.

(** ** Reserved fields on encode *)

(** [encoder.field] never looks at the reserved flag. *)
Lemma field_ignores_reserved (v : Value) (tg : tags) (b : bool) (e : encoder.state) :
  encoder.field v (Some (set_reserved tg b)) e = encoder.field v (Some tg) e.
Proof. reflexivity. Qed.

(** C2 (the code differs): the field [reserved0] of the README's structure
    is tagged [bitfield:"6,reserved"], its descriptor has the reserved flag,
    and [Encode] writes its six bits as they are in memory: the second byte
    of the output is [0x3F], not zero. *)
Theorem C2_reserved_field_written_as_stored :
  (exists tg, parseFieldTags (sfield "reserved0" (bare "bitfield" "6,reserved") reflect.Uint8)
              = Ok tg /\ reserved (tags_bitfield tg) = true /\ nbits (tags_bitfield tg) = 6) /\
  encoder.Encode 2 unbounded inquiryReservedSet
  = (Ok tt, {| written := [0; 63; 0]; capacity := None; overrun := SinkError 0 |}).
Proof.
  split.
  - eexists. split; [vm_compute; reflexivity|]. split; reflexivity.
  - vm_compute. reflexivity.
Qed.

(** ** Overflow on write *)

(** The write of the encoder returns no error for any [uint64]. *)
Lemma write_returns_nil (v nbits : Z) (e : encoder.state) :
  v < 2 ^ 64 -> fst (encoder.write v nbits e) = Ok tt.
Proof.
  intros Hv. unfold encoder.write.
  destruct (Z.ltb_spec (2 ^ 64 - 1) v) as [?|_]; [lia|].
  rewrite andb_false_r.
  destruct (negb (encoder.bitOffset e =? 0)); [|reflexivity].
  match goal with |- context [if ?c then _ else _] => destruct c end; reflexivity.
Qed.

(** The write of encoder.go reports a value that does not fit, for widths
    from 2 to 63 bits. *)
Lemma write_go_reports_overflow (v nbits : Z) (e : encoder.state) :
  2 <= nbits < 64 -> 2 ^ nbits <= v ->
  encoder_go.write v nbits e = (Fail (Err (ValueWillOverflowBitfield v nbits)), e).
Proof.
  intros Hn Hv. unfold encoder_go.write, encoder_go.pow2.
  destruct (Z.ltb_spec 1 nbits) as [_|?]; [|lia].
  destruct (Z.ltb_spec nbits 64) as [_|?]; [|lia].
  assert (0 < 2 ^ nbits < 2 ^ 64).
  { split; [apply Z.pow_pos_nonneg; lia|apply Z.pow_lt_mono_r; lia]. }
  rewrite u64_small by lia.
  destruct (Z.ltb_spec (2 ^ nbits - 1) v) as [_|?]; [reflexivity|lia].
Qed.

(** C3 (the code differs): the write of the encoder takes the value [255]
    for a field of 4 bits and returns no error; the bits that do not fit
    spill into the bits of the next field, so that the structure with
    [A = 255] and [B = 0], two fields of 4 bits, encodes without error to the
    byte [0xFF]. The write of encoder.go refuses that value, but takes the
    value [2] for a field of 1 bit. *)
Theorem C3_overflowing_value_is_written :
  fst (encoder.write 255 4 (encoderStart unbounded)) = Ok tt /\
  encoder.Encode 2 unbounded (nibbles 255 0)
  = (Ok tt, {| written := [255]; capacity := None; overrun := SinkError 0 |}) /\
  encoder_go.write 255 4 (encoderStart unbounded)
  = (Fail (Err (ValueWillOverflowBitfield 255 4)), encoderStart unbounded) /\
  fst (encoder_go.write 2 1 (encoderStart unbounded)) = Ok tt.
Proof.
  split; [reflexivity|]. split; [vm_compute; reflexivity|].
  split; [reflexivity|]. reflexivity.
Qed.

(** ** Truncation *)

Lemma arrayLoop_scalar_truncates (rec : walk decoder.state) (arr : Value) (tags : tags)
    (x x' : data) (rest : list data) (t : transcoder decoder.state) (d' : decoder.state) :
  decoder.readValue (IndexOf arr x) None (handler t) = (Fail (Err io_EOF), x', d') ->
  tags_truncate tags = true ->
  decoder.arrayLoop rec arr false tags (x :: rest) t
  = (Ok tt, x' :: rest, with_handler t d').
Proof.
  intros Hr Ht. cbn [decoder.arrayLoop]. rewrite Hr, Ht. reflexivity.
Qed.

Lemma sliceLoop_truncates (rec : walk decoder.state) (arr : Value) (tags : tags)
    (x x' : data) (rest : list data) (t t' : transcoder decoder.state) :
  rec (IndexOf arr x) t = (Fail (Err io_EOF), x', t') ->
  tags_truncate tags = true ->
  decoder.sliceLoop rec arr tags (x :: rest) t = (Ok tt, x' :: rest, t').
Proof.
  intros Hr Ht. cbn [decoder.sliceLoop]. rewrite Hr, Ht. reflexivity.
Qed.

(** An array of structs returns the error of an element whatever the tags
    say. *)
Lemma arrayLoop_struct_propagates (rec : walk decoder.state) (arr : Value) (tags : tags)
    (x x' : data) (rest : list data) (t t' : transcoder decoder.state) (f : failure) :
  rec (IndexOf arr x) t = (Fail f, x', t') ->
  decoder.arrayLoop rec arr true tags (x :: rest) t = (Fail f, x' :: rest, t').
Proof.
  intros Hr. cbn [decoder.arrayLoop]. rewrite Hr. reflexivity.
Qed.

Lemma arrayLoop_scalar_propagates (rec : walk decoder.state) (arr : Value) (tags : tags)
    (x x' : data) (rest : list data) (t : transcoder decoder.state) (d' : decoder.state)
    (f : failure) :
  decoder.readValue (IndexOf arr x) None (handler t) = (Fail f, x', d') ->
  decoder.isEOF f && tags_truncate tags = false ->
  decoder.arrayLoop rec arr false tags (x :: rest) t
  = (Fail f, x' :: rest, with_handler t d').
Proof.
  intros Hr Ht. cbn [decoder.arrayLoop]. rewrite Hr, Ht. reflexivity.
Qed.

Lemma sliceLoop_propagates (rec : walk decoder.state) (arr : Value) (tags : tags)
    (x x' : data) (rest : list data) (t t' : transcoder decoder.state) (f : failure) :
  rec (IndexOf arr x) t = (Fail f, x', t') ->
  decoder.isEOF f && tags_truncate tags = false ->
  decoder.sliceLoop rec arr tags (x :: rest) t = (Fail f, x' :: rest, t').
Proof.
  intros Hr Ht. cbn [decoder.sliceLoop]. rewrite Hr, Ht. reflexivity.
Qed.

Lemma truncate_byte_array_succeeds :
  decoder.Decode 2 (bytesBuffer [7]) (ptr truncated1024)
  = (Ok tt,
     ptr (DStruct [("A", bare "truncate" "",
                    DArray (TBasic reflect.Uint8) (U8 7 :: repeat (U8 0) 1023))]),
     bytesBuffer []).
Proof. vm_compute. reflexivity. Qed.

(** C5 (the code differs): an array of structs tagged [truncate] does not
    stop at the end of the data: decoding two pairs of bytes from a source of
    three bytes returns [io.EOF], although the array is tagged [truncate].
    The slice of the same structs, with the same tag and the same data,
    succeeds with the elements obtained so far. *)
Theorem C5_array_of_structs_ignores_truncate :
  (exists tg, parseFieldTags {| Name := "A"; Tag := bare "truncate" "";
                                Type_ := TArray 2 (typeOf (pair8 0 0)) |} = Ok tg
              /\ tags_truncate tg = true) /\
  decoder.Decode 4 (bytesBuffer [1; 2; 3]) (ptr truncatedPairs)
  = (Fail (Err io_EOF),
     ptr (DStruct [("A", bare "truncate" "",
                    DArray (typeOf (pair8 0 0)) [pair8 1 2; pair8 3 0])]),
     bytesBuffer []) /\
  decoder.Decode 4 (bytesBuffer [2; 1; 2; 3]) (ptr truncatedPairSlice)
  = (Ok tt,
     DPtr (typeOf truncatedPairSlice)
       (Some (DStruct [("N", bare "countOf" "A", U8 2);
                       ("A", bare "truncate" "",
                        DSlice (typeOf (pair8 0 0)) [pair8 1 2; pair8 3 0])])),
     bytesBuffer []).
Proof.
  split; [eexists; split; [vm_compute; reflexivity|reflexivity]|].
  split; vm_compute; reflexivity.
Qed.

(** ** Alignment *)

Lemma appended_nil (w : ByteWriter) : appended w [] = w.
Proof. destruct w. unfold appended. cbn. rewrite app_nil_r. reflexivity. Qed.

Lemma appended_app (w : ByteWriter) (a b : list Z) :
  appended (appended w a) b = appended w (a ++ b).
Proof. unfold appended. cbn. rewrite app_assoc. reflexivity. Qed.

Lemma WriteByte_unbounded (w : ByteWriter) (b : Z) :
  capacity w = None -> WriteByte w b = (Ok tt, appended w [b]).
Proof.
  intros Hc. unfold WriteByte, appended.
  destruct (capacity w); [discriminate|reflexivity].
Qed.

Lemma writeByte_unbounded (b : Z) (e : encoder.state) :
  capacity (encoder.writer e) = None ->
  encoder.writeByte b e
  = (Ok tt, {| encoder.writer := appended (encoder.writer e) [b];
               encoder.currentByte := encoder.currentByte e;
               encoder.byteOffset := u64 (encoder.byteOffset e + 1);
               encoder.bitOffset := encoder.bitOffset e |}).
Proof.
  intros Hc. unfold encoder.writeByte. rewrite WriteByte_unbounded by exact Hc.
  reflexivity.
Qed.

(** One byte of padding. *)
Lemma write_zero_byte (e : encoder.state) :
  encoder.bitOffset e = 0 -> capacity (encoder.writer e) = None ->
  encoder.write 0 8 e
  = (Ok tt, {| encoder.writer := appended (encoder.writer e) [0];
               encoder.currentByte := 0;
               encoder.byteOffset := u64 (encoder.byteOffset e + 1);
               encoder.bitOffset := 0 |}).
Proof.
  intros Hk Hc. unfold encoder.write. rewrite Hk.
  cbn [Z.ltb Z.compare andb Z.eqb negb].
  change (Z.to_nat (8 / 8)) with 1%nat.
  cbn [encoder.writeLoop Z.eqb Z.ltb Z.compare].
  rewrite writeByte_unbounded by exact Hc.
  cbn. rewrite Hk. reflexivity.
Qed.

(** The flush of a pending byte: [write(0, 8 - bitOffset)]. *)
Lemma write_flush (e : encoder.state) :
  0 < encoder.bitOffset e < 8 -> capacity (encoder.writer e) = None ->
  encoder.write 0 (8 - encoder.bitOffset e) e
  = (Ok tt, {| encoder.writer := appended (encoder.writer e) [encoder.currentByte e];
               encoder.currentByte := 0;
               encoder.byteOffset := u64 (encoder.byteOffset e + 1);
               encoder.bitOffset := 0 |}).
Proof.
  intros Hk Hc. unfold encoder.write.
  destruct (Z.ltb_spec (2 ^ 64 - 1) 0) as [?|_]; [lia|]. rewrite andb_false_r.
  destruct (Z.eqb_spec (encoder.bitOffset e) 0) as [?|_]; [lia|]. cbn [negb].
  cbn [encoder.set_current encoder.bitOffset encoder.currentByte].
  rewrite Z.shiftl_0_l. change (u8 (u64 0)) with 0. rewrite Z.lor_0_r.
  rewrite u64_small by lia.
  destruct (Z.ltb_spec (8 - encoder.bitOffset e) (8 - encoder.bitOffset e)) as [?|_]; [lia|].
  rewrite Z.sub_diag. rewrite Z.shiftr_0_l.
  change (Z.to_nat (0 / 8)) with 0%nat.
  cbn [encoder.writeLoop Z.eqb].
  rewrite writeByte_unbounded by exact Hc.
  reflexivity.
Qed.

Lemma alignLoop_pads (m fuel : nat) (boundary : Z) (e : encoder.state) :
  0 < boundary ->
  encoder.bitOffset e = 0 -> capacity (encoder.writer e) = None ->
  0 <= encoder.byteOffset e -> encoder.byteOffset e + Z.of_nat m < 2 ^ 64 ->
  (forall j, (j < m)%nat -> (encoder.byteOffset e + Z.of_nat j) mod boundary <> 0) ->
  (encoder.byteOffset e + Z.of_nat m) mod boundary = 0 ->
  (m <= fuel)%nat ->
  exists e',
    encoder.alignLoop fuel boundary e = (Ok tt, e') /\
    encoder.writer e' = appended (encoder.writer e) (repeat 0 m) /\
    encoder.byteOffset e' = encoder.byteOffset e + Z.of_nat m /\
    encoder.bitOffset e' = 0.
Proof.
  revert fuel e. induction m as [|m IH]; intros fuel e Hb Hk Hc Hlo Hhi Hbefore Hat Hfuel.
  - exists e. rewrite Z.add_0_r in Hat.
    assert (encoder.alignLoop fuel boundary e = (Ok tt, e)) as ->.
    { destruct fuel; cbn [encoder.alignLoop]; rewrite Hat; reflexivity. }
    cbn [repeat]. rewrite appended_nil. repeat split; [lia|exact Hk].
  - destruct fuel as [|fuel]; [lia|].
    cbn [encoder.alignLoop].
    pose proof (Hbefore 0%nat ltac:(lia)) as H0. rewrite Z.add_0_r in H0.
    destruct (Z.eqb_spec (encoder.byteOffset e mod boundary) 0) as [?|_]; [contradiction|].
    rewrite write_zero_byte by assumption.
    rewrite u64_small by lia.
    edestruct (IH fuel) as (e' & Hrun & Hw & Hoff & Hbit);
      [exact Hb| | | | | | | |].
    8: { exists e'. split; [exact Hrun|].
         rewrite Hw, Hoff. cbn [encoder.writer encoder.byteOffset].
         rewrite appended_app. cbn [repeat app]. repeat split; [lia|exact Hbit]. }
    all: cbn [encoder.bitOffset encoder.writer encoder.byteOffset appended capacity].
    + reflexivity.
    + exact Hc.
    + lia.
    + lia.
    + intros j Hj. specialize (Hbefore (S j) ltac:(lia)).
      replace (encoder.byteOffset e + 1 + Z.of_nat j)
        with (encoder.byteOffset e + Z.of_nat (S j)) by lia. exact Hbefore.
    + replace (encoder.byteOffset e + 1 + Z.of_nat m)
        with (encoder.byteOffset e + Z.of_nat (S m)) by lia. exact Hat.
    + lia.
Qed.

Lemma first_multiple (start boundary : Z) (j : Z) :
  0 < boundary -> 0 <= j < (- start) mod boundary -> (start + j) mod boundary <> 0.
Proof.
  intros Hb Hj Hz.
  apply Z.mod_divide in Hz; [|lia]. destruct Hz as [q Hq].
  assert ((- start) mod boundary = j) as E.
  { replace (- start) with (j + (- q) * boundary) by lia.
    rewrite Z.mod_add by lia. apply Z.mod_small.
    pose proof (Z.mod_pos_bound (- start) boundary Hb). lia. }
  lia.
Qed.

Lemma reaches_multiple (start boundary : Z) :
  0 < boundary -> (start + (- start) mod boundary) mod boundary = 0.
Proof.
  intros Hb. rewrite Z.add_mod_idemp_r by lia.
  replace (start + - start) with 0 by lia. apply Z.mod_0_l. lia.
Qed.

(** [align]: the pending byte, if there is one, goes out as it is (its
    unused high bits are those of [currentByte]), then zero bytes follow up
    to the next multiple of [boundary]. *)
Lemma align_flushes_and_pads (boundary : Z) (e : encoder.state) :
  0 < boundary ->
  0 <= encoder.bitOffset e < 8 -> capacity (encoder.writer e) = None ->
  0 <= encoder.byteOffset e -> encoder.byteOffset e + boundary + 1 < 2 ^ 64 ->
  let flushed := if encoder.bitOffset e =? 0 then [] else [encoder.currentByte e] in
  let start := encoder.byteOffset e + Z.of_nat (length flushed) in
  let m := Z.to_nat ((- start) mod boundary) in
  exists e',
    encoder.align boundary e = (Ok tt, e') /\
    encoder.writer e' = appended (encoder.writer e) (flushed ++ repeat 0 m) /\
    encoder.byteOffset e' = start + Z.of_nat m /\
    encoder.byteOffset e' mod boundary = 0 /\
    encoder.bitOffset e' = 0.
Proof.
  intros Hb Hk Hc Hlo Hhi flushed start m.
  pose proof (Z.mod_pos_bound (- start) boundary Hb) as Hm.
  assert (Hgo : forall e1,
    encoder.bitOffset e1 = 0 -> capacity (encoder.writer e1) = None ->
    encoder.byteOffset e1 = start ->
    exists e',
      encoder.alignLoop (Z.to_nat boundary) boundary e1 = (Ok tt, e') /\
      encoder.writer e' = appended (encoder.writer e1) (repeat 0 m) /\
      encoder.byteOffset e' = start + Z.of_nat m /\
      encoder.byteOffset e' mod boundary = 0 /\
      encoder.bitOffset e' = 0).
  { intros e1 Hk1 Hc1 Hs1.
    assert (0 <= start <= encoder.byteOffset e + 1) as Hstart.
    { unfold start, flushed. destruct (encoder.bitOffset e =? 0); cbn [length]; lia. }
    destruct (alignLoop_pads m (Z.to_nat boundary) boundary e1) as (e' & Hrun & Hw & Hoff & Hbit);
      try assumption.
    - lia.
    - rewrite Hs1. unfold m. lia.
    - intros j Hj. rewrite Hs1. apply first_multiple; [exact Hb|]. unfold m in Hj. lia.
    - rewrite Hs1. unfold m. rewrite Z2Nat.id by lia. apply reaches_multiple. exact Hb.
    - unfold m. lia.
    - exists e'. rewrite Hoff, Hs1. repeat split; try assumption.
      unfold m. rewrite Z2Nat.id by lia. apply reaches_multiple. exact Hb. }
  unfold encoder.align.
  destruct (Z.eqb_spec boundary 0) as [?|_]; [lia|].
  subst flushed.
  destruct (Z.eqb_spec (encoder.bitOffset e) 0) as [E|NE]; cbn [negb].
  - destruct (Hgo e) as (e' & Hrun & Hw & Hrest); try assumption.
    { unfold start. cbn [length]. lia. }
    exists e'. split; [exact Hrun|]. split; [|exact Hrest].
    rewrite Hw. reflexivity.
  - rewrite write_flush by (try assumption; lia).
    match goal with |- context [encoder.alignLoop _ _ ?e1] =>
      destruct (Hgo e1) as (e' & Hrun & Hw & Hrest) end.
    + reflexivity.
    + exact Hc.
    + cbn [encoder.byteOffset]. rewrite u64_small by lia.
      unfold start. cbn [length]. lia.
    + exists e'. split; [exact Hrun|]. split; [|exact Hrest].
      rewrite Hw. cbn [encoder.writer]. rewrite appended_app. reflexivity.
Qed.

(** C8 (the code differs): the descriptor of [Aligned] carries the
    alignment 4, and [Encode] writes the structure in 5 bytes, the 32-bit
    field in bytes 1 to 4: the traversal never calls [align]. *)
Theorem C8_encode_does_not_align :
  (exists tg, parseFieldTags (sfield "Aligned" (bare "align" "4") reflect.Uint32) = Ok tg
              /\ tags_alignment tg = 4) /\
  encoder.Encode 2 unbounded padAligned
  = (Ok tt, {| written := [0; 255; 0; 0; 0]; capacity := None; overrun := SinkError 0 |}).
Proof.
  split.
  - eexists. split; [vm_compute; reflexivity|reflexivity].
  - vm_compute. reflexivity.
Qed.

(** ** Errors of the descriptor model *)

Lemma KindBits_range (k : reflect.Kind) (b : Z) : KindBits k = Ok b -> 8 <= b <= 128.
Proof. destruct k; cbn; intros [= <-]; unfold intSize; lia. Qed.

Lemma add_bitfield_rejected (t : tags) (sf : StructField) (key val : string) (bitSize : Z) :
  strings.ToLower key = "bitfield"%string ->
  String.length (strings.SplitCommaHead val) <> 0%nat ->
  Bits (Type_ sf) = Ok bitSize ->
  strconv.ParseInt0 (strings.SplitCommaHead val) bitSize = None ->
  add t sf key val = Fail (Panic (TaggingError (raw (Tag sf)) (Kind (Type_ sf)))).
Proof.
  intros Hkey Hlen Hbits Hparse. unfold add. rewrite Hkey.
  cbn [String.eqb Ascii.eqb Bool.eqb].
  destruct (Nat.eqb_spec (String.length (strings.SplitCommaHead val)) 0) as [?|_];
    [contradiction|].
  rewrite Hbits. cbn [bind]. rewrite Hparse. reflexivity.
Qed.

Lemma add_align_rejected (t : tags) (sf : StructField) (key val : string) :
  strings.ToLower key = "align"%string ->
  strconv.ParseInt0 val 64 = None ->
  add t sf key val = Fail (Panic (TaggingError (raw (Tag sf)) (Kind (Type_ sf)))).
Proof.
  intros Hkey Hparse. unfold add. rewrite Hkey.
  cbn [String.eqb Ascii.eqb Bool.eqb].
  rewrite Hparse. reflexivity.
Qed.

Lemma readValue_too_wide (v : Value) (tg : tags) (d : decoder.state) (natural : Z) :
  CanSet v = true ->
  KindBits (VKind v) = Ok natural ->
  natural < nbits (tags_bitfield tg) ->
  decoder.readValue v (Some tg) d
  = (Fail (Err (BitfieldExceedsFieldSize (VKind v) (nbits (tags_bitfield tg)) natural)),
     val v, d).
Proof.
  intros Hc Hb Hlt. unfold decoder.readValue, decoder.width. rewrite Hc. cbn [negb].
  pose proof (KindBits_range _ _ Hb) as Hr.
  assert (reflect.Kind_eqb (VKind v) reflect.Bool = false) as ->.
  { destruct (VKind v); try reflexivity. discriminate Hb. }
  rewrite Hb. cbn [bind]. rewrite u64_small by lia.
  destruct (Z.ltb_spec natural (nbits (tags_bitfield tg))) as [_|?]; [reflexivity|lia].
Qed.

(** C9, as stated, fails: a width of 9 bits on a field of 8 bits is accepted
    when the descriptor is built; and the descriptor of a field is built
    when the walk reaches the field, after the fields before it have been
    written. *)
Lemma C9_counterexample :
  (exists tg, parseFieldTags (sfield "A" (bare "bitfield" "9") reflect.Uint8) = Ok tg /\
              KindBits reflect.Uint8 = Ok 8 /\ nbits (tags_bitfield tg) = 9) /\
  encoder.Encode 2 unbounded badSecondTag
  = (Fail (Panic (TaggingError (raw (bare "bitfield" "x")) reflect.Uint8)),
     {| written := [1]; capacity := None; overrun := SinkError 0 |}).
Proof.
  split.
  - eexists. split; [vm_compute; reflexivity|]. split; reflexivity.
  - vm_compute. reflexivity.
Qed.

(** C9, amended: a [bitfield] or [align] number that [strconv.ParseInt]
    rejects makes [tags.add] panic with a [TaggingError] that carries the
    raw tag and the kind of the field; a width larger than the storage width
    of the field is reported by [decoder.readValue], when the field is read,
    as an error that names the kind and the two widths, with nothing read
    from the source and the field left as it was. *)
Theorem C9_rejected_numbers_panic_and_wide_fields_fail_on_read :
  (forall t sf key val bitSize,
     strings.ToLower key = "bitfield"%string ->
     String.length (strings.SplitCommaHead val) <> 0%nat ->
     Bits (Type_ sf) = Ok bitSize ->
     strconv.ParseInt0 (strings.SplitCommaHead val) bitSize = None ->
     add t sf key val = Fail (Panic (TaggingError (raw (Tag sf)) (Kind (Type_ sf))))) /\
  (forall t sf key val,
     strings.ToLower key = "align"%string ->
     strconv.ParseInt0 val 64 = None ->
     add t sf key val = Fail (Panic (TaggingError (raw (Tag sf)) (Kind (Type_ sf))))) /\
  (forall v tg d natural,
     CanSet v = true ->
     KindBits (VKind v) = Ok natural ->
     natural < nbits (tags_bitfield tg) ->
     decoder.readValue v (Some tg) d
     = (Fail (Err (BitfieldExceedsFieldSize (VKind v) (nbits (tags_bitfield tg)) natural)),
        val v, d)).
Proof.
  split; [|split].
  - intros. eapply add_bitfield_rejected; eassumption.
  - intros. eapply add_align_rejected; eassumption.
  - intros. eapply readValue_too_wide; eassumption.
Qed.

Lemma C9_witness :
  add nineBits (sfield "A" (bare "bitfield" "x") reflect.Uint8) "bitfield" "x,reserved"
  = Fail (Panic (TaggingError (raw (bare "bitfield" "x")) reflect.Uint8)) /\
  add nineBits (sfield "A" (bare "align" "four") reflect.Uint8) "Align" "four"
  = Fail (Panic (TaggingError (raw (bare "align" "four")) reflect.Uint8)) /\
  decoder.readValue settableByte (Some nineBits) midByte
  = (Fail (Err (BitfieldExceedsFieldSize reflect.Uint8 9 8)), U8 0, midByte).
Proof.
  destruct C9_rejected_numbers_panic_and_wide_fields_fail_on_read as (Hb & Ha & Hw).
  split; [|split].
  - apply (Hb nineBits (sfield "A" (bare "bitfield" "x") reflect.Uint8)
             "bitfield"%string "x,reserved"%string 8).
    + reflexivity.
    + cbn. lia.
    + reflexivity.
    + reflexivity.
  - apply (Ha nineBits (sfield "A" (bare "align" "four") reflect.Uint8)
             "Align"%string "four"%string).
    + reflexivity.
    + reflexivity.
  - apply (Hw settableByte nineBits midByte 8).
    + reflexivity.
    + reflexivity.
    + cbn. lia.
Defined.

(** ** Sequences governed by a reference *)

Lemma sliceLoop_length (rec : walk decoder.state) (arr : Value) (tags : tags)
    (vs : list data) (t : transcoder decoder.state) :
  length (snd (fst (decoder.sliceLoop rec arr tags vs t))) = length vs.
Proof.
  revert t. induction vs as [|x rest IH]; intros t; [reflexivity|].
  cbn [decoder.sliceLoop].
  destruct (rec (IndexOf arr x) t) as [[st x'] t']. destruct st as [[]|f].
  - specialize (IH t').
    destruct (decoder.sliceLoop rec arr tags rest t') as [[st rest'] t''].
    cbn in *. congruence.
  - destruct (decoder.isEOF f && tags_truncate tags); reflexivity.
Qed.

(** The test of [decoder.slice] on a [sizeOf] reference, relative to the
    size that [typeSize] gives the element: a value that is not a multiple
    of it returns the error about a non-multiple size, with the slice and the
    state untouched; a value that is resizes the slice to the quotient. *)
Lemma slice_sizeOf_span_and_typeSize
    (rec : walk decoder.state) (arr : Value) (tags : tags) (ref : tagReference)
    (t : transcoder decoder.state) (sz : Z) :
  format (tags_layout (ref_tags ref)) = sizeOf ->
  typeSize (elemType (val arr)) = Ok sz ->
  0 < sz ->
  (value (tags_layout (ref_tags ref)) mod sz <> 0 ->
     decoder.slice rec arr tags (Some ref) t
     = (Fail (Err (SliceSizeNonMultiple (value (tags_layout (ref_tags ref))) sz)),
        val arr, t)) /\
  (value (tags_layout (ref_tags ref)) mod sz = 0 ->
     CanSet arr = true ->
     0 <= value (tags_layout (ref_tags ref)) / sz < 2 ^ 63 ->
     memSize (elemType (val arr)) * (value (tags_layout (ref_tags ref)) / sz) <= maxAlloc ->
     forall st x t',
       decoder.slice rec arr tags (Some ref) t = (st, x, t') ->
       exists vs, x = DSlice (elemType (val arr)) vs /\
                  Z.of_nat (length vs) = value (tags_layout (ref_tags ref)) / sz).
Proof.
  intros Hfmt Hsz Hpos.
  unfold decoder.slice, decoder.sliceLength. rewrite Hfmt, Hsz. cbn [bind].
  destruct (Z.eqb_spec sz 0) as [?|_]; [lia|].
  split.
  - intros Hrem.
    destruct (Z.eqb_spec (value (tags_layout (ref_tags ref)) mod sz) 0) as [?|_];
      [contradiction|].
    reflexivity.
  - intros Hrem Hset Hrange Hmem st x t'.
    rewrite Hrem. cbn [Z.eqb negb bind]. unfold decoder.makeSlice.
    destruct (Z.leb_spec (2 ^ 63) (value (tags_layout (ref_tags ref)) / sz)) as [?|_]; [lia|].
    destruct (Z.ltb_spec maxAlloc
                (memSize (elemType (val arr)) * (value (tags_layout (ref_tags ref)) / sz)))
      as [?|_]; [lia|].
    rewrite Hset. cbn [negb elements elemType val].
    match goal with |- context [decoder.sliceLoop rec ?a tags ?l t] =>
      pose proof (sliceLoop_length rec a tags l t) as Hlen;
      destruct (decoder.sliceLoop rec a tags l t) as [[st1 vs] t1] end.
    intros [= <- <- <-]. exists vs. split; [reflexivity|].
    cbn in Hlen. rewrite Hlen, repeat_length. lia.
Qed.

(** C6 (the code differs): the element size that [decoder.slice] divides
    by comes from [typeSize], and [structTypeSize] counts a field that is a
    nested struct as no bits. An element of a byte and a nested struct of a
    byte is two bytes for [Size] and for [Encode], and one byte for
    [typeSize]: a size of 3 bytes, which is not a multiple of 2, is accepted,
    and [Decode] returns [nil] with three elements read from six bytes; the
    bytes [Encode] writes for one element are decoded as two elements and
    run into the end of the data. An element made of a nested struct alone
    has the size 0, and the division panics. *)
Theorem C6_nested_struct_elements_are_sized_without_the_nested_struct :
  typeSize (typeOf (nested 0 0)) = Ok 1 /\
  size 3 (ValueOf (nested 0 0)) = Ok 2 /\
  decoder.Decode 5 (bytesBuffer [3; 1; 2; 3; 4; 5; 6; 9]) (ptr (sizedNested 0 []))
  = (Ok tt, ptr (sizedNested 3 [nested 1 2; nested 3 4; nested 5 6]), bytesBuffer [9]) /\
  encoder.Encode 5 unbounded (sizedNested 0 [nested 7 8])
  = (Ok tt, appended unbounded [2; 7; 8]) /\
  decoder.Decode 5 (bytesBuffer [2; 7; 8]) (ptr (sizedNested 0 []))
  = (Fail (Err io_EOF), ptr (sizedNested 2 [nested 7 8; nested 0 0]), bytesBuffer []) /\
  typeSize (typeOf (wrapped 0)) = Ok 0 /\
  decoder.Decode 5 (bytesBuffer [1; 7]) (ptr (sizedWrapped 0 []))
  = (Fail (Panic IntegerDivideByZero), ptr (sizedWrapped 1 []), bytesBuffer [7]).
Proof. repeat split; vm_compute; reflexivity. Qed.

(** ** The value of a layout field on encode *)

Lemma u64_sub_idemp (a b : Z) : u64 (u64 a - b) = u64 (a - b).
Proof. unfold u64. apply Zminus_mod_idemp_l. Qed.

(** What [encoder.layout] hands to the bit-level write, in the width of the
    field, when the referenced sequence has a first element: the value of
    the field itself when it is not zero; when it is zero, the length of the
    sequence for [countOf], and for [sizeOf] the size of the first element
    times the length, less the running byte offset when the tag says
    [relative]. *)
Lemma layout_hands_the_value_to_write
    (size : Value -> result Z) (found : Value) (ref : tagReference) (e : encoder.state) :
  let writes (v : Z) : status * tagReference * encoder.state :=
    let '(st, e') := encoder.write v (nbits (tags_bitfield (ref_tags ref))) e in
    (st, ref, e') in
  (IsZero (ref_value ref) = false ->
     forall v, getValue (ref_value ref) = Ok v ->
               encoder.layout size found ref e = writes v) /\
  (IsZero (ref_value ref) = true ->
     format (tags_layout (ref_tags ref)) = countOf ->
     encoder.layout size found ref e = writes (Len found)) /\
  (IsZero (ref_value ref) = true ->
     format (tags_layout (ref_tags ref)) = sizeOf ->
     forall first sz,
       Index found 0 = Ok first -> size first = Ok sz ->
       encoder.layout size found ref e
       = writes (u64 (Len found * sz
                      - (if relative (tags_layout (ref_tags ref))
                         then encoder.byteOffset e else 0)))).
Proof.
  intros writes. unfold encoder.layout, sizer.layoutValue. split; [|split].
  - intros Hnz v Hv. rewrite Hnz, Hv. reflexivity.
  - intros Hz Hfmt. rewrite Hz, Hfmt. reflexivity.
  - intros Hz Hfmt first sz Hfirst Hsize. rewrite Hz, Hfmt, Hfirst. cbn [bind].
    rewrite Hsize. cbn [bind].
    destruct (relative (tags_layout (ref_tags ref))).
    + rewrite u64_sub_idemp. reflexivity.
    + rewrite Z.sub_0_r. reflexivity.
Qed.

(** C7 (the code differs): a [sizeOf] field whose value is zero, over a
    sequence that is empty. [encoder.layout] takes the element size from
    [size(val.Index(0))] before it multiplies by the length, so [Encode]
    panics with an index out of range and writes nothing, for a slice and for
    an array of any element type, where the size to write is zero times the
    element size. The [countOf] field over the same empty slice is written
    as 0. Over a sequence that is not empty the zero field is written as the
    size of the sequence (4 for two words, 3 when one byte came before and
    the tag says [relative]), and a field that is not zero as it is (2 for
    two bytes). *)
Theorem C7_zero_sizeOf_over_an_empty_sequence_panics :
  (forall (fuel : nat) (elem : type),
     encoder.Encode (S fuel) unbounded (governedSlice (bare "sizeOf" "Ts") 0 elem [])
     = (Fail (Panic ReflectIndexOutOfRange), unbounded)) /\
  (forall (fuel : nat) (elem : type),
     encoder.Encode (S fuel) unbounded (governedArray (bare "sizeOf" "Ts") 0 elem [])
     = (Fail (Panic ReflectIndexOutOfRange), unbounded)) /\
  (forall (fuel : nat) (elem : type),
     encoder.Encode (S fuel) unbounded (governedSlice (bare "countOf" "Ts") 0 elem [])
     = (Ok tt, appended unbounded [0])) /\
  encoder.Encode 3 unbounded
    (governedSlice (bare "sizeOf" "Ts") 0 (TBasic reflect.Uint16) [U16 1; U16 2])
  = (Ok tt, appended unbounded [4; 1; 0; 2; 0]) /\
  encoder.Encode 3 unbounded (relativeWords 0 [1; 2])
  = (Ok tt, appended unbounded [9; 3; 1; 0; 2; 0]) /\
  encoder.Encode 3 unbounded
    (governedSlice (bare "sizeOf" "Ts") 2 (TBasic reflect.Uint8) [U8 5; U8 6])
  = (Ok tt, appended unbounded [2; 5; 6]).
Proof.
  split; [|split; [|split]].
  - intros fuel elem. reflexivity.
  - intros fuel elem. reflexivity.
  - intros fuel elem. reflexivity.
  - repeat split; vm_compute; reflexivity.
Qed.

(** ** Round trip: the stream of bits *)

Lemma bitsFrom_length (n : nat) (i v : Z) : length (bitsFrom n i v) = n.
Proof. revert i. induction n as [|n IH]; intros i; cbn; [reflexivity|]. rewrite IH. reflexivity. Qed.

Lemma bitsFrom_app (a b : nat) (i v : Z) :
  bitsFrom (a + b) i v = bitsFrom a i v ++ bitsFrom b (i + Z.of_nat a) v.
Proof.
  revert i. induction a as [|a IH]; intros i.
  - cbn. rewrite Z.add_0_r. reflexivity.
  - cbn [Nat.add bitsFrom app]. rewrite IH. do 3 f_equal. lia.
Qed.

Lemma bitsFrom_ext (n : nat) (i i' a b : Z) :
  (forall j, 0 <= j < Z.of_nat n -> Z.testbit a (i + j) = Z.testbit b (i' + j)) ->
  bitsFrom n i a = bitsFrom n i' b.
Proof.
  revert i i'. induction n as [|n IH]; intros i i' Hb; [reflexivity|].
  cbn [bitsFrom]. f_equal.
  - specialize (Hb 0 ltac:(lia)). rewrite !Z.add_0_r in Hb. exact Hb.
  - apply IH. intros j Hj. specialize (Hb (j + 1) ltac:(lia)).
    replace (i + 1 + j) with (i + (j + 1)) by lia.
    replace (i' + 1 + j) with (i' + (j + 1)) by lia. exact Hb.
Qed.

Lemma bitsFrom_inv (n : nat) (i i' a b : Z) :
  bitsFrom n i a = bitsFrom n i' b ->
  forall j, 0 <= j < Z.of_nat n -> Z.testbit a (i + j) = Z.testbit b (i' + j).
Proof.
  revert i i'. induction n as [|n IH]; intros i i' He j Hj; [lia|].
  cbn [bitsFrom] in He. injection He as Hhd Htl.
  destruct (Z.eq_dec j 0) as [->|Hne].
  - rewrite !Z.add_0_r. exact Hhd.
  - specialize (IH _ _ Htl (j - 1) ltac:(lia)).
    replace (i + 1 + (j - 1)) with (i + j) in IH by lia.
    replace (i' + 1 + (j - 1)) with (i' + j) in IH by lia. exact IH.
Qed.

(** Equal low bits are equal residues. *)
Lemma bitsFrom_mod (n : nat) (a b : Z) :
  bitsFrom n 0 a = bitsFrom n 0 b -> a mod 2 ^ Z.of_nat n = b mod 2 ^ Z.of_nat n.
Proof.
  intros He. apply Z.bits_inj'. intros j Hj.
  rewrite !Z.testbit_mod_pow2 by lia.
  destruct (Z.ltb_spec j (Z.of_nat n)) as [Hlt|Hge]; [|reflexivity].
  cbn [andb]. apply (bitsFrom_inv n 0 0 a b He j). lia.
Qed.

Lemma bitsFrom_shiftr (n : nat) (i v : Z) :
  0 <= i -> bitsFrom n 0 (Z.shiftr v i) = bitsFrom n i v.
Proof.
  intros Hi. apply bitsFrom_ext. intros j Hj.
  rewrite Z.shiftr_spec by lia. f_equal. lia.
Qed.

Lemma bitsFrom_mod_low (n : nat) (k v : Z) :
  Z.of_nat n <= k -> bitsFrom n 0 (v mod 2 ^ k) = bitsFrom n 0 v.
Proof.
  intros Hk. apply bitsFrom_ext. intros j Hj.
  rewrite Z.testbit_mod_pow2 by lia.
  destruct (Z.ltb_spec (0 + j) k) as [_|?]; [reflexivity|lia].
Qed.

Lemma testbit_small (a n i : Z) : 0 <= a < 2 ^ n -> n <= i -> Z.testbit a i = false.
Proof.
  intros Ha Hi.
  destruct (Z.ltb_spec n 0) as [Hneg|Hn].
  - rewrite Z.pow_neg_r in Ha by lia. lia.
  - rewrite <- (Z.mod_small a (2 ^ n)) by lia.
    apply Z.mod_pow2_bits_high. lia.
Qed.

Lemma lor_below (a b n : Z) : 0 <= n -> 0 <= a < 2 ^ n -> 0 <= b < 2 ^ n -> 0 <= Z.lor a b < 2 ^ n.
Proof.
  intros Hn Ha Hb.
  assert (0 <= Z.lor a b) as Hnn by (apply Z.lor_nonneg; lia).
  split; [exact Hnn|].
  rewrite <- (Z.mod_small a (2 ^ n)), <- (Z.mod_small b (2 ^ n)) by lia.
  rewrite <- !Z.land_ones by lia. rewrite <- Z.land_lor_distr_l.
  rewrite Z.land_ones by lia. apply Z.mod_pos_bound. apply Z.pow_pos_nonneg; lia.
Qed.

(** Merging [w] bits of [v] above the [o] bits of a pending byte [c]. *)
Lemma bitsFrom_merge (o w : nat) (c v : Z) :
  0 <= c < 2 ^ Z.of_nat o ->
  bitsFrom (o + w) 0 (Z.lor c (Z.shiftl v (Z.of_nat o)))
  = bitsFrom o 0 c ++ bitsFrom w 0 v.
Proof.
  intros Hc. rewrite bitsFrom_app. f_equal.
  - apply bitsFrom_ext. intros j Hj. rewrite Z.lor_spec, Z.shiftl_spec by lia.
    rewrite (Z.testbit_neg_r v) by lia. apply orb_false_r.
  - apply bitsFrom_ext. intros j Hj. rewrite Z.lor_spec, Z.shiftl_spec by lia.
    rewrite (testbit_small c (Z.of_nat o)) by lia. cbn [orb]. f_equal. lia.
Qed.

Lemma streamBits_app (a b : list Z) : streamBits (a ++ b) = streamBits a ++ streamBits b.
Proof. unfold streamBits. apply flat_map_app. Qed.

Lemma streamBits_length (bs : list Z) : length (streamBits bs) = (8 * length bs)%nat.
Proof.
  induction bs as [|b bs IH]; [reflexivity|].
  change (streamBits (b :: bs)) with (byteBits b ++ streamBits bs).
  rewrite length_app, IH. unfold byteBits. rewrite bitsFrom_length. cbn [length]. lia.
Qed.

Lemma byteBits_inj (a b : Z) : isByte a -> isByte b -> byteBits a = byteBits b -> a = b.
Proof.
  intros Ha Hb He. apply bitsFrom_mod in He. change (2 ^ Z.of_nat 8) with 256 in He.
  unfold isByte in *. rewrite !Z.mod_small in He by lia. exact He.
Qed.

Lemma streamBits_inj (a b : list Z) :
  Forall isByte a -> Forall isByte b -> streamBits a = streamBits b -> a = b.
Proof.
  intros Ha. revert b. induction Ha as [|x a Hx Ha IH]; intros b Hb He.
  - destruct b as [|y b]; [reflexivity|]. discriminate He.
  - destruct Hb as [|y b Hy Hb]; [discriminate He|].
    change (byteBits x ++ streamBits a = byteBits y ++ streamBits b) in He.
    apply app_inj_1 in He; [|unfold byteBits; rewrite !bitsFrom_length; reflexivity].
    destruct He as [Hxy Hab]. f_equal; [apply byteBits_inj; assumption|apply IH; assumption].
Qed.

Lemma pow2_le_256 (n : Z) : 0 <= n <= 8 -> 0 < 2 ^ n <= 256.
Proof.
  intros Hn. split; [apply Z.pow_pos_nonneg; lia|].
  change 256 with (2 ^ 8). apply Z.pow_le_mono_r; lia.
Qed.

Lemma shifted_below (v w o : Z) :
  0 <= o -> 0 <= w -> 0 <= v < 2 ^ w -> 0 <= Z.shiftl v o < 2 ^ (o + w).
Proof.
  intros Ho Hw Hv. rewrite Z.shiftl_mul_pow2 by lia.
  rewrite Z.pow_add_r by lia.
  assert (0 < 2 ^ o) by (apply Z.pow_pos_nonneg; lia). nia.
Qed.

(** A field of less than 8 bits that fits in the byte under construction. *)
Lemma write_sub_byte (v w : Z) (e : encoder.state) :
  encOk e -> 0 < w < 8 -> encoder.bitOffset e + w <= 8 -> 0 <= v < 2 ^ w ->
  exists e',
    encoder.write v w e = (Ok tt, e') /\ encOk e' /\
    encoder.bitOffset e' = (encoder.bitOffset e + w) mod 8 /\
    encBits e' = encBits e ++ bitsFrom (Z.to_nat w) 0 v.
Proof.
  intros [Hcap Hoff Hpend Hbytes] Hw Hfit Hv.
  pose proof (pow2_le_256 w ltac:(lia)) as Hpw.
  assert (2 ^ 8 < 2 ^ 64) by (apply Z.pow_lt_mono_r; lia).
  change (2 ^ 8) with 256 in *.
  unfold encoder.write.
  destruct (Z.ltb_spec (2 ^ 64 - 1) v) as [?|_]; [lia|]. rewrite andb_false_r.
  destruct (Z.eqb_spec (encoder.bitOffset e) 0) as [E|NE]; cbn [negb].
  - (* the byte is fresh *)
    assert (Z.to_nat (w / 8) = 0%nat) as ->.
    { rewrite Z.div_small by lia. reflexivity. }
    cbn [encoder.writeLoop].
    destruct (Z.eqb_spec w 0) as [?|_]; [lia|].
    destruct (Z.ltb_spec w 8) as [_|?]; [|lia].
    unfold encoder.set_current, encoder.set_bitOffset.
    cbn [encoder.bitOffset encoder.currentByte encoder.writer encoder.byteOffset].
    rewrite E, !Z.add_0_l.
    rewrite (u64_small w) by lia.
    assert (u8 v = v) as -> by (unfold u8; apply Z.mod_small; change (2 ^ 8) with 256; lia).
    eexists. split; [reflexivity|]. split; [|split].
    + constructor; cbn; try assumption; lia.
    + cbn. rewrite Z.mod_small; lia.
    + unfold encBits. cbn. rewrite E. cbn [Z.to_nat bitsFrom]. rewrite app_nil_r. reflexivity.
  - (* bits are pending *)
    destruct Hpend as [Hc|?]; [|contradiction].
    pose proof (shifted_below v w (encoder.bitOffset e) ltac:(lia) ltac:(lia) Hv) as Hs.
    pose proof (pow2_le_256 (encoder.bitOffset e + w) ltac:(lia)) as Hpo.
    unfold encoder.set_current, encoder.set_bitOffset.
    cbn [encoder.bitOffset encoder.currentByte encoder.writer encoder.byteOffset].
    rewrite (u64_small (Z.shiftl v _)) by lia.
    assert (u8 (Z.shiftl v (encoder.bitOffset e)) = Z.shiftl v (encoder.bitOffset e)) as ->
      by (unfold u8; apply Z.mod_small; change (2 ^ 8) with 256; lia).
    rewrite (u64_small (8 - _)) by lia.
    assert (Hmerged : 0 <= Z.lor (encoder.currentByte e) (Z.shiftl v (encoder.bitOffset e))
                      < 2 ^ (encoder.bitOffset e + w)).
    { apply lor_below; [lia| |exact Hs].
      split; [lia|]. eapply Z.lt_le_trans; [apply Hc|]. apply Z.pow_le_mono_r; lia. }
    assert (Hbits : bitsFrom (Z.to_nat (encoder.bitOffset e + w)) 0
                      (Z.lor (encoder.currentByte e) (Z.shiftl v (encoder.bitOffset e)))
                    = bitsFrom (Z.to_nat (encoder.bitOffset e)) 0 (encoder.currentByte e)
                      ++ bitsFrom (Z.to_nat w) 0 v).
    { rewrite Z2Nat.inj_add by lia.
      rewrite <- (Z2Nat.id (encoder.bitOffset e)) at 2 by lia.
      apply bitsFrom_merge. rewrite Z2Nat.id by lia. exact Hc. }
    destruct (Z.ltb_spec w (8 - encoder.bitOffset e)) as [Hlt|Hge].
    + rewrite u64_small by lia.
      eexists. split; [reflexivity|]. split; [|split].
      * constructor; cbn; try assumption; [lia|left; exact Hmerged].
      * cbn. rewrite Z.mod_small; lia.
      * unfold encBits. cbn. rewrite Hbits. apply app_assoc.
    + assert (w = 8 - encoder.bitOffset e) as Hw8 by lia.
      rewrite Z.shiftr_div_pow2 by lia.
      assert (v / 2 ^ (8 - encoder.bitOffset e) = 0) as ->.
      { apply Z.div_small. rewrite <- Hw8. exact Hv. }
      rewrite <- Hw8, Z.sub_diag. change (Z.to_nat (0 / 8)) with 0%nat.
      cbn [encoder.writeLoop Z.eqb].
      rewrite writeByte_unbounded by exact Hcap.
      unfold encoder.set_current, encoder.set_bitOffset.
      cbn [snd encoder.bitOffset encoder.currentByte encoder.writer encoder.byteOffset].
      eexists. split; [reflexivity|]. split; [|split].
      * constructor; cbn; try assumption; [lia|right; reflexivity|].
        apply Forall_app. split; [exact Hbytes|]. constructor; [|constructor].
        unfold isByte. replace (encoder.bitOffset e + w) with 8 in Hmerged by lia.
        change (2 ^ 8) with 256 in Hmerged. exact Hmerged.
      * cbn. replace (encoder.bitOffset e + w) with 8 by lia. reflexivity.
      * unfold encBits. cbn. rewrite streamBits_app. cbn [streamBits flat_map].
        rewrite app_nil_r. unfold byteBits.
        replace 8%nat with (Z.to_nat (encoder.bitOffset e + w)) by lia.
        rewrite Hbits. rewrite <- !app_assoc. rewrite app_nil_r. reflexivity.
Qed.

Lemma u8_isByte (v : Z) : isByte (u8 v).
Proof. unfold isByte, u8. change (2 ^ 8) with 256. apply Z.mod_pos_bound. lia. Qed.

Lemma leBytes_isByte (m : nat) (v : Z) : Forall isByte (leBytes m v).
Proof.
  revert v. induction m as [|m IH]; intros v; constructor; [apply u8_isByte|apply IH].
Qed.

Lemma leBytes_bits (m : nat) (v : Z) :
  streamBits (leBytes m v) = bitsFrom (8 * m) 0 v.
Proof.
  revert v. induction m as [|m IH]; intros v; [reflexivity|].
  replace (8 * S m)%nat with (8 + 8 * m)%nat by lia.
  rewrite bitsFrom_app. cbn [leBytes].
  change (streamBits (u8 v :: leBytes m (Z.shiftr v 8)))
    with (byteBits (u8 v) ++ streamBits (leBytes m (Z.shiftr v 8))).
  rewrite IH. f_equal.
  - unfold byteBits, u8. apply bitsFrom_mod_low. lia.
  - rewrite bitsFrom_shiftr by lia. reflexivity.
Qed.

Lemma writeLoop_bytes (m n : nat) (v : Z) (e : encoder.state) :
  (m < n)%nat -> capacity (encoder.writer e) = None ->
  exists e',
    encoder.writeLoop n v (8 * Z.of_nat m) e = e' /\
    encoder.writer e' = appended (encoder.writer e) (leBytes m v) /\
    encoder.bitOffset e' = encoder.bitOffset e.
Proof.
  revert n v e. induction m as [|m IH]; intros n v e Hn Hcap.
  - destruct n as [|n]; [lia|]. cbn [encoder.writeLoop Z.of_nat Z.mul Z.eqb].
    exists e. cbn [leBytes]. rewrite appended_nil. repeat split.
  - destruct n as [|n]; [lia|]. cbn [encoder.writeLoop].
    destruct (Z.eqb_spec (8 * Z.of_nat (S m)) 0) as [?|_]; [lia|].
    destruct (Z.ltb_spec (8 * Z.of_nat (S m)) 8) as [?|_]; [lia|].
    replace (8 * Z.of_nat (S m) - 8) with (8 * Z.of_nat m) by lia.
    unfold encoder.set_current. cbn [encoder.currentByte].
    rewrite writeByte_unbounded by exact Hcap. cbn [snd].
    edestruct (IH n (Z.shiftr v 8)) as (e' & Hrun & Hw & Hoff); [lia| |].
    2: { exists e'. split; [exact Hrun|]. rewrite Hw, Hoff. cbn [encoder.writer encoder.bitOffset].
         rewrite appended_app. split; reflexivity. }
    cbn. exact Hcap.
Qed.


(** ** Round trip: reading the bits back *)





(** ** Round trip: one integer field *)









(** ** Round trip: the structures covered *)








(** ** Round trip: the walk *)














(** ** Round trip *)





(** * Further properties *)

(** ** The bit-level read: widths and byte order *)

Lemma leValue_range (bs : list Z) :
  Forall isByte bs -> 0 <= leValue bs < 2 ^ (8 * Z.of_nat (length bs)).
Proof.
  induction 1 as [|b bs Hb _ IH]; [cbn; lia|].
  cbn [leValue length]. rewrite Nat2Z.inj_succ.
  replace (8 * Z.succ (Z.of_nat (length bs))) with (8 + 8 * Z.of_nat (length bs)) by lia.
  rewrite Z.pow_add_r by lia. change (2 ^ 8) with 256.
  unfold isByte in Hb. lia.
Qed.

(** A byte and the bytes above it have no bit in common. *)
Lemma lor_byte_above (b hi i : Z) :
  isByte b -> 0 <= hi -> 0 <= i ->
  Z.lor (Z.shiftl b i) (Z.shiftl hi (i + 8)) = Z.shiftl (b + 256 * hi) i.
Proof.
  intros Hb Hhi Hi.
  assert (b + 256 * hi = Z.lor b (Z.shiftl hi 8)) as ->.
  { rewrite <- Z.lxor_lor, <- Z.add_nocarry_lxor.
    - rewrite Z.shiftl_mul_pow2 by lia. change (2 ^ 8) with 256. lia.
    - apply Z.bits_inj'. intros j Hj. rewrite Z.land_spec, Z.bits_0.
      destruct (Z.ltb_spec j 8).
      + rewrite Z.shiftl_spec_low by lia. apply andb_false_r.
      + rewrite (testbit_small b 8 j) by (unfold isByte in Hb; change (2 ^ 8) with 256; lia).
        reflexivity.
    - apply Z.bits_inj'. intros j Hj. rewrite Z.land_spec, Z.bits_0.
      destruct (Z.ltb_spec j 8).
      + rewrite Z.shiftl_spec_low by lia. apply andb_false_r.
      + rewrite (testbit_small b 8 j) by (unfold isByte in Hb; change (2 ^ 8) with 256; lia).
        reflexivity. }
  rewrite Z.shiftl_lor, Z.shiftl_shiftl by lia.
  replace (8 + i) with (i + 8) by lia. reflexivity.
Qed.

Lemma with_reader_twice (d : decoder.state) (r1 r2 : ByteReader) :
  decoder.with_reader (decoder.with_reader d r1) r2 = decoder.with_reader d r2.
Proof. reflexivity. Qed.

Lemma readBytes_little_endian (bs rest : list Z) (i acc : Z) (d : decoder.state) :
  0 <= i -> i + 8 * Z.of_nat (length bs) <= 64 -> Forall isByte bs ->
  pending (decoder.reader d) = bs ++ rest ->
  decoder.readBytes (length bs) i acc d
  = (Ok (Z.lor acc (Z.shiftl (leValue bs) i)),
     decoder.with_reader d {| pending := rest; exhausted := exhausted (decoder.reader d) |}).
Proof.
  revert i acc d. induction bs as [|b bs IH]; intros i acc d Hi Hfit Hbs Hp.
  - cbn [length decoder.readBytes leValue]. rewrite Z.shiftl_0_l, Z.lor_0_r.
    destruct d as [[p x] c bo bi]. cbn in Hp. subst p. reflexivity.
  - cbn [length decoder.readBytes]. unfold ReadByte. rewrite Hp. cbn [app].
    inversion Hbs as [|? ? Hb Hbs']; subst.
    cbn [length] in Hfit. rewrite Nat2Z.inj_succ in Hfit.
    rewrite IH; [| lia | lia | exact Hbs' | reflexivity ].
    cbn [decoder.with_reader decoder.reader exhausted].
    f_equal. f_equal.
    assert (0 <= Z.shiftl b i < 2 ^ 64) as Hsmall.
    { pose proof (shifted_below b 8 i Hi ltac:(lia) Hb) as Hs.
      assert (2 ^ (i + 8) <= 2 ^ 64) by (apply Z.pow_le_mono_r; lia). lia. }
    rewrite u64_small by exact Hsmall.
    rewrite <- Z.lor_assoc. f_equal. cbn [leValue].
    pose proof (leValue_range bs Hbs').
    apply lor_byte_above; [exact Hb|lia|exact Hi].
Qed.

Lemma readBytes_short (m : nat) (bs : list Z) (i acc : Z) (d : decoder.state) :
  (length bs < m)%nat -> pending (decoder.reader d) = bs ->
  decoder.readBytes m i acc d
  = (Fail (Err (exhausted (decoder.reader d))),
     decoder.with_reader d {| pending := []; exhausted := exhausted (decoder.reader d) |}).
Proof.
  revert bs i acc d. induction m as [|m IH]; intros bs i acc d Hm Hp; [lia|].
  cbn [decoder.readBytes]. unfold ReadByte. rewrite Hp.
  destruct bs as [|b bs].
  - destruct d as [[p x] c bo bi]. cbn in Hp. subst p. reflexivity.
  - rewrite (IH bs); [reflexivity| cbn [length] in Hm; lia | reflexivity].
Qed.

(** X1: [decoder.read] takes a width of 1 to 7 bits or a whole number of
    bytes: a width of zero bits, and a width of 8 bits or more that is not a
    multiple of 8, are refused with the decoder left as it was; a read that
    succeeds had one of the two accepted widths. *)
Theorem X1_read_accepts_bit_fields_and_whole_bytes (n : Z) (d : decoder.state) :
  0 <= n ->
  (n = 0 -> decoder.read n d = (Fail (Err UnsupportedZeroBitOperation), d)) /\
  (8 <= n -> n mod 8 <> 0 -> decoder.read n d = (Fail (Err (UnsupportedBitSpan n)), d)) /\
  (forall v d', decoder.read n d = (Ok v, d') -> 1 <= n < 8 \/ (8 <= n /\ n mod 8 = 0)).
Proof.
  intros Hn. unfold decoder.read. split; [|split].
  - intros ->. reflexivity.
  - intros Hge Hrem.
    destruct (Z.eqb_spec n 0) as [?|_]; [lia|].
    destruct (Z.ltb_spec n 8) as [?|_]; [lia|].
    destruct (Z.eqb_spec (n mod 8) 0) as [?|_]; [contradiction|]. reflexivity.
  - intros v d'.
    destruct (Z.eqb_spec n 0) as [?|Hnz]; [discriminate|].
    destruct (Z.ltb_spec n 8) as [Hlt|Hge]; [intros _; left; lia|].
    destruct (Z.eqb_spec (n mod 8) 0) as [Hz|_]; [|discriminate].
    intros _. right. split; assumption.
Qed.

Lemma X1_witness :
  decoder.read 12 midByte = (Fail (Err (UnsupportedBitSpan 12)), midByte).
Proof.
  apply (X1_read_accepts_bit_fields_and_whole_bytes 12 midByte); [lia|lia|].
  vm_compute. discriminate.
Defined.

(** X2: a read of [m] whole bytes ([1 <= m <= 8]) returns the number whose
    little-endian bytes are the next [m] bytes of the source, and consumes
    exactly these. The bit cursor and [currentByte] are not touched, whatever
    the bit offset is: the read does not look at it. *)
Theorem X2_read_whole_bytes_little_endian (bs rest : list Z) (d : decoder.state) :
  (1 <= length bs <= 8)%nat -> Forall isByte bs ->
  pending (decoder.reader d) = bs ++ rest ->
  decoder.read (8 * Z.of_nat (length bs)) d
  = (Ok (leValue bs),
     decoder.with_reader d {| pending := rest; exhausted := exhausted (decoder.reader d) |}).
Proof.
  intros Hlen Hbs Hp. unfold decoder.read.
  destruct (Z.eqb_spec (8 * Z.of_nat (length bs)) 0) as [?|_]; [lia|].
  destruct (Z.ltb_spec (8 * Z.of_nat (length bs)) 8) as [?|_]; [lia|].
  rewrite Z.mul_comm, Z.mod_mul by lia. cbn [Z.eqb negb].
  rewrite Z.div_mul by lia. rewrite Nat2Z.id.
  rewrite (readBytes_little_endian bs rest 0 0 d); [|lia|lia|exact Hbs|exact Hp].
  rewrite Z.shiftl_0_r. reflexivity.
Qed.

Lemma X2_witness :
  decoder.read 16 (handler (decoderStart (bytesBuffer [52; 18; 153])))
  = (Ok 4660, handler (decoderStart (bytesBuffer [153]))).
Proof.
  apply (X2_read_whole_bytes_little_endian [52; 18] [153]
           (handler (decoderStart (bytesBuffer [52; 18; 153])))).
  - cbn. lia.
  - repeat constructor; unfold isByte; lia.
  - reflexivity.
Defined.

(** X3: a read of whole bytes from a source that holds fewer bytes returns
    the error of the source ([io.EOF] for a [bytes.Buffer]); the bytes read
    before the end are consumed. *)
Theorem X3_read_past_the_end_of_the_source (bs : list Z) (m : nat) (d : decoder.state) :
  (length bs < m)%nat -> pending (decoder.reader d) = bs ->
  decoder.read (8 * Z.of_nat m) d
  = (Fail (Err (exhausted (decoder.reader d))),
     decoder.with_reader d {| pending := []; exhausted := exhausted (decoder.reader d) |}).
Proof.
  intros Hm Hp. unfold decoder.read.
  destruct (Z.eqb_spec (8 * Z.of_nat m) 0) as [?|_]; [lia|].
  destruct (Z.ltb_spec (8 * Z.of_nat m) 8) as [?|_]; [lia|].
  rewrite Z.mul_comm, Z.mod_mul by lia. cbn [Z.eqb negb].
  rewrite Z.div_mul by lia. rewrite Nat2Z.id.
  apply (readBytes_short m bs); assumption.
Qed.

Lemma X3_witness :
  decoder.read 32 (handler (decoderStart (bytesBuffer [52; 18; 153])))
  = (Fail (Err io_EOF), handler (decoderStart (bytesBuffer []))).
Proof.
  apply (X3_read_past_the_end_of_the_source [52; 18; 153] 4
           (handler (decoderStart (bytesBuffer [52; 18; 153])))).
  - cbn. lia.
  - reflexivity.
Defined.

(** X4: two bit fields of [a] and [b] bits that fit one byte
    ([a + b <= 8]) are taken from one byte [c] of the source, the low bits
    first: the first read returns [c mod 2^a], the second
    [(c / 2^a) mod 2^b], and no other byte is consumed. *)
Theorem X4_bit_fields_are_read_low_bits_first (a b c : Z) (rest : list Z)
    (d : decoder.state) :
  1 <= a -> 1 <= b -> a + b <= 8 -> isByte c ->
  decoder.bitOffset d = 0 -> pending (decoder.reader d) = c :: rest ->
  exists d1 d2,
    decoder.read a d = (Ok (c mod 2 ^ a), d1) /\
    decoder.read b d1 = (Ok ((c / 2 ^ a) mod 2 ^ b), d2) /\
    pending (decoder.reader d2) = rest /\
    decoder.currentByte d2 = c /\
    decoder.bitOffset d2 = (a + b) mod 8.
Proof.
  intros Ha Hb Hab Hc Hk Hp.
  unfold decoder.read at 1.
  destruct (Z.eqb_spec a 0) as [?|_]; [lia|].
  destruct (Z.ltb_spec a 8) as [_|?]; [|lia].
  rewrite Hk. cbn [Z.eqb]. unfold ReadByte. rewrite Hp.
  cbn [decoder.bitOffset decoder.currentByte decoder.reader decoder.byteOffset].
  rewrite ?Hk. rewrite !u64_small by lia.
  destruct (Z.ltb_spec (8 - 0) a) as [?|_]; [lia|].
  destruct (Z.leb_spec 8 (0 + a)) as [?|_]; [lia|].
  rewrite Z.shiftr_0_r, land_mask by lia.
  eexists. eexists. split; [reflexivity|].
  unfold decoder.read.
  destruct (Z.eqb_spec b 0) as [?|_]; [lia|].
  destruct (Z.ltb_spec b 8) as [_|?]; [|lia].
  cbn [decoder.bitOffset decoder.currentByte decoder.reader decoder.byteOffset].
  destruct (Z.eqb_spec (0 + a) 0) as [?|_]; [lia|].
  cbn [decoder.bitOffset decoder.currentByte decoder.reader decoder.byteOffset].
  rewrite !u64_small by lia.
  destruct (Z.ltb_spec (8 - (0 + a)) b) as [?|_]; [lia|].
  rewrite land_mask, Z.shiftr_div_pow2 by lia.
  rewrite Z.add_0_l.
  split; [reflexivity|].
  cbn [decoder.bitOffset decoder.currentByte decoder.reader pending].
  split; [reflexivity|]. split; [reflexivity|].
  destruct (Z.leb_spec 8 (a + b)) as [Hge|Hlt].
  - assert (a + b = 8) as -> by lia. reflexivity.
  - rewrite Z.mod_small; lia.
Qed.

Lemma X4_witness :
  exists d1 d2,
    decoder.read 3 (handler (decoderStart (bytesBuffer [181; 7]))) = (Ok (181 mod 2 ^ 3), d1) /\
    decoder.read 5 d1 = (Ok ((181 / 2 ^ 3) mod 2 ^ 5), d2) /\
    pending (decoder.reader d2) = [7] /\
    decoder.currentByte d2 = 181 /\
    decoder.bitOffset d2 = (3 + 5) mod 8.
Proof.
  apply (X4_bit_fields_are_read_low_bits_first 3 5 181 [7]
           (handler (decoderStart (bytesBuffer [181; 7])))).
  - lia.
  - lia.
  - lia.
  - unfold isByte. lia.
  - reflexivity.
  - reflexivity.
Defined.

(** ** Fields, slices and references on decode *)

Lemma toSigned_value (b w raw : Z) :
  0 < w <= b -> 0 <= raw < 2 ^ w ->
  toSigned b raw = if (w =? b) && (2 ^ (w - 1) <=? raw) then raw - 2 ^ w else raw.
Proof.
  intros Hw Hraw. unfold toSigned.
  assert (2 ^ w <= 2 ^ b) by (apply Z.pow_le_mono_r; lia).
  rewrite Z.mod_small by lia.
  destruct (Z.eqb_spec w b) as [->|Hne]; cbn [andb].
  - destruct (Z.ltb_spec raw (2 ^ (b - 1))), (Z.leb_spec (2 ^ (b - 1)) raw); try lia; reflexivity.
  - assert (2 ^ w <= 2 ^ (b - 1)) by (apply Z.pow_le_mono_r; lia).
    destruct (Z.ltb_spec raw (2 ^ (b - 1))); [reflexivity|lia].
Qed.

(** X5: a signed field read at the full width of its kind gets the
    two's-complement value of the bits; read at a narrower width it gets the
    number read as it is, which is never negative. *)
Theorem X5_signed_fields_sign_extend_only_at_full_width
    (v : Value) (tg : tags) (d d' : decoder.state) (raw : Z) :
  let w := nbits (tags_bitfield tg) in
  CanSet v = true -> isIntKind (VKind v) = true ->
  0 < w <= intBits (VKind v) ->
  decoder.read w d = (Ok raw, d') -> 0 <= raw < 2 ^ w ->
  decoder.readValue v (Some tg) d
  = (Ok raw,
     DBasic (VKind v)
       (if (w =? intBits (VKind v)) && (2 ^ (w - 1) <=? raw) then raw - 2 ^ w else raw),
     d').
Proof.
  intros w Hset Hk Hw Hread Hraw. unfold decoder.readValue, decoder.width.
  rewrite Hset. cbn [negb]. fold w.
  destruct (VKind v) eqn:E; try discriminate Hk;
    cbn [reflect.Kind_eqb KindBits bind intBits] in *; unfold intSize;
    rewrite u64_small by lia;
    match goal with |- context [?a <? w] => destruct (Z.ltb_spec a w); [lia|] end;
    rewrite Hread; cbn [decoder.store];
    rewrite (toSigned_value _ w raw) by lia; reflexivity.
Qed.

Lemma X5_witness :
  decoder.readValue (settable (DBasic reflect.Int8 0)) (Some (bitsTags 8))
    (handler (decoderStart (bytesBuffer [254])))
  = (Ok 254, DBasic reflect.Int8 (-2), handler (decoderStart (bytesBuffer []))).
Proof.
  apply (X5_signed_fields_sign_extend_only_at_full_width
           (settable (DBasic reflect.Int8 0)) (bitsTags 8)
           (handler (decoderStart (bytesBuffer [254])))
           (handler (decoderStart (bytesBuffer []))) 254).
  - reflexivity.
  - reflexivity.
  - cbn. lia.
  - reflexivity.
  - cbn. lia.
Defined.

(** X6: [Decode] into a struct passed by value, not through a pointer,
    fails at the first scalar field with the cannot-be-set error, reads
    nothing and leaves the struct as it was. *)
Theorem X6_Decode_into_a_struct_passed_by_value_fails
    (fuel : nat) (rd : ByteReader) (n : string) (tg : StructTag) (k : reflect.Kind)
    (x : Z) (rest : list (string * StructTag * data)) (tags : tags) :
  isBasicKind k = true ->
  parseFieldTags {| Name := n; Tag := tg; Type_ := TBasic k |} = Ok tags ->
  format (tags_layout tags) = none ->
  decoder.Decode (S fuel) rd (DStruct ((n, tg, DBasic k x) :: rest))
  = (Fail (Err (FieldCannotBeSet k)), DStruct ((n, tg, DBasic k x) :: rest), rd).
Proof.
  intros Hk Hparse Hfmt. unfold decoder.Decode.
  cbn [transcode ValueOf val transcodeFields typeOf].
  rewrite Hparse.
  rewrite transcodeField_cannot_set; [reflexivity|reflexivity|exact Hk|left; exact Hfmt].
Qed.

Lemma X6_witness :
  decoder.Decode 1 (bytesBuffer [7]) (DStruct [("A", notag, U8 0); ("B", notag, U8 0)])
  = (Fail (Err (FieldCannotBeSet reflect.Uint8)),
     DStruct [("A", notag, U8 0); ("B", notag, U8 0)], bytesBuffer [7]).
Proof.
  apply (X6_Decode_into_a_struct_passed_by_value_fails 0 (bytesBuffer [7]) "A" notag
           reflect.Uint8 0 [("B", notag, U8 0)] (bitsTags 8)).
  - reflexivity.
  - reflexivity.
  - reflexivity.
Defined.

(** X7: a slice that no [sizeOf] or [countOf] field governs is decoded in
    place: whatever the call returns, the slice keeps its length, and an
    empty slice reads nothing. *)
Theorem X7_slice_without_reference_keeps_its_length
    (rec : walk decoder.state) (arr : Value) (tags : tags) (t : transcoder decoder.state) :
  (forall st x t', decoder.slice rec arr tags None t = (st, x, t') ->
     exists vs, x = DSlice (elemType (val arr)) vs /\
                length vs = length (elements (val arr))) /\
  (elements (val arr) = [] ->
     decoder.slice rec arr tags None t = (Ok tt, DSlice (elemType (val arr)) [], t)).
Proof.
  unfold decoder.slice. split.
  - intros st x t'.
    pose proof (sliceLoop_length rec
                  {| flagAddr := flagAddr arr; flagRO := flagRO arr; val := val arr |}
                  tags (elements (val arr)) t) as Hlen.
    destruct (decoder.sliceLoop rec _ tags (elements (val arr)) t) as [[st1 vs] t1].
    intros [= <- <- <-]. exists vs. split; [reflexivity|exact Hlen].
  - intros ->. reflexivity.
Qed.

(** X8: a slice governed by a [countOf] field is resized to the count
    before any element is read: a count from [2^63] on panics in
    [reflect.MakeSlice], a count whose elements take more than [maxAlloc]
    bytes of memory panics in the allocation, a slice that cannot be set
    panics in [Set], otherwise the slice has exactly [c] elements after the
    call, and a count of zero gives the empty slice without reading. *)
Theorem X8_countOf_value_becomes_the_length
    (rec : walk decoder.state) (arr : Value) (tags : tags) (ref : tagReference)
    (t : transcoder decoder.state) :
  let c := value (tags_layout (ref_tags ref)) in
  let mem := memSize (elemType (val arr)) * c in
  format (tags_layout (ref_tags ref)) = countOf ->
  (2 ^ 63 <= c ->
     decoder.slice rec arr tags (Some ref) t
     = (Fail (Panic ReflectMakeSliceNegativeLen), val arr, t)) /\
  (0 <= c < 2 ^ 63 -> maxAlloc < mem ->
     decoder.slice rec arr tags (Some ref) t
     = (Fail (Panic RuntimeAllocationSizeOutOfRange), val arr, t)) /\
  (0 <= c < 2 ^ 63 -> mem <= maxAlloc -> CanSet arr = false ->
     decoder.slice rec arr tags (Some ref) t
     = (Fail (Panic ReflectSetUnaddressable), val arr, t)) /\
  (0 <= c < 2 ^ 63 -> mem <= maxAlloc -> CanSet arr = true ->
     forall st x t',
       decoder.slice rec arr tags (Some ref) t = (st, x, t') ->
       exists vs, x = DSlice (elemType (val arr)) vs /\ Z.of_nat (length vs) = c) /\
  (c = 0 -> CanSet arr = true ->
     decoder.slice rec arr tags (Some ref) t = (Ok tt, DSlice (elemType (val arr)) [], t)).
Proof.
  intros c mem Hfmt. unfold decoder.slice, decoder.sliceLength, decoder.makeSlice.
  rewrite Hfmt. cbn [bind]. fold c. fold mem.
  split; [|split; [|split; [|split]]].
  - intros Hc. destruct (Z.leb_spec (2 ^ 63) c) as [_|?]; [reflexivity|lia].
  - intros Hc Hmem. destruct (Z.leb_spec (2 ^ 63) c) as [?|_]; [lia|].
    destruct (Z.ltb_spec maxAlloc mem) as [_|?]; [reflexivity|lia].
  - intros Hc Hmem Hset. destruct (Z.leb_spec (2 ^ 63) c) as [?|_]; [lia|].
    destruct (Z.ltb_spec maxAlloc mem) as [?|_]; [lia|].
    rewrite Hset. reflexivity.
  - intros Hc Hmem Hset st x t'.
    destruct (Z.leb_spec (2 ^ 63) c) as [?|_]; [lia|].
    destruct (Z.ltb_spec maxAlloc mem) as [?|_]; [lia|].
    rewrite Hset. cbn [negb elements elemType val].
    match goal with |- context [decoder.sliceLoop rec ?a tags ?l t] =>
      pose proof (sliceLoop_length rec a tags l t) as Hlen;
      destruct (decoder.sliceLoop rec a tags l t) as [[st1 vs] t1] end.
    intros [= <- <- <-]. exists vs. split; [reflexivity|].
    cbn in Hlen. rewrite Hlen, repeat_length. lia.
  - intros Hc Hset.
    assert (mem = 0) as Hmem by (unfold mem; rewrite Hc; apply Z.mul_0_r).
    rewrite Hmem, Hc.
    destruct (Z.leb_spec (2 ^ 63) 0) as [?|_]; [lia|].
    destruct (Z.ltb_spec maxAlloc 0) as [Hneg|_];
      [vm_compute in Hneg; discriminate|].
    rewrite Hset. reflexivity.
Qed.

Lemma X7_witness :
  decoder.slice (transcode decoder.Handler 1) wordSlice nineBits None
    (decoderStart (bytesBuffer [1; 2]))
  = (Ok tt, DSlice (TBasic reflect.Uint16) [], decoderStart (bytesBuffer [1; 2])).
Proof.
  apply (proj2 (X7_slice_without_reference_keeps_its_length
                  (transcode decoder.Handler 1) wordSlice nineBits
                  (decoderStart (bytesBuffer [1; 2])))).
  reflexivity.
Defined.

Lemma X8_witness :
  decoder.slice (transcode decoder.Handler 1) wordSlice nineBits (Some (countRef 0))
    (decoderStart (bytesBuffer [1; 0; 2; 0]))
  = (Ok tt, DSlice (TBasic reflect.Uint16) [], decoderStart (bytesBuffer [1; 0; 2; 0])).
Proof.
  apply (X8_countOf_value_becomes_the_length (transcode decoder.Handler 1) wordSlice
           nineBits (countRef 0) (decoderStart (bytesBuffer [1; 0; 2; 0]))).
  - reflexivity.
  - reflexivity.
  - reflexivity.
Defined.

Lemma transcodeField_layout {H} (h : Handler H) (rec : walk H) (v : Value) (n : string)
    (k : reflect.Kind) (x : Z) (tags : tags) (t : transcoder H) :
  isBasicKind k = true -> format (tags_layout tags) <> none ->
  transcodeField h rec v n (DBasic k x) tags t
  = match fieldByName t (name (tags_layout tags)) with
    | None => (Fail (Err (CannotLocateFieldName (name (tags_layout tags)))), DBasic k x, t)
    | Some found =>
        if negb (isSequenceKind (VKind found)) then
          (Fail (Err (ReferencedLayoutNotSequence (VKind found))), DBasic k x, t)
        else
          let '(st, ref, hs) :=
            h_layout h found {| ref_value := FieldOf v n (DBasic k x); ref_tags := tags |}
              (handler t) in
          match st with
          | Ok _ => (Ok tt, val (ref_value ref), with_ref t (name (tags_layout tags)) ref hs)
          | Fail f => (Fail f, val (ref_value ref), with_handler t hs)
          end
    end.
Proof.
  intros Hk Hfmt. unfold transcodeField.
  assert (isNone (format (tags_layout tags)) = false) as Hn.
  { destruct (format (tags_layout tags)); [contradiction|reflexivity|reflexivity]. }
  rewrite Hn. cbn [negb].
  destruct k; try discriminate Hk; reflexivity.
Qed.

(** X9: a [sizeOf] or [countOf] tag must name an array or a slice among
    the fields of the enclosing structs. With any handler, the walk of a
    struct whose first field carries such a tag stops there with the
    cannot-locate error when no field has the name, and with the
    not-a-sequence error when the field found is neither an array nor a
    slice; the handler is not called. *)
Theorem X9_layout_reference_must_name_a_sequence {H} (h : Handler H) (fuel : nat) (s : H)
    (n : string) (tg : StructTag) (k : reflect.Kind) (x : Z)
    (rest : list (string * StructTag * data)) (tags : tags) :
  let fs := (n, tg, DBasic k x) :: rest in
  let run := transcode h (S fuel) (ValueOf (DStruct fs)) (newTranscoder s) in
  isBasicKind k = true ->
  parseFieldTags {| Name := n; Tag := tg; Type_ := TBasic k |} = Ok tags ->
  format (tags_layout tags) <> none ->
  (lookupField fs (name (tags_layout tags)) = None ->
     fst run = (Fail (Err (CannotLocateFieldName (name (tags_layout tags)))), DStruct fs) /\
     handler (snd run) = s) /\
  (forall d, lookupField fs (name (tags_layout tags)) = Some d ->
     isSequenceKind (Kind (typeOf d)) = false ->
     fst run = (Fail (Err (ReferencedLayoutNotSequence (Kind (typeOf d)))), DStruct fs) /\
     handler (snd run) = s).
Proof.
  intros fs run Hk Hparse Hfmt.
  assert (Hrun : run
    = let '(st, fs', t') :=
        (let '(st, d', t') :=
           transcodeField h (transcode h fuel) (ValueOf (DStruct fs)) n (DBasic k x) tags
             (with_backtrace (newTranscoder s)
                (push (backtrace (newTranscoder s)) (ValueOf (DStruct fs)))) in
         match st with
         | Ok _ =>
             let '(st', rest', t'') :=
               transcodeFields h (transcode h fuel) (ValueOf (DStruct fs)) rest t' in
             (st', (n, tg, d') :: rest', t'')
         | Fail f => (Fail f, (n, tg, d') :: rest, t')
         end) in
      (st, DStruct fs', with_backtrace t' (pop (backtrace t')))).
  { unfold run, fs. cbn [transcode ValueOf val transcodeFields typeOf].
    rewrite Hparse. reflexivity. }
  rewrite Hrun, transcodeField_layout by assumption.
  unfold fieldByName.
  cbn [with_backtrace backtrace newTranscoder push vals len app length searchFrames
       lookup list_lookup FieldByName ValueOf val].
  split.
  - intros Hnone. rewrite Hnone. split; reflexivity.
  - intros d Hsome Hseq. rewrite Hsome. unfold VKind. cbn [FieldOf val].
    rewrite Hseq. split; reflexivity.
Qed.

Lemma X9_witness :
  fst (transcode (encoder.Handler (size 1)) 1
         (ValueOf (DStruct [("N", bare "sizeOf" "Ss", U8 0); ("B", notag, U8 1)]))
         (newTranscoder (encoderStart unbounded)))
  = (Fail (Err (CannotLocateFieldName "Ss")),
     DStruct [("N", bare "sizeOf" "Ss", U8 0); ("B", notag, U8 1)]) /\
  handler (snd (transcode (encoder.Handler (size 1)) 1
                  (ValueOf (DStruct [("N", bare "sizeOf" "Ss", U8 0); ("B", notag, U8 1)]))
                  (newTranscoder (encoderStart unbounded))))
  = encoderStart unbounded.
Proof.
  apply (proj1 (X9_layout_reference_must_name_a_sequence (encoder.Handler (size 1)) 0
                  (encoderStart unbounded) "N" (bare "sizeOf" "Ss") reflect.Uint8 0
                  [("B", notag, U8 1)] (ref_tags (sizeRef 0))
                  eq_refl eq_refl ltac:(discriminate))).
  reflexivity.
Defined.

(** ** A count and its bytes *)

Lemma read_one_byte (b : Z) (rest : list Z) (d : decoder.state) :
  isByte b -> pending (decoder.reader d) = b :: rest ->
  decoder.read 8 d
  = (Ok b, decoder.with_reader d
             {| pending := rest; exhausted := exhausted (decoder.reader d) |}).
Proof.
  intros Hb Hp.
  pose proof (readBytes_little_endian [b] rest 0 0 d ltac:(lia) ltac:(cbn; lia)
                ltac:(constructor; [exact Hb|constructor]) Hp) as Hr.
  cbn [length leValue] in Hr. rewrite Z.shiftl_0_r, Z.mul_0_r, Z.add_0_r in Hr.
  exact Hr.
Qed.

Lemma readValue_byte (v : Value) (x b : Z) (rest : list Z) (tgo : option tags)
    (d : decoder.state) :
  CanSet v = true -> val v = U8 x ->
  match tgo with Some tg => nbits (tags_bitfield tg) = 8 | None => True end ->
  isByte b -> pending (decoder.reader d) = b :: rest ->
  decoder.readValue v tgo d
  = (Ok b, U8 b, decoder.with_reader d
                   {| pending := rest; exhausted := exhausted (decoder.reader d) |}).
Proof.
  intros Hset Hv Htg Hb Hp. unfold decoder.readValue, decoder.width, VKind.
  rewrite Hset, Hv. cbn [negb typeOf Kind U8 reflect.Kind_eqb KindBits bind].
  assert (match tgo with
          | Some tg =>
              if u64 8 <? nbits (tags_bitfield tg)
              then Fail (Err (BitfieldExceedsFieldSize reflect.Uint8
                                (nbits (tags_bitfield tg)) (u64 8)))
              else Ok (nbits (tags_bitfield tg))
          | None => Ok (u64 8)
          end = Ok 8) as ->.
  { destruct tgo as [tg|]; [rewrite Htg|]; reflexivity. }
  rewrite (read_one_byte b rest d Hb Hp). cbn [decoder.store].
  unfold isByte in Hb. change (2 ^ 8) with 256. rewrite Z.mod_small by lia. reflexivity.
Qed.

Lemma transcode_scalar {H} (h : Handler H) (fuel : nat) (v : Value) (k : reflect.Kind)
    (n : Z) (t : transcoder H) :
  val v = DBasic k n ->
  transcode h (S fuel) v t
  = let '(st, d', hs) := h_field h v None (handler t) in (st, d', with_handler t hs).
Proof. intros Hv. cbn [transcode]. rewrite Hv. reflexivity. Qed.

Lemma IndexOf_slice (arr : Value) (e : type) (vs : list data) (x : data) :
  val arr = DSlice e vs ->
  IndexOf arr x = {| flagAddr := true; flagRO := flagRO arr; val := x |}.
Proof. intros Harr. unfold IndexOf. rewrite Harr. reflexivity. Qed.

(** The loop of [decoder.slice] over a slice of bytes. *)
Lemma sliceLoop_bytes (fuel : nat) (arr : Value) (tags : tags) (bs extra : list Z)
    (t : transcoder decoder.state) :
  (exists e vs, val arr = DSlice e vs) -> flagRO arr = false ->
  Forall isByte bs ->
  pending (decoder.reader (handler t)) = bs ++ extra ->
  decoder.sliceLoop (transcode decoder.Handler (S fuel)) arr tags
    (repeat (U8 0) (length bs)) t
  = (Ok tt, map U8 bs,
     with_handler t (decoder.with_reader (handler t)
                       {| pending := extra;
                          exhausted := exhausted (decoder.reader (handler t)) |})).
Proof.
  intros (e & vs & Harr) Hro. revert t.
  induction bs as [|b bs IH]; intros t Hbs Hp.
  - cbn [length repeat decoder.sliceLoop map].
    destruct t as [[[p x] c bo bi] fm bt]. cbn in Hp. subst p. reflexivity.
  - inversion Hbs as [|? ? Hb Hbs']; subst.
    cbn [length repeat decoder.sliceLoop map].
    rewrite (IndexOf_slice arr e vs _ Harr), Hro.
    rewrite (transcode_scalar decoder.Handler fuel _ reflect.Uint8 0 t) by reflexivity.
    cbn [h_field decoder.Handler]. unfold decoder.field.
    rewrite (readValue_byte _ 0 b (bs ++ extra) None (handler t));
      [|reflexivity|reflexivity|constructor|exact Hb|exact Hp].
    cbn [decoder.nilOr].
    rewrite IH; [|exact Hbs'|reflexivity].
    reflexivity.
Qed.

Lemma parse_Count :
  parseFieldTags {| Name := "Count"; Tag := bare "countOf" "Ts"; Type_ := TBasic reflect.Uint8 |}
  = Ok (countTags 0).
Proof. vm_compute. reflexivity. Qed.

Lemma parse_Ts :
  parseFieldTags {| Name := "Ts"; Tag := notag; Type_ := TSlice (TBasic reflect.Uint8) |}
  = Ok (bitsTags 0).
Proof. vm_compute. reflexivity. Qed.

Lemma transcode_ptr {H} (h : Handler H) (fuel : nat) (v : Value) (e : type) (d : data)
    (t : transcoder H) :
  val v = DPtr e (Some d) ->
  transcode h (S fuel) v t
  = let '(st, d', t') :=
      transcode h fuel {| flagAddr := true; flagRO := flagRO v; val := d |} t in
    (st, DPtr e (Some d'), t').
Proof. intros Hv. cbn [transcode]. rewrite Hv. reflexivity. Qed.

Lemma transcode_struct {H} (h : Handler H) (fuel : nat) (v : Value)
    (fs : list (string * StructTag * data)) (t : transcoder H) :
  val v = DStruct fs ->
  transcode h (S fuel) v t
  = let '(st, fs', t') :=
      transcodeFields h (transcode h fuel) v fs
        (with_backtrace t (push (backtrace t) v)) in
    (st, DStruct fs', with_backtrace t' (pop (backtrace t'))).
Proof. intros Hv. cbn [transcode]. rewrite Hv. reflexivity. Qed.

(** A slice of bytes governed by a count that has been read. *)
Lemma decode_counted_slice (fuel : nat) (v : Value) (n : string) (olds : list data)
    (tags : tags) (ref : tagReference) (bs extra : list Z) (t : transcoder decoder.state) :
  flagAddr v = true -> flagRO v = false -> IsExported n = true ->
  fieldMap t !! n = Some ref ->
  format (tags_layout (ref_tags ref)) = countOf ->
  value (tags_layout (ref_tags ref)) = Z.of_nat (length bs) ->
  Z.of_nat (length bs) <= maxAlloc ->
  Forall isByte bs ->
  pending (decoder.reader (handler t)) = bs ++ extra ->
  transcodeField decoder.Handler (transcode decoder.Handler (S fuel)) v n
    (DSlice (TBasic reflect.Uint8) olds) tags t
  = (Ok tt, DSlice (TBasic reflect.Uint8) (map U8 bs),
     with_handler t (decoder.with_reader (handler t)
                       {| pending := extra;
                          exhausted := exhausted (decoder.reader (handler t)) |})).
Proof.
  intros Ha Hro Hn Href Hfmt Hval Hlen Hbs Hp.
  unfold transcodeField. cbn [typeOf Kind h_slice decoder.Handler].
  rewrite Href. unfold decoder.slice, decoder.sliceLength, decoder.makeSlice.
  rewrite Hfmt, Hval. cbn [bind].
  assert (maxAlloc < 2 ^ 63) as Hmax by reflexivity.
  destruct (Z.leb_spec (2 ^ 63) (Z.of_nat (length bs))) as [?|_]; [lia|].
  unfold FieldOf at 1. cbn [val elemType memSize KindSize].
  destruct (Z.ltb_spec maxAlloc (1 * Z.of_nat (length bs))) as [?|_]; [lia|].
  unfold CanSet, FieldOf. cbn [flagAddr flagRO val].
  rewrite Ha, Hro, Hn. cbn [negb andb orb elemType elements].
  rewrite Nat2Z.id.
  change (zero (TBasic reflect.Uint8)) with (U8 0).
  rewrite (sliceLoop_bytes fuel _ tags bs extra t);
    [reflexivity|eexists; eexists; reflexivity|reflexivity|exact Hbs|exact Hp].
Qed.

(** X10: [Decode] reads a count byte and then that many bytes into the
    slice the count governs, whatever the count field and the slice held
    before, and leaves the rest of the source unread. *)
Theorem X10_Decode_reads_a_counted_byte_slice
    (bs old extra : list Z) (c0 : Z) (eof : error) :
  Z.of_nat (length bs) < 256 -> Forall isByte bs ->
  decoder.Decode 3 {| pending := Z.of_nat (length bs) :: bs ++ extra; exhausted := eof |}
    (ptr (countedBytes c0 old))
  = (Ok tt, ptr (countedBytes (Z.of_nat (length bs)) bs),
     {| pending := extra; exhausted := eof |}).
Proof.
  intros Hlen Hbs. unfold decoder.Decode, ptr, countedBytes.
  erewrite (transcode_ptr decoder.Handler 2) by reflexivity.
  erewrite (transcode_struct decoder.Handler 1) by reflexivity.
  cbn [transcodeFields]. change (U8 c0) with (DBasic reflect.Uint8 c0). cbn [typeOf].
  rewrite parse_Count.
  rewrite transcodeField_layout; [|reflexivity|discriminate].
  unfold fieldByName.
  cbn [with_backtrace backtrace newTranscoder push vals len app length searchFrames
       lookup list_lookup FieldByName val lookupField String.eqb Ascii.eqb Bool.eqb
       countTags countRef ref_tags tags_layout name].
  cbn [VKind FieldOf val typeOf Kind isSequenceKind negb h_layout decoder.Handler].
  unfold decoder.layout. cbn [ref_value ref_tags handler].
  rewrite (readValue_byte _ c0 (Z.of_nat (length bs)) (bs ++ extra) (Some (countTags 0)));
    [|reflexivity|reflexivity|reflexivity|unfold isByte; lia|reflexivity].
  cbn [decoder.nilOr val ref_value].
  cbn [transcodeFields]. cbn [typeOf]. rewrite parse_Ts.
  erewrite (decode_counted_slice 0 _ "Ts" _ _ _ bs extra).
  - reflexivity.
  - reflexivity.
  - reflexivity.
  - reflexivity.
  - unfold with_ref. cbn [fieldMap]. apply lookup_insert_eq.
  - reflexivity.
  - reflexivity.
  - assert (2 ^ 8 < maxAlloc) by reflexivity. lia.
  - exact Hbs.
  - reflexivity.
Qed.

Lemma X10_witness :
  decoder.Decode 3 {| pending := 2 :: [12; 13] ++ [9]; exhausted := io_EOF |}
    (ptr (countedBytes 0 []))
  = (Ok tt, ptr (countedBytes 2 [12; 13]), {| pending := [9]; exhausted := io_EOF |}).
Proof.
  apply (X10_Decode_reads_a_counted_byte_slice [12; 13] [] [9] 0 io_EOF).
  - cbn. lia.
  - repeat (constructor; [unfold isByte; lia|]). constructor.
Defined.

(** One byte written on a byte boundary. *)
Lemma write_one_byte (b : Z) (e : encoder.state) :
  isByte b -> encoder.bitOffset e = 0 -> capacity (encoder.writer e) = None ->
  encoder.write b 8 e
  = (Ok tt, {| encoder.writer := appended (encoder.writer e) [b];
               encoder.currentByte := b;
               encoder.byteOffset := u64 (encoder.byteOffset e + 1);
               encoder.bitOffset := 0 |}).
Proof.
  intros Hb Hk Hc. unfold isByte in Hb. unfold encoder.write.
  destruct (Z.ltb_spec (2 ^ 64 - 1) b) as [?|_]; [lia|]. rewrite andb_false_r.
  rewrite Hk. cbn [Z.eqb negb].
  change (Z.to_nat (8 / 8)) with 1%nat.
  cbn [encoder.writeLoop Z.eqb Z.ltb Z.compare Pos.compare Pos.compare_cont].
  unfold encoder.set_current. cbn [encoder.currentByte encoder.writer].
  rewrite writeByte_unbounded by exact Hc. cbn [snd Z.sub Z.opp Z.add Z.pos_sub Z.eqb].
  cbn [encoder.writer encoder.byteOffset encoder.bitOffset encoder.currentByte].
  unfold u8. change (2 ^ 8) with 256. rewrite Z.mod_small by lia.
  rewrite Hk. reflexivity.
Qed.

(** The loop of [encoder.array] over a sequence of bytes. *)
Lemma arrayLoop_bytes (size : Value -> result Z) (fuel : nat) (arr : Value) (l : nat)
    (bs : list Z) (t : transcoder encoder.state) :
  Forall isByte bs ->
  encoder.bitOffset (handler t) = 0 -> capacity (encoder.writer (handler t)) = None ->
  exists t',
    encoder.arrayLoop (transcode (encoder.Handler size) (S fuel)) arr l (map U8 bs) t
    = (if (l <=? length bs)%nat then Ok tt else Fail (Panic ReflectIndexOutOfRange), t') /\
    encoder.writer (handler t') = appended (encoder.writer (handler t)) (firstn l bs) /\
    encoder.bitOffset (handler t') = 0 /\ fieldMap t' = fieldMap t.
Proof.
  intros Hbs. revert l t. induction Hbs as [|b bs Hb Hbs IH]; intros l t Hk Hc.
  - destruct l as [|l]; cbn [map encoder.arrayLoop length Nat.leb firstn];
      exists t; rewrite appended_nil; repeat split; assumption.
  - destruct l as [|l]; cbn [map encoder.arrayLoop length Nat.leb firstn].
    + exists t. rewrite appended_nil. repeat split; assumption.
    + rewrite (transcode_scalar (encoder.Handler size) fuel _ reflect.Uint8 b t)
        by (unfold IndexOf; destruct (val arr); reflexivity).
      cbn [h_field encoder.Handler]. unfold encoder.field.
      assert (getValue (IndexOf arr (U8 b)) = Ok b) as ->.
      { unfold getValue, IndexOf. destruct (val arr); reflexivity. }
      assert (KindBits (VKind (IndexOf arr (U8 b))) = Ok 8) as ->.
      { unfold VKind, IndexOf. destruct (val arr); reflexivity. }
      change (u64 8) with 8. rewrite (write_one_byte b (handler t) Hb Hk Hc).
      match goal with |- context [encoder.arrayLoop _ arr l (map U8 bs) ?t1] =>
        destruct (IH l t1) as (t' & Hrun & Hw & Hk' & Hfm) end.
      { reflexivity. }
      { cbn. exact Hc. }
      exists t'. rewrite Hrun. split; [reflexivity|].
      rewrite Hw, Hk', Hfm. cbn [with_handler handler fieldMap encoder.writer].
      rewrite appended_app. repeat split.
Qed.

(** A [countOf] field of one byte: the count written is the field itself, or
    the length of the sequence when the field is zero. *)
Lemma encode_count_field (size : Value -> result Z) (rec : walk encoder.state)
    (v found : Value) (n : string) (c : Z) (tags : tags) (t : transcoder encoder.state) :
  format (tags_layout tags) = countOf -> nbits (tags_bitfield tags) = 8 ->
  fieldByName t (name (tags_layout tags)) = Some found ->
  isSequenceKind (VKind found) = true ->
  0 <= c < 256 -> Len found < 256 ->
  encoder.bitOffset (handler t) = 0 -> capacity (encoder.writer (handler t)) = None ->
  exists e',
    transcodeField (encoder.Handler size) rec v n (DBasic reflect.Uint8 c) tags t
    = (Ok tt, DBasic reflect.Uint8 c,
       with_ref t (name (tags_layout tags))
         {| ref_value := FieldOf v n (DBasic reflect.Uint8 c); ref_tags := tags |} e') /\
    encoder.writer e'
    = appended (encoder.writer (handler t)) [if c =? 0 then Len found else c] /\
    encoder.bitOffset e' = 0.
Proof.
  intros Hfmt Hbits Hfound Hseq Hc Hlen Hk Hcap.
  rewrite transcodeField_layout; [|reflexivity|rewrite Hfmt; discriminate].
  rewrite Hfound, Hseq. cbn [negb h_layout encoder.Handler].
  unfold encoder.layout, sizer.layoutValue, IsZero, getValue.
  cbn [ref_value ref_tags FieldOf val IsZeroData isUintKind].
  rewrite Hfmt, Hbits.
  assert (Hlen0 : 0 <= Len found) by (unfold Len; lia).
  destruct (c =? 0);
    rewrite write_one_byte by (try assumption; unfold isByte; lia);
    eexists; (split; [reflexivity|split; reflexivity]).
Qed.

(** The sequence of bytes that the count governs. *)
Lemma encode_counted_slice (size : Value -> result Z) (fuel : nat) (v : Value) (n : string)
    (c : Z) (bs : list Z) (tags : tags) (ref : tagReference)
    (t : transcoder encoder.state) :
  let l := if c =? 0 then length bs else Z.to_nat c in
  fieldMap t !! n = Some ref -> val (ref_value ref) = DBasic reflect.Uint8 c ->
  0 <= c < 256 -> Z.of_nat (length bs) < 2 ^ 63 -> Forall isByte bs ->
  encoder.bitOffset (handler t) = 0 -> capacity (encoder.writer (handler t)) = None ->
  exists t',
    transcodeField (encoder.Handler size) (transcode (encoder.Handler size) (S fuel)) v n
      (DSlice (TBasic reflect.Uint8) (map U8 bs)) tags t
    = (if (l <=? length bs)%nat then Ok tt else Fail (Panic ReflectIndexOutOfRange),
       DSlice (TBasic reflect.Uint8) (map U8 bs), t') /\
    encoder.writer (handler t') = appended (encoder.writer (handler t)) (firstn l bs).
Proof.
  intros l Href Hval Hc Hlen Hbs Hk Hcap.
  unfold transcodeField. cbn [typeOf Kind h_slice encoder.Handler].
  rewrite Href. unfold encoder.array, sizer.arrayLen, IsZero, Uint, Len.
  rewrite Hval. cbn [IsZeroData isUintKind orb FieldOf val elements].
  rewrite length_map.
  assert ((if negb (c =? 0) then Ok c else Ok (Z.of_nat (length bs)))
          = Ok (if c =? 0 then Z.of_nat (length bs) else c)) as ->.
  { destruct (c =? 0); reflexivity. }
  assert ((if 2 ^ 63 <=? (if c =? 0 then Z.of_nat (length bs) else c) then 0%nat
           else Z.to_nat (if c =? 0 then Z.of_nat (length bs) else c)) = l) as ->.
  { unfold l. destruct (c =? 0).
    - destruct (Z.leb_spec (2 ^ 63) (Z.of_nat (length bs))) as [Hbig|_].
      + lia.
      + apply Nat2Z.id.
    - destruct (Z.leb_spec (2 ^ 63) c) as [?|_]; [lia|reflexivity]. }
  destruct (arrayLoop_bytes size fuel
              (FieldOf v n (DSlice (TBasic reflect.Uint8) (map U8 bs)))
              l bs t Hbs Hk Hcap) as (t' & Hrun & Hw & _ & _).
  rewrite Hrun. exists t'. split; [reflexivity|exact Hw].
Qed.

(** X11: [Encode] of a count byte and the slice of bytes it governs. A
    count of zero is written as the length of the slice, followed by all
    the elements. A count [c] that is not zero is written as it is, followed
    by the first [c] elements; when the slice has fewer, [Encode] writes the
    elements there are and panics with an index out of range. *)
Theorem X11_Encode_writes_the_count_then_the_elements (c : Z) (bs : list Z) :
  let n := if c =? 0 then length bs else Z.to_nat c in
  0 <= c < 256 -> Z.of_nat (length bs) < 256 -> Forall isByte bs ->
  encoder.Encode 3 unbounded (countedBytes c bs)
  = (if (n <=? length bs)%nat then Ok tt else Fail (Panic ReflectIndexOutOfRange),
     appended unbounded ((if c =? 0 then Z.of_nat (length bs) else c) :: firstn n bs)).
Proof.
  intros n Hc Hlen Hbs. unfold encoder.Encode, countedBytes.
  erewrite (transcode_struct (encoder.Handler (size 3)) 2) by reflexivity.
  cbn [transcodeFields]. change (U8 c) with (DBasic reflect.Uint8 c). cbn [typeOf].
  rewrite parse_Count, parse_Ts.
  set (v := ValueOf (DStruct [("Count", bare "countOf" "Ts", DBasic reflect.Uint8 c);
                              ("Ts", notag, DSlice (TBasic reflect.Uint8) (map U8 bs))])).
  set (t0 := with_backtrace _ _).
  destruct (encode_count_field (size 3) (transcode (encoder.Handler (size 3)) 2) v
              (FieldOf v "Ts" (DSlice (TBasic reflect.Uint8) (map U8 bs)))
              "Count" c (countTags 0) t0) as (e1 & Hrun1 & Hw1 & Hk1);
    [reflexivity|reflexivity|reflexivity|reflexivity|exact Hc
    |unfold Len; cbn [FieldOf val elements]; rewrite length_map; exact Hlen
    |reflexivity|reflexivity|].
  rewrite Hrun1.
  match goal with |- context [transcodeField _ _ v "Ts" _ _ ?t1] =>
    destruct (encode_counted_slice (size 3) 1 v "Ts" c bs (bitsTags 0)
                {| ref_value := FieldOf v "Count" (DBasic reflect.Uint8 c);
                   ref_tags := countTags 0 |} t1) as (t2 & Hrun2 & Hw2) end;
    [apply lookup_insert_eq|reflexivity|exact Hc|lia|exact Hbs|exact Hk1| |].
  { cbn [with_ref handler]. rewrite Hw1. reflexivity. }
  rewrite Hrun2. fold n.
  assert (Hout : encoder.writer (handler t2)
                 = appended unbounded
                     ((if c =? 0 then Z.of_nat (length bs) else c) :: firstn n bs)).
  { rewrite Hw2. cbn [with_ref handler]. rewrite Hw1.
    unfold Len. cbn [FieldOf val elements]. rewrite length_map.
    rewrite appended_app. reflexivity. }
  destruct (n <=? length bs)%nat; cbn [transcodeFields with_backtrace handler];
    rewrite Hout; reflexivity.
Qed.

Lemma X11_witness :
  encoder.Encode 3 unbounded (countedBytes 1 [12; 13]) = (Ok tt, appended unbounded [1; 12]).
Proof.
  apply (X11_Encode_writes_the_count_then_the_elements 1 [12; 13]).
  - lia.
  - cbn. lia.
  - repeat (constructor; [unfold isByte; lia|]). constructor.
Defined.

(** ** The bit-level write *)

(** The loop of [write] from a byte boundary: whole bytes go to the sink, the
    bits that remain wait in [currentByte]. *)
Lemma writeLoop_bits (fuel : nat) (v n : Z) (e : encoder.state) :
  capacity (encoder.writer e) = None -> Forall isByte (written (encoder.writer e)) ->
  encoder.bitOffset e = 0 -> 0 <= n -> 0 <= v < 2 ^ n ->
  (Z.to_nat (n / 8) < fuel)%nat ->
  encOk (encoder.writeLoop fuel v n e) /\
  encoder.bitOffset (encoder.writeLoop fuel v n e) = n mod 8 /\
  encBits (encoder.writeLoop fuel v n e)
  = streamBits (written (encoder.writer e)) ++ bitsFrom (Z.to_nat n) 0 v.
Proof.
  revert v n e. induction fuel as [|fuel IH]; intros v n e Hcap Hbytes Hk Hn Hv Hfuel; [lia|].
  cbn [encoder.writeLoop].
  destruct (Z.eqb_spec n 0) as [->|Hnz].
  - split; [|split].
    + constructor; [exact Hcap|lia|right; exact Hk|exact Hbytes].
    + rewrite Hk. reflexivity.
    + unfold encBits. rewrite Hk. reflexivity.
  - destruct (Z.ltb_spec n 8) as [Hlt|Hge].
    + pose proof (pow2_le_256 n ltac:(lia)) as Hpw.
      assert (u8 v = v) as Hu8 by (unfold u8; change (2 ^ 8) with 256; apply Z.mod_small; lia).
      unfold encoder.set_bitOffset, encoder.set_current.
      cbn [encoder.writer encoder.currentByte encoder.byteOffset encoder.bitOffset].
      rewrite Hk, Hu8. rewrite u64_small by lia. rewrite Z.add_0_l.
      split; [|split].
      * constructor; cbn; [exact Hcap|lia|left; lia|exact Hbytes].
      * cbn. rewrite Z.mod_small by lia. reflexivity.
      * unfold encBits. cbn. reflexivity.
    + unfold encoder.set_current. cbn [encoder.currentByte].
      rewrite writeByte_unbounded by exact Hcap. cbn [snd].
      assert (0 <= Z.shiftr v 8 < 2 ^ (n - 8)) as Hv'.
      { rewrite Z.shiftr_div_pow2 by lia. split; [apply Z.div_pos; lia|].
        apply Z.div_lt_upper_bound; [lia|]. rewrite <- Z.pow_add_r by lia.
        replace (8 + (n - 8)) with n by lia. lia. }
      assert (n / 8 = (n - 8) / 8 + 1) as Hdiv.
      { replace n with ((n - 8) + 1 * 8) at 1 by lia. rewrite Z.div_add by lia. lia. }
      assert (0 <= (n - 8) / 8) by (apply Z.div_pos; lia).
      match goal with |- context [encoder.writeLoop fuel _ _ ?e2] =>
        destruct (IH (Z.shiftr v 8) (n - 8) e2) as (Hok & Ho & Hb) end.
      { cbn. exact Hcap. }
      { cbn. apply Forall_app. split; [exact Hbytes|]. constructor; [apply u8_isByte|constructor]. }
      { cbn. exact Hk. }
      { lia. }
      { exact Hv'. }
      { lia. }
      split; [exact Hok|]. split.
      * rewrite Ho. replace n with ((n - 8) + 1 * 8) at 2 by lia.
        rewrite Z.mod_add by lia. reflexivity.
      * rewrite Hb. cbn [encoder.writer appended written].
        rewrite streamBits_app, <- app_assoc. f_equal.
        replace (Z.to_nat n) with (8 + Z.to_nat (n - 8))%nat by lia.
        rewrite bitsFrom_app. f_equal.
        -- cbn [streamBits flat_map]. rewrite app_nil_r. unfold byteBits, u8.
           apply bitsFrom_mod_low. lia.
        -- rewrite bitsFrom_shiftr by lia. reflexivity.
Qed.

(** X12: [encoder.write] of a value that fits its width appends exactly
    the [n] low bits of the value to the bit stream, least significant
    first, also when the field runs across byte boundaries: whole bytes go
    to the sink and the bits that remain wait in [currentByte]. *)
Theorem X12_write_appends_the_low_bits_of_the_value (v n : Z) (e : encoder.state) :
  encOk e -> 0 < n <= 64 -> 0 <= v < 2 ^ n ->
  exists e',
    encoder.write v n e = (Ok tt, e') /\ encOk e' /\
    encoder.bitOffset e' = (encoder.bitOffset e + n) mod 8 /\
    encBits e' = encBits e ++ bitsFrom (Z.to_nat n) 0 v.
Proof.
  intros Hok Hn Hv.
  destruct (Z.eq_dec (encoder.bitOffset e) 0) as [Hk|Hk].
  - (* from a byte boundary *)
    destruct Hok as [Hcap Hoff Hpend Hbytes].
    destruct (writeLoop_bits (S (Z.to_nat (n / 8))) v n e Hcap Hbytes Hk ltac:(lia) Hv
                ltac:(lia)) as (Hok' & Ho & Hb).
    exists (encoder.writeLoop (S (Z.to_nat (n / 8))) v n e).
    assert (2 ^ n <= 2 ^ 64) by (apply Z.pow_le_mono_r; lia).
    split.
    { unfold encoder.write.
      destruct (Z.ltb_spec (2 ^ 64 - 1) v) as [?|_]; [lia|]. rewrite andb_false_r.
      rewrite Hk. reflexivity. }
    split; [exact Hok'|]. split.
    + rewrite Ho, Hk. reflexivity.
    + rewrite Hb. unfold encBits. rewrite Hk. cbn [Z.to_nat bitsFrom].
      rewrite app_nil_r. reflexivity.
  - destruct (Z.le_gt_cases (encoder.bitOffset e + n) 8) as [Hfit|Hcross].
    + (* within the byte under construction *)
      apply write_sub_byte; [exact Hok| |exact Hfit|exact Hv].
      destruct Hok as [_ Hoff _ _]. lia.
    + (* across the end of the byte under construction *)
      destruct Hok as [Hcap Hoff Hpend Hbytes].
      destruct Hpend as [Hpend|?]; [|contradiction].
      set (o := encoder.bitOffset e) in *.
      assert (2 ^ n <= 2 ^ 64) by (apply Z.pow_le_mono_r; lia).
      pose proof (pow2_le_256 o ltac:(lia)) as Hpo.
      set (c1 := Z.lor (encoder.currentByte e) (u8 (u64 (Z.shiftl v o)))).
      assert (isByte c1) as Hc1.
      { unfold isByte, c1. change 256 with (2 ^ 8). apply lor_below; [lia| |].
        - change (2 ^ 8) with 256. lia.
        - apply u8_isByte. }
      assert (byteBits c1
              = bitsFrom (Z.to_nat o) 0 (encoder.currentByte e)
                ++ bitsFrom (Z.to_nat (8 - o)) 0 v) as Hbits1.
      { unfold byteBits.
        replace 8%nat with (Z.to_nat o + Z.to_nat (8 - o))%nat by lia.
        rewrite <- (bitsFrom_merge (Z.to_nat o) (Z.to_nat (8 - o)) (encoder.currentByte e) v)
          by (rewrite Z2Nat.id by lia; exact Hpend).
        rewrite Z2Nat.id by lia.
        apply bitsFrom_ext. intros j Hj. unfold c1.
        rewrite !Z.lor_spec. f_equal. unfold u8, u64.
        rewrite !Z.testbit_mod_pow2 by lia.
        destruct (Z.ltb_spec (0 + j) 8) as [_|?]; [|lia].
        destruct (Z.ltb_spec (0 + j) 64) as [_|?]; [|lia].
        reflexivity. }
      assert (0 <= Z.shiftr v (8 - o) < 2 ^ (n - (8 - o))) as Hv'.
      { rewrite Z.shiftr_div_pow2 by lia.
        assert (0 < 2 ^ (8 - o)) by (apply Z.pow_pos_nonneg; lia).
        split; [apply Z.div_pos; lia|].
        apply Z.div_lt_upper_bound; [lia|]. rewrite <- Z.pow_add_r by lia.
        replace (8 - o + (n - (8 - o))) with n by lia. lia. }
      unfold encoder.write.
      destruct (Z.ltb_spec (2 ^ 64 - 1) v) as [?|_]; [lia|]. rewrite andb_false_r.
      fold o. destruct (Z.eqb_spec o 0) as [?|_]; [contradiction|]. cbn [negb].
      unfold encoder.set_current, encoder.set_bitOffset.
      cbn [encoder.writer encoder.currentByte encoder.byteOffset encoder.bitOffset].
      fold o. fold c1.
      rewrite !(u64_small (8 - o)) by lia.
      destruct (Z.ltb_spec n (8 - o)) as [?|_]; [lia|].
      rewrite writeByte_unbounded by exact Hcap. cbn [snd].
      cbn [encoder.writer encoder.currentByte encoder.byteOffset encoder.bitOffset].
      match goal with |- context [encoder.writeLoop ?f ?v' ?n' ?e3] =>
        destruct (writeLoop_bits f v' n' e3) as (Hok' & Ho & Hb);
        [..|exists (encoder.writeLoop f v' n' e3)] end.
      { exact Hcap. }
      { cbn. apply Forall_app. split; [exact Hbytes|]. constructor; [exact Hc1|constructor]. }
      { reflexivity. }
      { lia. }
      { exact Hv'. }
      { lia. }
      split; [reflexivity|]. split; [exact Hok'|]. split.
      * rewrite Ho. replace (o + n) with ((n - (8 - o)) + 1 * 8) by lia.
        rewrite Z.mod_add by lia. reflexivity.
      * rewrite Hb. unfold encBits. fold o. cbn [encoder.writer appended written].
        rewrite streamBits_app, <- !app_assoc. f_equal.
        cbn [streamBits flat_map]. rewrite app_nil_r, Hbits1, <- app_assoc. f_equal.
        replace (Z.to_nat n) with (Z.to_nat (8 - o) + Z.to_nat (n - (8 - o)))%nat by lia.
        rewrite bitsFrom_app. f_equal.
        rewrite bitsFrom_shiftr by lia. rewrite Z2Nat.id by lia. reflexivity.
Qed.

Lemma X12_witness :
  exists e',
    encoder.write 1023 10 sixBitsPending = (Ok tt, e') /\ encOk e' /\
    encoder.bitOffset e' = (encoder.bitOffset sixBitsPending + 10) mod 8 /\
    encBits e' = encBits sixBitsPending ++ bitsFrom (Z.to_nat 10) 0 1023.
Proof.
  apply (X12_write_appends_the_low_bits_of_the_value 1023 10 sixBitsPending).
  - constructor; cbn; [reflexivity|lia|left; lia|constructor].
  - lia.
  - lia.
Defined.

Lemma writeByte_full (b : Z) (e : encoder.state) (c : nat) :
  capacity (encoder.writer e) = Some c -> (c <= length (written (encoder.writer e)))%nat ->
  encoder.writeByte b e = (Fail (Err (overrun (encoder.writer e))), e).
Proof.
  intros Hc Hfull. unfold encoder.writeByte, WriteByte. rewrite Hc.
  destruct (Nat.leb_spec c (length (written (encoder.writer e)))) as [_|?]; [|lia].
  destruct e. reflexivity.
Qed.

Lemma writeLoop_full (fuel : nat) (v n : Z) (e : encoder.state) (c : nat) :
  capacity (encoder.writer e) = Some c -> (c <= length (written (encoder.writer e)))%nat ->
  encoder.writer (encoder.writeLoop fuel v n e) = encoder.writer e /\
  encoder.byteOffset (encoder.writeLoop fuel v n e) = encoder.byteOffset e.
Proof.
  revert v n e. induction fuel as [|fuel IH]; intros v n e Hc Hfull; [split; reflexivity|].
  cbn [encoder.writeLoop].
  destruct (n =? 0); [split; reflexivity|].
  destruct (n <? 8); [split; reflexivity|].
  rewrite (writeByte_full _ _ c) by assumption. cbn [snd].
  destruct (IH (Z.shiftr v 8) (n - 8) (encoder.set_current e (u8 v)) Hc Hfull) as [Hw Hb].
  rewrite Hw, Hb. split; reflexivity.
Qed.

(** X13: [encoder.write] never reports an error of the sink. On a sink
    that is full it returns [nil]; the sink and the byte offset are as they
    were, so that the bytes are dropped. *)
Theorem X13_write_reports_no_error_of_the_sink (v n : Z) (e : encoder.state) (c : nat) :
  capacity (encoder.writer e) = Some c -> (c <= length (written (encoder.writer e)))%nat ->
  0 <= v < 2 ^ 64 ->
  fst (encoder.write v n e) = Ok tt /\
  encoder.writer (snd (encoder.write v n e)) = encoder.writer e /\
  encoder.byteOffset (snd (encoder.write v n e)) = encoder.byteOffset e.
Proof.
  intros Hc Hfull Hv. unfold encoder.write.
  destruct (Z.ltb_spec (2 ^ 64 - 1) v) as [?|_]; [lia|]. rewrite andb_false_r.
  destruct (negb (encoder.bitOffset e =? 0)).
  - match goal with |- context [if ?b then _ else _] => destruct b end.
    + repeat split.
    + cbn [fst snd]. split; [reflexivity|].
      rewrite (writeByte_full _ _ c) by assumption. cbn [snd].
      match goal with |- context [encoder.writeLoop ?f ?v' ?n' ?e3] =>
        destruct (writeLoop_full f v' n' e3 c Hc Hfull) as [Hw Hb] end.
      rewrite Hw, Hb. split; reflexivity.
  - cbn [fst snd]. split; [reflexivity|].
    apply (writeLoop_full _ _ _ _ c); assumption.
Qed.

Lemma X13_witness :
  fst (encoder.write 4660 16 (encoderStart (fullSink [7]))) = Ok tt /\
  encoder.writer (snd (encoder.write 4660 16 (encoderStart (fullSink [7])))) = fullSink [7] /\
  encoder.byteOffset (snd (encoder.write 4660 16 (encoderStart (fullSink [7])))) = 0.
Proof.
  apply (X13_write_reports_no_error_of_the_sink 4660 16 (encoderStart (fullSink [7])) 1).
  - reflexivity.
  - cbn. lia.
  - lia.
Defined.

(** X14: [encoder.align] writes a pending partial byte as it is, then zero
    bytes up to the next multiple of the boundary: afterwards the byte offset
    is a multiple of the boundary and no bits are pending. *)
Theorem X14_align_flushes_then_pads_with_zero_bytes (boundary : Z) (e : encoder.state) :
  0 < boundary ->
  0 <= encoder.bitOffset e < 8 -> capacity (encoder.writer e) = None ->
  0 <= encoder.byteOffset e -> encoder.byteOffset e + boundary + 1 < 2 ^ 64 ->
  let flushed := if encoder.bitOffset e =? 0 then [] else [encoder.currentByte e] in
  let start := encoder.byteOffset e + Z.of_nat (length flushed) in
  let pad := Z.to_nat ((- start) mod boundary) in
  exists e',
    encoder.align boundary e = (Ok tt, e') /\
    encoder.writer e' = appended (encoder.writer e) (flushed ++ repeat 0 pad) /\
    encoder.byteOffset e' = start + Z.of_nat pad /\
    encoder.byteOffset e' mod boundary = 0 /\
    encoder.bitOffset e' = 0.
Proof. exact (align_flushes_and_pads boundary e). Qed.

Lemma X14_witness :
  exists e',
    encoder.align 4 afterOneByte = (Ok tt, e') /\
    encoder.writer e' = appended (encoder.writer afterOneByte) ([] ++ repeat 0 3) /\
    encoder.byteOffset e' = 1 + Z.of_nat 3 /\
    encoder.byteOffset e' mod 4 = 0 /\
    encoder.bitOffset e' = 0.
Proof.
  apply (X14_align_flushes_then_pads_with_zero_bytes 4 afterOneByte).
  - lia.
  - cbn. lia.
  - reflexivity.
  - cbn. lia.
  - cbn. lia.
Defined.

(** ** Byte order on encode *)

Lemma lor_disjoint (lo hi k : Z) :
  0 <= k -> 0 <= lo < 2 ^ k -> Z.lor lo (Z.shiftl hi k) = lo + hi * 2 ^ k.
Proof.
  intros Hk Hlo.
  rewrite <- Z.lxor_lor, <- Z.add_nocarry_lxor.
  - rewrite Z.shiftl_mul_pow2 by lia. reflexivity.
  - apply Z.bits_inj'. intros j Hj. rewrite Z.land_spec, Z.bits_0.
    destruct (Z.ltb_spec j k).
    + rewrite Z.shiftl_spec_low by lia. apply andb_false_r.
    + rewrite (testbit_small lo k j) by lia. reflexivity.
  - apply Z.bits_inj'. intros j Hj. rewrite Z.land_spec, Z.bits_0.
    destruct (Z.ltb_spec j k).
    + rewrite Z.shiftl_spec_low by lia. apply andb_false_r.
    + rewrite (testbit_small lo k j) by lia. reflexivity.
Qed.

Lemma leBytes_app (a b : nat) (v : Z) :
  leBytes (a + b) v = leBytes a v ++ leBytes b (Z.shiftr v (8 * Z.of_nat a)).
Proof.
  revert v. induction a as [|a IH]; intros v.
  - cbn [Nat.add leBytes app Z.of_nat Z.mul]. rewrite Z.shiftr_0_r. reflexivity.
  - cbn [Nat.add leBytes app]. rewrite IH, Z.shiftr_shiftr by lia.
    replace (8 + 8 * Z.of_nat a) with (8 * Z.of_nat (S a)) by lia. reflexivity.
Qed.

Lemma leBytes_low (m : nat) (k v : Z) :
  8 * Z.of_nat m <= k -> leBytes m (v mod 2 ^ k) = leBytes m v.
Proof.
  intros Hk. apply streamBits_inj; try apply leBytes_isByte.
  rewrite !leBytes_bits. apply bitsFrom_mod_low. lia.
Qed.

Lemma leBytes_halves (a b : nat) (lo hi : Z) :
  0 <= lo < 2 ^ (8 * Z.of_nat a) -> 0 <= hi ->
  leBytes (a + b) (Z.lor lo (Z.shiftl hi (8 * Z.of_nat a))) = leBytes a lo ++ leBytes b hi.
Proof.
  intros Hlo Hhi.
  assert (0 < 2 ^ (8 * Z.of_nat a)) by (apply Z.pow_pos_nonneg; lia).
  rewrite lor_disjoint by lia. rewrite leBytes_app. f_equal.
  - rewrite <- (leBytes_low a (8 * Z.of_nat a)) by lia.
    rewrite Z.mod_add by lia. rewrite Z.mod_small by lia. reflexivity.
  - rewrite Z.shiftr_div_pow2 by lia. rewrite Z.div_add by lia.
    rewrite Z.div_small by lia. reflexivity.
Qed.

Lemma shiftr_below (x a b : Z) :
  0 <= a -> 0 <= b -> 0 <= x < 2 ^ (a + b) -> 0 <= Z.shiftr x a < 2 ^ b.
Proof.
  intros Ha Hb Hx. rewrite Z.shiftr_div_pow2 by lia.
  assert (0 < 2 ^ a) by (apply Z.pow_pos_nonneg; lia).
  split; [apply Z.div_pos; lia|].
  apply Z.div_lt_upper_bound; [lia|]. rewrite <- Z.pow_add_r by lia. lia.
Qed.

Lemma lor_halves_below (lo hi k : Z) :
  0 <= k -> 0 <= lo < 2 ^ k -> 0 <= hi < 2 ^ k ->
  0 <= Z.lor lo (Z.shiftl hi k) < 2 ^ (k + k).
Proof.
  intros Hk Hlo Hhi. rewrite lor_disjoint by lia. rewrite Z.pow_add_r by lia. nia.
Qed.

Lemma ReverseBytes16_bytes (x : Z) :
  0 <= x < 2 ^ 16 ->
  0 <= ReverseBytes16 x < 2 ^ 16 /\ leBytes 2 (ReverseBytes16 x) = rev (leBytes 2 x).
Proof.
  intros Hx. unfold ReverseBytes16.
  pose proof (shiftr_below x 8 8 ltac:(lia) ltac:(lia) Hx) as Hhi.
  pose proof (Z.mod_pos_bound x (2 ^ 8) ltac:(lia)) as Hlo.
  split; [apply (lor_halves_below _ _ 8); lia|].
  rewrite (leBytes_halves 1 1) by (change (8 * Z.of_nat 1) with 8; lia).
  cbn [leBytes app rev]. unfold u8. rewrite Z.mod_mod by lia. reflexivity.
Qed.

Lemma ReverseBytes32_bytes (x : Z) :
  0 <= x < 2 ^ 32 ->
  0 <= ReverseBytes32 x < 2 ^ 32 /\ leBytes 4 (ReverseBytes32 x) = rev (leBytes 4 x).
Proof.
  intros Hx. unfold ReverseBytes32.
  pose proof (shiftr_below x 16 16 ltac:(lia) ltac:(lia) Hx) as Hhi.
  pose proof (Z.mod_pos_bound x (2 ^ 16) ltac:(lia)) as Hlo.
  destruct (ReverseBytes16_bytes _ Hhi) as [Hb1 Hr1].
  destruct (ReverseBytes16_bytes _ Hlo) as [Hb2 Hr2].
  split; [apply (lor_halves_below _ _ 16); lia|].
  rewrite (leBytes_halves 2 2) by (change (8 * Z.of_nat 2) with 16; lia).
  rewrite Hr1, Hr2, <- rev_app_distr. f_equal.
  rewrite (leBytes_low 2 16) by lia.
  rewrite (leBytes_app 2 2). reflexivity.
Qed.

Lemma ReverseBytes64_bytes (x : Z) :
  0 <= x < 2 ^ 64 ->
  0 <= ReverseBytes64 x < 2 ^ 64 /\ leBytes 8 (ReverseBytes64 x) = rev (leBytes 8 x).
Proof.
  intros Hx. unfold ReverseBytes64.
  pose proof (shiftr_below x 32 32 ltac:(lia) ltac:(lia) Hx) as Hhi.
  pose proof (Z.mod_pos_bound x (2 ^ 32) ltac:(lia)) as Hlo.
  destruct (ReverseBytes32_bytes _ Hhi) as [Hb1 Hr1].
  destruct (ReverseBytes32_bytes _ Hlo) as [Hb2 Hr2].
  split; [apply (lor_halves_below _ _ 32); lia|].
  rewrite (leBytes_halves 4 4) by (change (8 * Z.of_nat 4) with 32; lia).
  rewrite Hr1, Hr2, <- rev_app_distr. f_equal.
  rewrite (leBytes_low 4 32) by lia.
  rewrite (leBytes_app 4 4). reflexivity.
Qed.

(** What [reverse] hands to [write] for a kind of 16, 32 or 64 bits. *)
Lemma reverse_bytes (k : reflect.Kind) (v : Z) :
  wideBytes k <> 0%nat -> 0 <= v < 2 ^ 64 ->
  0 <= encoder.reverse k v < 2 ^ 64 /\
  leBytes (wideBytes k) (encoder.reverse k v) = rev (leBytes (wideBytes k) v).
Proof.
  intros Hk Hv.
  destruct k; try (exfalso; apply Hk; reflexivity); cbn [wideBytes encoder.reverse].
  - (* Int16 *)
    destruct (ReverseBytes16_bytes (u16 v)) as [Hb Hr];
      [apply Z.mod_pos_bound; lia|].
    split; [lia|]. rewrite Hr. unfold u16. rewrite (leBytes_low 2 16) by lia. reflexivity.
  - (* Int32 *)
    destruct (ReverseBytes32_bytes (u32 v)) as [Hb Hr];
      [apply Z.mod_pos_bound; lia|].
    split; [lia|]. rewrite Hr. unfold u32. rewrite (leBytes_low 4 32) by lia. reflexivity.
  - (* Int64 *)
    apply ReverseBytes64_bytes. exact Hv.
  - destruct (ReverseBytes16_bytes (u16 v)) as [Hb Hr];
      [apply Z.mod_pos_bound; lia|].
    split; [lia|]. rewrite Hr. unfold u16. rewrite (leBytes_low 2 16) by lia. reflexivity.
  - destruct (ReverseBytes32_bytes (u32 v)) as [Hb Hr];
      [apply Z.mod_pos_bound; lia|].
    split; [lia|]. rewrite Hr. unfold u32. rewrite (leBytes_low 4 32) by lia. reflexivity.
  - apply ReverseBytes64_bytes. exact Hv.
Qed.

(** X15: a field of 16, 32 or 64 bits tagged [big], written at its full
    width from a byte boundary, goes out most significant byte first: the
    bytes are those of the little-endian form in reverse order. *)
Theorem X15_big_endian_field_is_written_high_byte_first
    (value : Value) (tg : tags) (e : encoder.state) (v : Z) :
  let m := wideBytes (VKind value) in
  m <> 0%nat -> getValue value = Ok v -> 0 <= v < 2 ^ 64 ->
  tags_endian tg = big -> nbits (tags_bitfield tg) = 8 * Z.of_nat m ->
  encoder.bitOffset e = 0 -> capacity (encoder.writer e) = None ->
  exists e',
    encoder.field value (Some tg) e = (Ok tt, val value, e') /\
    encoder.writer e' = appended (encoder.writer e) (rev (leBytes m v)) /\
    encoder.bitOffset e' = 0.
Proof.
  intros m Hm Hget Hv Hbig Hbits Hk Hcap.
  destruct (reverse_bytes (VKind value) v Hm Hv) as [Hb Hr]. fold m in Hr.
  unfold encoder.field. rewrite Hget, Hbig, Hbits.
  unfold encoder.write.
  destruct (Z.ltb_spec (2 ^ 64 - 1) (encoder.reverse (VKind value) v)) as [?|_]; [lia|].
  rewrite andb_false_r, Hk. cbn [Z.eqb negb].
  destruct (writeLoop_bytes m (S (Z.to_nat (8 * Z.of_nat m / 8)))
              (encoder.reverse (VKind value) v) e) as (e' & Hrun & Hw & Ho).
  { rewrite Z.mul_comm, Z.div_mul by lia. lia. }
  { exact Hcap. }
  exists e'. rewrite Hrun. split; [reflexivity|].
  rewrite Hw, Hr, Ho. split; [reflexivity|exact Hk].
Qed.

Lemma X15_witness :
  exists e',
    encoder.field (ValueOf (U32 287454020)) (Some (bigTags 32)) (encoderStart unbounded)
    = (Ok tt, U32 287454020, e') /\
    encoder.writer e' = appended unbounded [17; 34; 51; 68] /\
    encoder.bitOffset e' = 0.
Proof.
  apply (X15_big_endian_field_is_written_high_byte_first (ValueOf (U32 287454020))
           (bigTags 32) (encoderStart unbounded) 287454020).
  - discriminate.
  - reflexivity.
  - lia.
  - reflexivity.
  - reflexivity.
  - reflexivity.
  - reflexivity.
Defined.

(** ** The sizer and the static size *)

(** X16: [sizer.addBits] keeps the count of spare bits below 8 and carries
    whole bytes into [nbytes]: the number of bits counted grows by exactly
    the bits added. *)
Theorem X16_addBits_carries_whole_bytes (n : Z) (s : sizer.state) :
  0 <= sizer.nbits_ s < 8 -> 0 <= sizer.nbytes s -> 0 <= n ->
  8 * sizer.nbytes s + sizer.nbits_ s + n < 2 ^ 64 ->
  0 <= sizer.nbits_ (sizer.addBits n s) < 8 /\
  0 <= sizer.nbytes (sizer.addBits n s) /\
  8 * sizer.nbytes (sizer.addBits n s) + sizer.nbits_ (sizer.addBits n s)
  = 8 * sizer.nbytes s + sizer.nbits_ s + n.
Proof.
  intros Hb Hy Hn Hfit. unfold sizer.addBits.
  cbn [sizer.nbits_ sizer.nbytes].
  rewrite (u64_small (sizer.nbits_ s + n)) by lia.
  pose proof (Z.div_mod (sizer.nbits_ s + n) 8 ltac:(lia)) as Hdm.
  pose proof (Z.mod_pos_bound (sizer.nbits_ s + n) 8 ltac:(lia)) as Hm.
  assert (0 <= (sizer.nbits_ s + n) / 8) by (apply Z.div_pos; lia).
  rewrite u64_small by lia. lia.
Qed.

Lemma X16_witness :
  0 <= sizer.nbits_ (sizer.addBits 13 (sizerAt 2 5)) < 8 /\
  0 <= sizer.nbytes (sizer.addBits 13 (sizerAt 2 5)) /\
  8 * sizer.nbytes (sizer.addBits 13 (sizerAt 2 5)) + sizer.nbits_ (sizer.addBits 13 (sizerAt 2 5))
  = 8 * 2 + 5 + 13.
Proof.
  apply (X16_addBits_carries_whole_bytes 13 (sizerAt 2 5)); cbn; lia.
Defined.

Lemma size_S (fuel : nat) (v : Value) :
  size (S fuel) v
  = let '(st, _, t) :=
      transcode (sizer.Handler (size fuel)) fuel v (newTranscoder (sizerAt 0 0)) in
    match st with
    | Fail f => Fail f
    | Ok _ =>
        if negb (sizer.nbits_ (handler t) =? 0) then Fail (Err LeftOverBits)
        else Ok (sizer.nbytes (handler t))
    end.
Proof. reflexivity. Qed.

(** X17: [size] of a struct whose first field is an empty array or slice
    panics with an index out of range: the sizer measures the first element
    of every sequence. *)
Theorem X17_size_of_an_empty_sequence_panics
    (fuel : nat) (n : string) (tg : StructTag) (d : data)
    (rest : list (string * StructTag * data)) (tags : tags) :
  isSequenceKind (Kind (typeOf d)) = true -> elements d = [] ->
  parseFieldTags {| Name := n; Tag := tg; Type_ := typeOf d |} = Ok tags ->
  size (S (S fuel)) (ValueOf (DStruct ((n, tg, d) :: rest)))
  = Fail (Panic ReflectIndexOutOfRange).
Proof.
  intros Hseq Hempty Hparse. rewrite (size_S (S fuel)).
  erewrite (transcode_struct _ fuel) by reflexivity.
  cbn [transcodeFields]. rewrite Hparse.
  assert (transcodeField (sizer.Handler (size (S fuel)))
            (transcode (sizer.Handler (size (S fuel))) fuel)
            (ValueOf (DStruct ((n, tg, d) :: rest))) n d tags
            (with_backtrace (newTranscoder (sizerAt 0 0))
               (push (backtrace (newTranscoder (sizerAt 0 0)))
                  (ValueOf (DStruct ((n, tg, d) :: rest)))))
          = (Fail (Panic ReflectIndexOutOfRange), d,
             with_backtrace (newTranscoder (sizerAt 0 0))
               (push (backtrace (newTranscoder (sizerAt 0 0)))
                  (ValueOf (DStruct ((n, tg, d) :: rest)))))) as Hfield.
  { unfold transcodeField.
    assert (sizer.array (size (S fuel))
              (transcode (sizer.Handler (size (S fuel))) fuel)
              (FieldOf (ValueOf (DStruct ((n, tg, d) :: rest))) n d) tags
              (fieldMap (with_backtrace (newTranscoder (sizerAt 0 0))
                          (push (backtrace (newTranscoder (sizerAt 0 0)))
                             (ValueOf (DStruct ((n, tg, d) :: rest))))) !! n)
              (with_backtrace (newTranscoder (sizerAt 0 0))
                 (push (backtrace (newTranscoder (sizerAt 0 0)))
                    (ValueOf (DStruct ((n, tg, d) :: rest)))))
            = (Fail (Panic ReflectIndexOutOfRange), d,
               with_backtrace (newTranscoder (sizerAt 0 0))
                 (push (backtrace (newTranscoder (sizerAt 0 0)))
                    (ValueOf (DStruct ((n, tg, d) :: rest)))))) as Harr.
    { unfold sizer.array, Index. cbn [FieldOf val]. rewrite Hempty. reflexivity. }
    destruct (Kind (typeOf d)); try discriminate Hseq;
      cbn [h_array h_slice sizer.Handler]; exact Harr. }
  rewrite Hfield. reflexivity.
Qed.

Lemma X17_witness :
  size 2 (ValueOf (DStruct [("Ts", notag, DSlice (TBasic reflect.Uint8) []);
                            ("B", notag, U8 1)]))
  = Fail (Panic ReflectIndexOutOfRange).
Proof.
  apply (X17_size_of_an_empty_sequence_panics 0 "Ts" notag (DSlice (TBasic reflect.Uint8) [])
           [("B", notag, U8 1)] (bitsTags 0)).
  - reflexivity.
  - reflexivity.
  - reflexivity.
Defined.

Lemma typeSize_struct (fs : list (string * StructTag * type)) :
  typeSize (TStruct fs) = structTypeSize fs 0 0.
Proof. reflexivity. Qed.

Lemma structTypeSize_cons (n : string) (tg : StructTag) (ft : type)
    (rest : list (string * StructTag * type)) (bytes bits : Z) :
  structTypeSize ((n, tg, ft) :: rest) bytes bits
  = do bits' <-
      match ft with
      | TArray l _ =>
          do sz <- typeSize ft;
          Ok (u64 (bits + u64 (u64 (sz * 8) * Z.of_nat l)))
      | TSlice _ => Fail (Err CannotDeductSliceLengthError)
      | _ =>
          do tags <- parseFieldTags {| Name := n; Tag := tg; Type_ := ft |};
          Ok (u64 (bits + nbits (tags_bitfield tags)))
      end;
    structTypeSize rest (u64 (bytes + bits' / 8)) (bits' mod 8).
Proof. reflexivity. Qed.

Lemma add_fails_by_panic (t : tags) (sf : StructField) (key val : string) (f : failure) :
  add t sf key val = Fail f -> exists p, f = Panic p.
Proof.
  unfold add, Bits, KindBits.
  repeat match goal with
         | |- context [if ?c then _ else _] => destruct c
         | |- context [match strconv.ParseInt0 ?a ?b with _ => _ end] =>
             destruct (strconv.ParseInt0 a b)
         | |- context [match Kind ?a with _ => _ end] => destruct (Kind a)
         end; cbn [bind]; try discriminate;
    repeat match goal with
           | |- context [match strconv.ParseInt0 ?a ?b with _ => _ end] =>
               destruct (strconv.ParseInt0 a b)
           end; try discriminate; intros [= <-]; eexists; reflexivity.
Qed.

Lemma parseRunes_fails_by_panic (sf : StructField) (opts : parseOptions)
    (runes : list ascii) (key val : string) (inKey inVal : bool) (t : tags) (f : failure) :
  parseRunes sf opts runes key val inKey inVal t = Fail f -> exists p, f = Panic p.
Proof.
  revert key val inKey inVal t.
  induction runes as [|r rest IH]; intros key val inKey inVal t; [discriminate|].
  cbn [parseRunes].
  repeat match goal with
         | |- context [if ?c then _ else _] => destruct c
         end;
    try apply IH;
    try (destruct (add t sf _ _) eqn:Hadd; cbn [bind];
         [apply IH|intros [= <-]; eapply add_fails_by_panic; exact Hadd]).
Qed.

Lemma parseFieldTags_fails_by_panic (sf : StructField) (f : failure) :
  parseFieldTags sf = Fail f -> exists p, f = Panic p.
Proof.
  unfold parseFieldTags, parseString.
  match goal with |- context [bind ?r _] => destruct r as [t|g] eqn:Hr end; cbn [bind].
  - destruct (structex (Tag sf)); apply parseRunes_fails_by_panic.
  - intros [= <-]. revert Hr. unfold Bits, KindBits.
    destruct (Kind (Type_ sf)); cbn [bind]; try discriminate;
      intros [= <-]; eexists; reflexivity.
Qed.

(** The walk of the sizer over flat fields and the loop of [structTypeSize]
    keep the same counters. *)
Lemma flat_fields_sizes (size : Value -> result Z) (rec : walk sizer.state) (v : Value)
    (fs : list (string * StructTag * data)) (t : transcoder sizer.state) :
  forallb flatField fs = true ->
  structTypeSize (fieldTypes fs) (sizer.nbytes (handler t)) (sizer.nbits_ (handler t))
  = match transcodeFields (sizer.Handler size) rec v fs t with
    | (Ok _, _, t') =>
        if sizer.nbits_ (handler t') =? 0 then Ok (sizer.nbytes (handler t'))
        else Fail (Err CannotDeductSliceLengthError)
    | (Fail f, _, _) => Fail f
    end.
Proof.
  revert t. induction fs as [|[[n tg] d] fs IH]; intros t Hflat.
  - reflexivity.
  - cbn [forallb] in Hflat. apply andb_prop in Hflat. destruct Hflat as [Hf Hflat].
    unfold flatField in Hf. destruct d as [k x| | | |]; try discriminate Hf.
    apply andb_prop in Hf. destruct Hf as [Hk Hnone].
    cbn [fieldTypes map typeOf]. fold (fieldTypes fs).
    rewrite structTypeSize_cons. cbn [transcodeFields typeOf].
    destruct (parseFieldTags {| Name := n; Tag := tg; Type_ := TBasic k |}) as [tags|f];
      cbn [bind]; [|reflexivity].
    assert (transcodeField (sizer.Handler size) rec v n (DBasic k x) tags t
            = (Ok tt, DBasic k x,
               with_handler t (sizer.addBits (nbits (tags_bitfield tags)) (handler t))))
      as ->.
    { unfold transcodeField. rewrite Hnone. cbn [negb].
      destruct k; try discriminate Hk; reflexivity. }
    specialize (IH (with_handler t (sizer.addBits (nbits (tags_bitfield tags)) (handler t)))
                  Hflat).
    cbn [with_handler handler sizer.addBits sizer.nbits_ sizer.nbytes] in IH.
    rewrite IH.
    destruct (transcodeFields (sizer.Handler size) rec v fs _) as [[[[]|f] fs'] t'];
      reflexivity.
Qed.

Lemma flat_fields_fail_by_panic (size : Value -> result Z) (rec : walk sizer.state)
    (v : Value) (fs fs' : list (string * StructTag * data)) (t t' : transcoder sizer.state)
    (f : failure) :
  forallb flatField fs = true ->
  transcodeFields (sizer.Handler size) rec v fs t = (Fail f, fs', t') ->
  exists p, f = Panic p.
Proof.
  revert fs' t t'. induction fs as [|[[n tg] d] fs IH]; intros fs' t t' Hflat; [discriminate|].
  cbn [forallb] in Hflat. apply andb_prop in Hflat. destruct Hflat as [Hf Hflat].
  unfold flatField in Hf. destruct d as [k x| | | |]; try discriminate Hf.
  apply andb_prop in Hf. destruct Hf as [Hk Hnone].
  cbn [transcodeFields typeOf].
  destruct (parseFieldTags {| Name := n; Tag := tg; Type_ := TBasic k |})
    as [tags|g] eqn:Hparse.
  - assert (transcodeField (sizer.Handler size) rec v n (DBasic k x) tags t
            = (Ok tt, DBasic k x,
               with_handler t (sizer.addBits (nbits (tags_bitfield tags)) (handler t))))
      as ->.
    { unfold transcodeField. rewrite Hnone. cbn [negb].
      destruct k; try discriminate Hk; reflexivity. }
    destruct (transcodeFields (sizer.Handler size) rec v fs _) as [[[[]|g] fs1] t1] eqn:Hrun;
      [discriminate|].
    intros [= <- _ _]. eapply IH; [exact Hflat|exact Hrun].
  - intros [= <- _ _]. eapply parseFieldTags_fails_by_panic. exact Hparse.
Qed.

(** X18: on a struct whose fields are scalars without a layout role,
    [typeSize] of the type and [size] of a value agree: they return the same
    number of bytes, or they both fail (left-over bits are reported by
    [typeSize] as [CannotDeductSliceLengthError]). *)
Theorem X18_typeSize_agrees_with_size_on_flat_structs
    (fuel : nat) (fs : list (string * StructTag * data)) :
  forallb flatField fs = true ->
  typeSize (typeOf (DStruct fs))
  = match size (S (S fuel)) (ValueOf (DStruct fs)) with
    | Ok n => Ok n
    | Fail (Err LeftOverBits) => Fail (Err CannotDeductSliceLengthError)
    | Fail f => Fail f
    end.
Proof.
  intros Hflat. cbn [typeOf]. rewrite typeSize_struct. fold (fieldTypes fs).
  rewrite (size_S (S fuel)).
  erewrite (transcode_struct _ fuel) by reflexivity.
  pose proof (flat_fields_sizes (size (S fuel))
                (transcode (sizer.Handler (size (S fuel))) fuel) (ValueOf (DStruct fs)) fs
                (with_backtrace (newTranscoder (sizerAt 0 0))
                   (push (backtrace (newTranscoder (sizerAt 0 0))) (ValueOf (DStruct fs))))
                Hflat) as Hsame.
  cbn [with_backtrace handler newTranscoder sizerAt sizer.nbytes sizer.nbits_] in Hsame.
  rewrite Hsame.
  destruct (transcodeFields _ _ _ fs _) as [[[[]|f] fs'] t'] eqn:Hrun.
  - cbn [with_backtrace handler].
    destruct (sizer.nbits_ (handler t') =? 0); reflexivity.
  - destruct (flat_fields_fail_by_panic _ _ _ _ _ _ _ _ Hflat Hrun) as [p ->]. reflexivity.
Qed.

Lemma X18_witness :
  typeSize (typeOf (DStruct flatSample)) = Ok 5.
Proof.
  apply (X18_typeSize_agrees_with_size_on_flat_structs 0 flatSample).
  vm_compute. reflexivity.
Defined.

(** ** The byte buffer (buffer.go) *)

Lemma Buffer_write_at (pre suf : list Z) (s b : Z) :
  Buffer.WriteByte (bufferAt pre (s :: suf)) b = (Ok tt, bufferAt (pre ++ [b]) suf).
Proof.
  unfold Buffer.WriteByte, bufferAt. cbn [Buffer.bytes Buffer.offset].
  rewrite length_app. cbn [length].
  destruct (Z.leb_spec (Z.of_nat (length pre + S (length suf))) (Z.of_nat (length pre)));
    [lia|].
  rewrite Nat2Z.id. f_equal. f_equal.
  - replace (length pre) with (length pre + 0)%nat at 1 by lia.
    rewrite insert_app_r. cbn. rewrite <- app_assoc. reflexivity.
  - rewrite length_app. cbn [length]. lia.
Qed.

Lemma Buffer_write_full (pre : list Z) (b : Z) :
  Buffer.WriteByte (bufferAt pre []) b
  = (Fail (Err Buffer.WriteBufferOverrun), bufferAt pre []).
Proof.
  unfold Buffer.WriteByte, bufferAt. cbn [Buffer.bytes Buffer.offset].
  rewrite app_nil_r.
  destruct (Z.leb_spec (Z.of_nat (length pre)) (Z.of_nat (length pre))); [reflexivity|lia].
Qed.

Lemma writeAll_at (pre suf bs : list Z) :
  Buffer.writeAll (bufferAt pre suf) bs
  = (if (length bs <=? length suf)%nat then Ok tt
     else Fail (Err Buffer.WriteBufferOverrun),
     bufferAt (pre ++ take (length suf) bs) (drop (length bs) suf)).
Proof.
  revert pre suf. induction bs as [|b bs IH]; intros pre suf.
  - cbn [Buffer.writeAll length Nat.leb drop]. rewrite take_nil, app_nil_r. reflexivity.
  - cbn [Buffer.writeAll]. destruct suf as [|s suf].
    + rewrite Buffer_write_full. cbn [length Nat.leb take drop].
      rewrite app_nil_r. reflexivity.
    + rewrite Buffer_write_at, IH. cbn [length Nat.leb take drop].
      rewrite <- app_assoc. reflexivity.
Qed.

(** X19: bytes written to a [Buffer] fill it in order from the cursor on.
    When the buffer is full [WriteByte] returns the overrun error and the
    buffer stays as it is: of more bytes than there is room for, the first
    ones are stored. *)
Theorem X19_Buffer_is_filled_in_order_up_to_its_size (pre suf bs : list Z) :
  Buffer.writeAll (bufferAt pre suf) bs
  = (if (length bs <=? length suf)%nat then Ok tt
     else Fail (Err Buffer.WriteBufferOverrun),
     bufferAt (pre ++ take (length suf) bs) (drop (length bs) suf)) /\
  Buffer.Bytes (snd (Buffer.writeAll (bufferAt pre suf) bs))
  = pre ++ take (length suf) bs ++ drop (length bs) suf.
Proof.
  rewrite writeAll_at. split; [reflexivity|].
  cbn [snd]. unfold Buffer.Bytes, bufferAt. cbn [Buffer.bytes].
  rewrite <- app_assoc. reflexivity.
Qed.

Lemma sink_at (pre suf : list Z) :
  Buffer.sink (bufferAt pre suf)
  = {| written := pre; capacity := Some (length pre + length suf)%nat;
       overrun := Buffer.WriteBufferOverrun |}.
Proof.
  unfold Buffer.sink, bufferAt. cbn [Buffer.bytes Buffer.offset].
  rewrite Nat2Z.id, take_app_length, length_app. reflexivity.
Qed.

Lemma source_at (pre suf : list Z) :
  Buffer.source (bufferAt pre suf)
  = {| pending := suf; exhausted := Buffer.ReadBufferOverrun |}.
Proof.
  unfold Buffer.source, bufferAt. cbn [Buffer.bytes Buffer.offset].
  rewrite Nat2Z.id, drop_app_length. reflexivity.
Qed.

Lemma Buffer_read_at (pre suf : list Z) (s : Z) :
  Buffer.ReadByte (bufferAt pre (s :: suf))
  = (Ok s, {| Buffer.bytes := pre ++ s :: suf;
              Buffer.offset := Z.of_nat (length pre) + 1 |}).
Proof.
  unfold Buffer.ReadByte, bufferAt. cbn [Buffer.bytes Buffer.offset].
  rewrite length_app. cbn [length].
  destruct (Z.leb_spec (Z.of_nat (length pre + S (length suf))) (Z.of_nat (length pre)));
    [lia|].
  rewrite Nat2Z.id.
  replace (length pre) with (length pre + 0)%nat at 1 by lia.
  rewrite lookup_app_r by lia.
  replace (length pre + 0 - length pre)%nat with 0%nat by lia. reflexivity.
Qed.

Lemma bufferAt_step (pre suf : list Z) (s : Z) :
  {| Buffer.bytes := pre ++ s :: suf; Buffer.offset := Z.of_nat (length pre) + 1 |}
  = bufferAt (pre ++ [s]) suf.
Proof.
  unfold bufferAt. rewrite <- app_assoc, length_app. cbn [app length]. f_equal. lia.
Qed.

(** X20: a [Buffer] behaves as a sink of fixed capacity that holds what
    has been written, and as a source of the bytes after the cursor whose
    end is an overrun error, not [io.EOF]. *)
Theorem X20_Buffer_is_a_sink_of_fixed_capacity_and_a_source (pre suf : list Z) (b : Z) :
  WriteByte (Buffer.sink (bufferAt pre suf)) b
  = (fst (Buffer.WriteByte (bufferAt pre suf) b),
     Buffer.sink (snd (Buffer.WriteByte (bufferAt pre suf) b))) /\
  ReadByte (Buffer.source (bufferAt pre suf))
  = (fst (Buffer.ReadByte (bufferAt pre suf)),
     Buffer.source (snd (Buffer.ReadByte (bufferAt pre suf)))).
Proof.
  split.
  - destruct suf as [|s suf].
    + rewrite Buffer_write_full. cbn [fst snd]. rewrite sink_at.
      unfold WriteByte. cbn [capacity written length Nat.add].
      rewrite Nat.add_0_r.
      destruct (Nat.leb_spec (length pre) (length pre)); [reflexivity|lia].
    + rewrite Buffer_write_at. cbn [fst snd]. rewrite !sink_at.
      unfold WriteByte. cbn [capacity written length overrun].
      destruct (Nat.leb_spec (length pre + S (length suf)) (length pre)); [lia|].
      rewrite length_app. cbn [length]. do 3 f_equal. lia.
  - destruct suf as [|s suf].
    + unfold Buffer.ReadByte, bufferAt. cbn [Buffer.bytes Buffer.offset].
      rewrite app_nil_r.
      destruct (Z.leb_spec (Z.of_nat (length pre)) (Z.of_nat (length pre))); [|lia].
      cbn [fst snd]. unfold Buffer.source. cbn [Buffer.bytes Buffer.offset].
      rewrite Nat2Z.id, drop_all. reflexivity.
    + rewrite Buffer_read_at. cbn [fst snd]. rewrite bufferAt_step, !source_at.
      reflexivity.
Qed.

(** X21: reads and writes of a [Buffer] share one cursor: once the buffer
    has been filled, [ReadByte] returns the overrun error, although [Bytes]
    holds what was written. *)
Theorem X21_a_filled_Buffer_cannot_be_read_back (suf bs : list Z) :
  length bs = length suf ->
  Buffer.ReadByte (snd (Buffer.writeAll (bufferAt [] suf) bs))
  = (Fail (Err Buffer.ReadBufferOverrun), bufferAt bs []) /\
  Buffer.Bytes (snd (Buffer.writeAll (bufferAt [] suf) bs)) = bs.
Proof.
  intros Hlen. rewrite writeAll_at. cbn [snd app].
  rewrite take_ge by lia. rewrite Hlen, drop_all.
  split.
  - unfold Buffer.ReadByte, bufferAt. cbn [Buffer.bytes Buffer.offset].
    rewrite app_nil_r.
    destruct (Z.leb_spec (Z.of_nat (length bs)) (Z.of_nat (length bs))); [reflexivity|lia].
  - unfold Buffer.Bytes, bufferAt. cbn [Buffer.bytes]. apply app_nil_r.
Qed.

Lemma X21_witness :
  Buffer.ReadByte (snd (Buffer.writeAll (bufferAt [] [0; 0]) [7; 8]))
  = (Fail (Err Buffer.ReadBufferOverrun), bufferAt [7; 8] []) /\
  Buffer.Bytes (snd (Buffer.writeAll (bufferAt [] [0; 0]) [7; 8])) = [7; 8].
Proof.
  apply (X21_a_filled_Buffer_cannot_be_read_back [0; 0] [7; 8]). reflexivity.
Defined.

(** ** Truncation of byte arrays *)

Lemma parse_truncate (l : nat) :
  parseFieldTags {| Name := "A"; Tag := bare "truncate" "";
                    Type_ := TArray l (TBasic reflect.Uint8) |}
  = Ok truncateTags.
Proof. vm_compute. reflexivity. Qed.

Lemma readValue_exhausted (v : Value) (x : Z) (d : decoder.state) :
  CanSet v = true -> val v = U8 x -> pending (decoder.reader d) = [] ->
  decoder.readValue v None d = (Fail (Err (exhausted (decoder.reader d))), U8 x, d).
Proof.
  intros Hset Hv Hp. unfold decoder.readValue, decoder.width, VKind.
  rewrite Hset, Hv. cbn [negb typeOf Kind U8 reflect.Kind_eqb KindBits bind].
  change (u64 8) with 8.
  pose proof (X3_helper := readBytes_short 1 [] 0 0 d ltac:(cbn; lia) Hp).
  unfold decoder.read. cbn [Z.eqb Z.ltb Z.compare Pos.compare Pos.compare_cont].
  change (8 mod 8 =? 0) with true. cbn [negb]. change (Z.to_nat (8 / 8)) with 1%nat.
  rewrite X3_helper.
  destruct d as [[p e] c bo bi]. cbn in Hp. subst p. reflexivity.
Qed.

(** The loop of [decoder.array] over an array of bytes, when the source holds
    no more than the array takes. *)
Lemma arrayLoop_bytes_truncated (rec : walk decoder.state) (arr : Value) (tags : tags)
    (bs : list Z) (n : nat) (t : transcoder decoder.state) :
  flagAddr arr = true -> flagRO arr = false ->
  (length bs <= n)%nat -> Forall isByte bs ->
  pending (decoder.reader (handler t)) = bs ->
  decoder.arrayLoop rec arr false tags (repeat (U8 0) n) t
  = (if (n <=? length bs)%nat
        || (decoder.isEOF (Err (exhausted (decoder.reader (handler t))))
            && tags_truncate tags)
     then Ok tt else Fail (Err (exhausted (decoder.reader (handler t)))),
     map U8 bs ++ repeat (U8 0) (n - length bs),
     with_handler t (decoder.with_reader (handler t)
                       {| pending := [];
                          exhausted := exhausted (decoder.reader (handler t)) |})).
Proof.
  intros Ha Hro. revert n t. induction bs as [|b bs IH]; intros n t Hlen Hbs Hp.
  - destruct n as [|n].
    + cbn. destruct t as [[[p e] c bo bi] fm bt]. cbn in Hp. subst p. reflexivity.
    + cbn [repeat decoder.arrayLoop length Nat.leb orb map app Nat.sub].
      rewrite (readValue_exhausted _ 0 (handler t));
        [|unfold CanSet, IndexOf; destruct (val arr); cbn; rewrite ?Ha, ?Hro; reflexivity
         |unfold IndexOf; destruct (val arr); reflexivity|exact Hp].
      destruct t as [[[p e] c bo bi] fm bt]. cbn in Hp. subst p.
      cbn [handler decoder.reader exhausted].
      destruct (decoder.isEOF (Err e) && tags_truncate tags); reflexivity.
  - destruct n as [|n]; [cbn in Hlen; lia|].
    inversion Hbs as [|? ? Hb Hbs']; subst.
    cbn [repeat decoder.arrayLoop length Nat.leb map app Nat.sub].
    rewrite (readValue_byte _ 0 b bs None (handler t));
      [|unfold CanSet, IndexOf; destruct (val arr); cbn; rewrite ?Ha, ?Hro; reflexivity
       |unfold IndexOf; destruct (val arr); reflexivity|constructor|exact Hb|exact Hp].
    rewrite IH; [|cbn [length] in Hlen; lia|exact Hbs'|reflexivity].
    reflexivity.
Qed.

(** X22: [truncate] on an array of bytes turns the end of the source into
    success only when the source reports [io.EOF]. Decoding an array of [n]
    bytes from a source of fewer bytes stores the bytes there are and leaves
    the others zero; the result is [nil] at [io.EOF], and the error of the
    source otherwise (the overrun error of a [Buffer], for one). *)
Theorem X22_truncate_accepts_a_short_source_only_at_EOF
    (n : nat) (bs : list Z) (e : error) :
  (length bs <= n)%nat -> Forall isByte bs ->
  decoder.Decode 2 {| pending := bs; exhausted := e |}
    (ptr (truncatedBytes (repeat (U8 0) n)))
  = (if (n <=? length bs)%nat || decoder.isEOF (Err e) then Ok tt else Fail (Err e),
     DPtr (typeOf (truncatedBytes (repeat (U8 0) n)))
       (Some (truncatedBytes (map U8 bs ++ repeat (U8 0) (n - length bs)))),
     {| pending := []; exhausted := e |}).
Proof.
  intros Hlen Hbs. unfold decoder.Decode, ptr, truncatedBytes.
  erewrite (transcode_ptr decoder.Handler 1) by reflexivity.
  erewrite (transcode_struct decoder.Handler 0) by reflexivity.
  cbn [transcodeFields typeOf]. rewrite parse_truncate.
  unfold transcodeField. cbn [typeOf Kind h_array decoder.Handler].
  unfold decoder.array. cbn [FieldOf val elemType Kind reflect.Kind_eqb elements].
  rewrite (arrayLoop_bytes_truncated _ _ truncateTags bs n);
    [|reflexivity|reflexivity|exact Hlen|exact Hbs|reflexivity].
  cbn [with_backtrace handler newTranscoder decoder.reader exhausted truncateTags
       tags_truncate].
  rewrite andb_true_r.
  destruct ((n <=? length bs)%nat || decoder.isEOF (Err e)); reflexivity.
Qed.

Lemma X22_witness :
  decoder.Decode 2 (Buffer.source (bufferAt [] [7])) (ptr (truncatedBytes (repeat (U8 0) 3)))
  = (Fail (Err Buffer.ReadBufferOverrun),
     DPtr (typeOf (truncatedBytes (repeat (U8 0) 3)))
       (Some (truncatedBytes [U8 7; U8 0; U8 0])),
     {| pending := []; exhausted := Buffer.ReadBufferOverrun |}).
Proof.
  apply (X22_truncate_accepts_a_short_source_only_at_EOF 3 [7] Buffer.ReadBufferOverrun).
  - cbn. lia.
  - constructor; [unfold isByte; lia|constructor].
Defined.

(** ** Struct tags as text *)

Lemma skipSpaces_length (tag : list ascii) :
  (length (skipSpaces tag) <= length tag)%nat.
Proof.
  induction tag as [|c rest IH]; [reflexivity|].
  cbn [skipSpaces]. destruct (Ascii.eqb c " "%char); cbn [length]; lia.
Qed.

Lemma scanName_length (tag nm tl : list ascii) :
  scanName tag = (nm, tl) -> length tag = (length nm + length tl)%nat.
Proof.
  revert nm tl. induction tag as [|c rest IH]; intros nm tl.
  - intros [= <- <-]. reflexivity.
  - cbn [scanName]. destruct (nameByte c).
    + destruct (scanName rest) as [nm' tl'] eqn:E. intros [= <- <-].
      cbn [length]. rewrite (IH nm' tl' eq_refl). reflexivity.
    + intros [= <- <-]. reflexivity.
Qed.

Lemma scanQuoted_length (tag body tl : list ascii) :
  scanQuoted tag = Some (body, tl) -> (length tl < length tag)%nat.
Proof.
  remember (length tag) as n eqn:Hn.
  revert tag body tl Hn. induction n as [n IH] using lt_wf_ind.
  intros tag body tl Hn. destruct tag as [|c rest]; [discriminate|].
  cbn [scanQuoted]. cbn [length] in Hn.
  destruct (Ascii.eqb c dquote).
  - intros [= <- <-]. lia.
  - destruct (Ascii.eqb c "\"%char).
    + destruct rest as [|d rest']; [discriminate|].
      destruct (scanQuoted rest') as [[body' tl']|] eqn:E; [|discriminate].
      intros [= <- <-]. cbn [length] in Hn.
      pose proof (IH (length rest') ltac:(lia) rest' body' tl' eq_refl E). lia.
    + destruct (scanQuoted rest) as [[body' tl']|] eqn:E; [|discriminate].
      intros [= <- <-].
      pose proof (IH (length rest) ltac:(lia) rest body' tl' eq_refl E). lia.
Qed.

(** The result of [lookupLoop] does not depend on the fuel, once there is
    more of it than the tag has bytes. *)
Lemma lookupLoop_fuel (f1 f2 : nat) (tag : list ascii) (key : string) :
  (length tag < f1)%nat -> (length tag < f2)%nat ->
  lookupLoop f1 tag key = lookupLoop f2 tag key.
Proof.
  revert f2 tag. induction f1 as [|f1 IH]; intros f2 tag H1 H2; [lia|].
  destruct f2 as [|f2]; [lia|].
  cbn [lookupLoop].
  pose proof (skipSpaces_length tag) as Hskip.
  destruct (skipSpaces tag) as [|c0 tag1] eqn:Es; [reflexivity|].
  destruct (scanName (c0 :: tag1)) as [nm tl] eqn:En.
  pose proof (scanName_length _ _ _ En) as Hname.
  destruct nm as [|c nm]; [reflexivity|].
  destruct tl as [|colon [|quote rest]]; try reflexivity.
  destruct (Ascii.eqb colon ":"%char && Ascii.eqb quote dquote); [|reflexivity].
  destruct (scanQuoted rest) as [[body tl]|] eqn:Eq; [|reflexivity].
  pose proof (scanQuoted_length _ _ _ Eq) as Hq.
  destruct (String.eqb key (string_of_list_ascii (c :: nm))); [reflexivity|].
  cbn [length] in *. apply IH; lia.
Qed.

(** ** Tag strings made of pairs *)

Lemma snoc_app (key : string) (r : ascii) (k : string) :
  (snoc key r ++ k)%string = (key ++ String r k)%string.
Proof.
  unfold snoc. induction key as [|c key IH]; [reflexivity|].
  change (String c ((key ++ String r EmptyString) ++ k)%string
          = String c (key ++ String r k)%string).
  rewrite IH. reflexivity.
Qed.

Lemma append_empty (s : string) : (s ++ "")%string = s.
Proof.
  induction s as [|c s IH]; [reflexivity|].
  change (String c (s ++ "")%string = String c s). rewrite IH. reflexivity.
Qed.

Lemma parse_key_runes (sf : StructField) (opts : parseOptions) (k : string)
    (r0 : ascii) (rest : list ascii) (key val : string) (inVal : bool) (t : tags) :
  forallb (keyRune opts) (list_ascii_of_string k) = true ->
  parseRunes sf opts (list_ascii_of_string k ++ r0 :: rest) key val true inVal t
  = parseRunes sf opts (r0 :: rest) (key ++ k) val true inVal t.
Proof.
  remember (r0 :: rest) as tail eqn:Htail.
  revert key. induction k as [|c k IH]; intros key Hk.
  - cbn [list_ascii_of_string app]. rewrite append_empty. reflexivity.
  - cbn [list_ascii_of_string forallb] in Hk. apply andb_prop in Hk. destruct Hk as [Hc Hk].
    unfold keyRune in Hc.
    repeat (apply andb_prop in Hc; destruct Hc as [Hc ?]).
    cbn [list_ascii_of_string app parseRunes].
    destruct (Ascii.eqb c (assign opts)); [discriminate|].
    destruct (Ascii.eqb c (quote opts)); [discriminate|].
    destruct (Ascii.eqb c (sep opts)); [discriminate|].
    destruct (Ascii.eqb c ","%char); [discriminate|].
    cbn [orb].
    destruct (list_ascii_of_string k ++ tail) eqn:E.
    + subst tail. destruct (list_ascii_of_string k); discriminate E.
    + rewrite IH by exact Hk. rewrite snoc_app. reflexivity.
Qed.

Lemma parse_value_runes (sf : StructField) (opts : parseOptions) (v : string)
    (rest : list ascii) (key val : string) (t : tags) :
  forallb (valueRune opts) (list_ascii_of_string v) = true ->
  parseRunes sf opts (list_ascii_of_string v ++ rest) key val false true t
  = parseRunes sf opts rest key (val ++ v) false true t.
Proof.
  revert val. induction v as [|c v IH]; intros val Hv.
  - cbn [list_ascii_of_string app]. rewrite append_empty. reflexivity.
  - cbn [list_ascii_of_string forallb] in Hv. apply andb_prop in Hv. destruct Hv as [Hc Hv].
    unfold valueRune in Hc. apply andb_prop in Hc. destruct Hc as [Hc1 Hc2].
    cbn [list_ascii_of_string app parseRunes].
    destruct (Ascii.eqb c (assign opts)); [discriminate|].
    destruct (Ascii.eqb c (quote opts)); [discriminate|].
    cbn [negb].
    destruct (Ascii.eqb c (sep opts) || Ascii.eqb c ","%char);
      rewrite IH by exact Hv; rewrite snoc_app; reflexivity.
Qed.

Lemma optionsOk_distinct (opts : parseOptions) :
  optionsOk opts = true ->
  Ascii.eqb (quote opts) (assign opts) = false /\
  Ascii.eqb (sep opts) (assign opts) = false /\
  Ascii.eqb (sep opts) (quote opts) = false.
Proof.
  unfold optionsOk. intros H.
  apply andb_prop in H. destruct H as [H H3].
  apply andb_prop in H. destruct H as [H1 H2].
  apply negb_true_iff in H1, H2, H3. repeat split; assumption.
Qed.

Lemma parse_pair (sf : StructField) (opts : parseOptions) (p : string * string)
    (rest : list ascii) (t : tags) :
  optionsOk opts = true -> wellFormedPair opts p = true ->
  parseRunes sf opts (renderPair opts p ++ rest) EmptyString EmptyString true false t
  = do t' <- add t sf (fst p) (snd p);
    parseRunes sf opts rest EmptyString EmptyString false false t'.
Proof.
  intros Hopts Hp. unfold wellFormedPair in Hp. apply andb_prop in Hp.
  destruct Hp as [Hk Hv].
  destruct (optionsOk_distinct opts Hopts) as (Hqa & _ & _).
  unfold renderPair. rewrite <- !app_assoc. cbn [app].
  rewrite parse_key_runes by exact Hk.
  change (EmptyString ++ fst p)%string with (fst p).
  cbn [parseRunes]. rewrite Ascii.eqb_refl.
  cbn [parseRunes]. rewrite Hqa, Ascii.eqb_refl.
  rewrite parse_value_runes by exact Hv.
  change (EmptyString ++ snd p)%string with (snd p).
  cbn [parseRunes]. rewrite Hqa, Ascii.eqb_refl. reflexivity.
Qed.

Lemma parse_pairs (sf : StructField) (opts : parseOptions) (ps : list (string * string))
    (inKey : bool) (t : tags) :
  optionsOk opts = true -> forallb (wellFormedPair opts) ps = true ->
  (inKey = true \/ ps = []) ->
  parseRunes sf opts (renderPairs opts ps) EmptyString EmptyString inKey false t
  = addAll sf t ps.
Proof.
  intros Hopts. revert inKey t. induction ps as [|[k v] ps IH]; intros inKey t Hps Hstart.
  - reflexivity.
  - destruct Hstart as [->|?]; [|discriminate].
    cbn [forallb] in Hps. apply andb_prop in Hps. destruct Hps as [Hp Hps].
    cbn [renderPairs addAll]. rewrite parse_pair by assumption. cbn [fst snd].
    destruct (add t sf k v) as [t'|f]; cbn [bind]; [|reflexivity].
    destruct ps as [|p ps].
    + reflexivity.
    + destruct (optionsOk_distinct opts Hopts) as (_ & Hsa & Hsq).
      cbn [parseRunes]. rewrite Hsa, Hsq, Ascii.eqb_refl. cbn [orb negb].
      apply IH; [exact Hps|left; reflexivity].
Qed.

(** The descriptor a field starts with, before any tag is applied. *)
Lemma parseFieldTags_pairs (sf : StructField) (opts : parseOptions)
    (ps : list (string * string)) :
  optionsOk opts = true -> forallb (wellFormedPair opts) ps = true ->
  (match structex (Tag sf) with
   | Some s => opts = fullOptions /\ s = text (renderPairs opts ps)
   | None => opts = bareOptions /\ raw (Tag sf) = text (renderPairs opts ps)
   end) ->
  parseFieldTags sf
  = do t <- parseFieldTags (untagged (Name sf) (Type_ sf)); addAll sf t ps.
Proof.
  intros Hopts Hps Htag. unfold parseFieldTags, untagged, text in *.
  cbn [Name Tag Type_ notag structex raw parseString list_ascii_of_string parseRunes].
  match goal with |- context [bind ?r _] => destruct r as [t|f] end; cbn [bind];
    [|reflexivity].
  destruct (structex (Tag sf)) as [s|]; destruct Htag as [-> Hs]; rewrite Hs;
    unfold parseString; rewrite list_ascii_of_string_of_list_ascii;
    apply parse_pairs; try assumption; left; reflexivity.
Qed.

(** X23: a tag made of pairs of a key and a quoted value with one
    separator between them is parsed into the descriptor of the untagged
    field with [tags.add] applied to each pair from left to right: the pairs
    of the tag itself, with a space between them, when [Lookup] finds no key
    [structex] in it, and the pairs of the value of that key, with a comma
    between them, when it does. *)
Theorem X23_tag_pairs_are_applied_from_left_to_right
    (n : string) (ty : type) (rawTag : string) (tg : StructTag)
    (ps : list (string * string)) :
  let sf := {| Name := n; Tag := tg; Type_ := ty |} in
  tagOfText rawTag = Some tg ->
  (structex tg = None -> rawTag = text (renderPairs bareOptions ps) ->
   forallb (wellFormedPair bareOptions) ps = true ->
   parseFieldTags sf = do t <- parseFieldTags (untagged n ty); addAll sf t ps) /\
  (structex tg = Some (text (renderPairs fullOptions ps)) ->
   forallb (wellFormedPair fullOptions) ps = true ->
   parseFieldTags sf = do t <- parseFieldTags (untagged n ty); addAll sf t ps).
Proof.
  intros sf Htag.
  assert (raw tg = rawTag) as Hraw.
  { unfold tagOfText in Htag. destruct (Lookup rawTag "structex");
      try discriminate; injection Htag as <-; reflexivity. }
  split.
  - intros Hnone Htext Hps.
    apply (parseFieldTags_pairs sf bareOptions ps); [reflexivity|exact Hps|].
    cbn [sf Tag]. rewrite Hnone, Hraw. split; [reflexivity|exact Htext].
  - intros Hsome Hps.
    apply (parseFieldTags_pairs sf fullOptions ps); [reflexivity|exact Hps|].
    cbn [sf Tag]. rewrite Hsome. split; reflexivity.
Qed.

Lemma X23_witness :
  parseFieldTags {| Name := "N"; Tag := {| raw := sizeTagText; structex := None |};
                    Type_ := TBasic reflect.Uint8 |}
  = (do t <- parseFieldTags (untagged "N" (TBasic reflect.Uint8));
     addAll {| Name := "N"; Tag := {| raw := sizeTagText; structex := None |};
               Type_ := TBasic reflect.Uint8 |} t
       [("bitfield", "4,reserved"); ("sizeOf", "Ts,relative")]%string) /\
  parseFieldTags {| Name := "N";
                    Tag := {| raw := fullTagText;
                              structex := Some (text (renderPairs fullOptions
                                                        [("bitfield", "3"); ("big", "")]%string)) |};
                    Type_ := TBasic reflect.Uint16 |}
  = (do t <- parseFieldTags (untagged "N" (TBasic reflect.Uint16));
     addAll {| Name := "N";
               Tag := {| raw := fullTagText;
                         structex := Some (text (renderPairs fullOptions
                                                   [("bitfield", "3"); ("big", "")]%string)) |};
               Type_ := TBasic reflect.Uint16 |} t
       [("bitfield", "3"); ("big", "")]%string).
Proof.
  split.
  - apply (proj1 (X23_tag_pairs_are_applied_from_left_to_right "N" (TBasic reflect.Uint8)
                    sizeTagText {| raw := sizeTagText; structex := None |}
                    [("bitfield", "4,reserved"); ("sizeOf", "Ts,relative")]%string
                    ltac:(vm_compute; reflexivity)));
      vm_compute; reflexivity.
  - apply (proj2 (X23_tag_pairs_are_applied_from_left_to_right "N" (TBasic reflect.Uint16)
                    fullTagText
                    {| raw := fullTagText;
                       structex := Some (text (renderPairs fullOptions
                                                 [("bitfield", "3"); ("big", "")]%string)) |}
                    [("bitfield", "3"); ("big", "")]%string
                    ltac:(vm_compute; reflexivity)));
      vm_compute; reflexivity.
Defined.

Lemma add_foreign (t : tags) (sf : StructField) (key val : string) :
  isKeyword key = false -> add t sf key val = Ok t.
Proof.
  unfold isKeyword. cbn [existsb]. intros H.
  repeat (apply orb_false_elim in H; destruct H as [? H]).
  unfold add.
  repeat match goal with
         | E : String.eqb ?a ?b = false |- context [String.eqb ?a ?b] => rewrite E
         end.
  reflexivity.
Qed.

Lemma addAll_foreign (sf : StructField) (t : tags) (ps : list (string * string)) :
  forallb (fun p => negb (isKeyword (fst p))) ps = true -> addAll sf t ps = Ok t.
Proof.
  induction ps as [|[k v] ps IH]; intros H; [reflexivity|].
  cbn [forallb fst] in H. apply andb_prop in H. destruct H as [Hk Hps].
  apply negb_true_iff in Hk. cbn [addAll]. rewrite add_foreign by exact Hk.
  cbn [bind]. apply IH. exact Hps.
Qed.

Lemma skipSpaces_name (c : ascii) (rest : list ascii) :
  nameByte c = true -> skipSpaces (c :: rest) = c :: rest.
Proof.
  intros Hc. cbn [skipSpaces]. destruct (Ascii.eqb_spec c " "%char) as [->|_];
    [discriminate Hc|reflexivity].
Qed.

Lemma scanName_key (k rest : list ascii) :
  forallb nameByte k = true -> scanName (k ++ ":"%char :: rest) = (k, ":"%char :: rest).
Proof.
  induction k as [|c k IH]; intros Hk.
  - reflexivity.
  - cbn [forallb] in Hk. apply andb_prop in Hk. destruct Hk as [Hc Hk].
    cbn [app scanName]. rewrite Hc, (IH Hk). reflexivity.
Qed.

Lemma scanQuoted_value (v rest : list ascii) :
  forallb (fun c => negb (Ascii.eqb c dquote) && negb (Ascii.eqb c "\"%char)) v = true ->
  scanQuoted (v ++ dquote :: rest) = Some (v, rest).
Proof.
  induction v as [|c v IH]; intros Hv.
  - cbn [app scanQuoted]. rewrite Ascii.eqb_refl. reflexivity.
  - cbn [forallb] in Hv. apply andb_prop in Hv. destruct Hv as [Hc Hv].
    apply andb_prop in Hc. destruct Hc as [Hq Hb].
    apply negb_true_iff in Hq, Hb.
    cbn [app scanQuoted]. rewrite Hq, Hb, (IH Hv). reflexivity.
Qed.

Lemma lookupLoop_space (fuel : nat) (tag : list ascii) (key : string) :
  lookupLoop fuel (" "%char :: tag) key = lookupLoop fuel tag key.
Proof. destruct fuel as [|fuel]; reflexivity. Qed.

(** [Lookup] finds nothing under a key that none of the pairs has. *)
Lemma lookupLoop_plain (fuel : nat) (ps : list (string * string)) (key : string) :
  forallb plainPair ps = true ->
  forallb (fun p => negb (String.eqb key (fst p))) ps = true ->
  lookupLoop fuel (renderPairs bareOptions ps) key = NotFound.
Proof.
  revert fuel. induction ps as [|[k v] ps IH]; intros fuel Hps Hkey.
  - destruct fuel; reflexivity.
  - destruct fuel as [|fuel]; [reflexivity|].
    cbn [forallb fst] in Hps, Hkey.
    apply andb_prop in Hps. destruct Hps as [Hp Hps].
    apply andb_prop in Hkey. destruct Hkey as [Hk Hkey].
    unfold plainPair in Hp. cbn [fst snd] in Hp.
    apply andb_prop in Hp. destruct Hp as [Hp Hval].
    apply andb_prop in Hp. destruct Hp as [Hne Hname].
    assert (forallb nameByte (list_ascii_of_string k) = true) as Hnb.
    { revert Hname. clear. induction (list_ascii_of_string k) as [|c l IHl];
        [reflexivity|]. cbn [forallb]. intros H. apply andb_prop in H.
      destruct H as [Hc Hl]. apply andb_prop in Hc. destruct Hc as [Hc _].
      rewrite Hc, (IHl Hl). reflexivity. }
    assert (forallb (fun c => negb (Ascii.eqb c dquote) && negb (Ascii.eqb c "\"%char))
              (list_ascii_of_string v) = true) as Hvb.
    { revert Hval. clear. induction (list_ascii_of_string v) as [|c l IHl];
        [reflexivity|]. cbn [forallb]. intros H. apply andb_prop in H.
      destruct H as [Hc Hl]. apply andb_prop in Hc. destruct Hc as [Hc Hb].
      unfold valueRune in Hc. apply andb_prop in Hc. destruct Hc as [_ Hq].
      cbn [quote bareOptions] in Hq. rewrite Hq, Hb, (IHl Hl). reflexivity. }
    destruct k as [|c k]; [discriminate Hne|].
    cbn [renderPairs]. unfold renderPair.
    cbn [fst snd assign quote sep bareOptions].
    cbn [list_ascii_of_string] in Hnb |- *.
    cbn [forallb] in Hnb. apply andb_prop in Hnb. destruct Hnb as [Hc Hnb].
    rewrite <- !app_assoc. cbn [app lookupLoop].
    rewrite (skipSpaces_name c _ Hc).
    change (c :: list_ascii_of_string k ++ ":"%char :: ?r)
      with ((c :: list_ascii_of_string k) ++ ":"%char :: r).
    rewrite scanName_key by (cbn [forallb]; rewrite Hc, Hnb; reflexivity).
    rewrite !Ascii.eqb_refl. cbn [andb].
    rewrite scanQuoted_value by exact Hvb.
    change (string_of_list_ascii (c :: list_ascii_of_string k))
      with (string_of_list_ascii (list_ascii_of_string (String c k))).
    rewrite string_of_list_ascii_of_string.
    apply negb_true_iff in Hk. rewrite Hk.
    destruct ps as [|p ps]; [destruct fuel; reflexivity|].
    rewrite lookupLoop_space. apply IH; assumption.
Qed.

(** The tag of pairs of other packages has no key [structex]. *)
Lemma tagOfText_plain (ps : list (string * string)) :
  forallb plainPair ps = true ->
  forallb (fun p => negb (String.eqb "structex" (fst p))) ps = true ->
  tagOfText (text (renderPairs bareOptions ps))
  = Some {| raw := text (renderPairs bareOptions ps); structex := None |}.
Proof.
  intros Hps Hkey. unfold tagOfText, Lookup, text.
  rewrite list_ascii_of_string_of_list_ascii.
  rewrite lookupLoop_plain by assumption. reflexivity.
Qed.

Lemma plainPair_wellFormed (ps : list (string * string)) :
  forallb plainPair ps = true -> forallb (wellFormedPair bareOptions) ps = true.
Proof.
  induction ps as [|[k v] ps IH]; [reflexivity|].
  cbn [forallb]. intros H. apply andb_prop in H. destruct H as [Hp Hps].
  rewrite (IH Hps), andb_true_r.
  unfold plainPair in Hp. cbn [fst snd] in Hp.
  apply andb_prop in Hp. destruct Hp as [Hp Hval].
  apply andb_prop in Hp. destruct Hp as [_ Hname].
  unfold wellFormedPair. cbn [fst snd]. apply andb_true_intro. split.
  - revert Hname. clear. induction (list_ascii_of_string k) as [|c l IHl];
      [reflexivity|]. cbn [forallb]. intros H. apply andb_prop in H.
    destruct H as [Hc Hl]. apply andb_prop in Hc. destruct Hc as [_ Hc].
    rewrite Hc, (IHl Hl). reflexivity.
  - revert Hval. clear. induction (list_ascii_of_string v) as [|c l IHl];
      [reflexivity|]. cbn [forallb]. intros H. apply andb_prop in H.
    destruct H as [Hc Hl]. apply andb_prop in Hc. destruct Hc as [Hc _].
    rewrite Hc, (IHl Hl). reflexivity.
Qed.

(** X24: tags of other packages are ignored. A tag made of pairs as other
    packages write them, of which no key is [structex] or, in any case of
    its letters, one of the keys of [tags.add], gives the descriptor of the
    untagged field. *)
Theorem X24_tags_of_other_packages_are_ignored
    (n : string) (ty : type) (ps : list (string * string)) :
  forallb plainPair ps = true ->
  forallb (fun p => negb (String.eqb "structex" (fst p))) ps = true ->
  forallb (fun p => negb (isKeyword (fst p))) ps = true ->
  exists tg,
    tagOfText (text (renderPairs bareOptions ps)) = Some tg /\
    parseFieldTags {| Name := n; Tag := tg; Type_ := ty |}
    = parseFieldTags (untagged n ty).
Proof.
  intros Hps Hkey Hforeign.
  eexists. split; [apply tagOfText_plain; assumption|].
  rewrite (parseFieldTags_pairs _ bareOptions ps);
    [|reflexivity|apply plainPair_wellFormed; exact Hps|split; reflexivity].
  cbn [Name Type_].
  destruct (parseFieldTags (untagged n ty)) as [t|f]; cbn [bind]; [|reflexivity].
  apply addAll_foreign. exact Hforeign.
Qed.

Lemma X24_witness :
  exists tg,
    tagOfText (text (renderPairs bareOptions
                       [("json", "name,omitempty"); ("xml", "n")]%string)) = Some tg /\
    parseFieldTags {| Name := "N"; Tag := tg; Type_ := TBasic reflect.Uint16 |}
    = parseFieldTags (untagged "N" (TBasic reflect.Uint16)).
Proof.
  apply (X24_tags_of_other_packages_are_ignored "N" (TBasic reflect.Uint16)
           [("json", "name,omitempty"); ("xml", "n")]%string).
  - vm_compute. reflexivity.
  - vm_compute. reflexivity.
  - vm_compute. reflexivity.
Defined.

(** The tags [bare] and [full] build are the tags of their texts. *)
Lemma bare_full_are_the_tags_of_their_texts :
  tagOfText (raw (bare "sizeOf" "Ts,relative")) = Some (bare "sizeOf" "Ts,relative") /\
  tagOfText (raw (bare "truncate" "")) = Some (bare "truncate" "") /\
  tagOfText (raw notag) = Some notag /\
  tagOfText (raw (full "bitfield='3',big")) = Some (full "bitfield='3',big").
Proof. repeat split; vm_compute; reflexivity. Qed.

(** ** The write of encoder.go *)


(** X25: the [write] of encoder.go, for widths below 64 bits. A value
    that does not fit a width of 2 bits or more is an overflow error; a bit
    field that would cross the end of the current byte, a field of 8 bits or
    more that starts inside a byte, and a width of 8 bits or more that is not
    a multiple of 8 are refused. Each time the encoder is left as it was. *)
Theorem X25_go_write_refuses_overflow_and_fields_across_bytes
    (v n : Z) (e : encoder.state) :
  0 <= n < 64 -> 0 <= encoder.bitOffset e < 8 ->
  (2 <= n -> 2 ^ n <= v ->
     encoder_go.write v n e = (Fail (Err (ValueWillOverflowBitfield v n)), e)) /\
  (0 <= v < 2 ^ n -> n < 8 -> 8 < encoder.bitOffset e + n ->
     encoder_go.write v n e = (Fail (Err BitfieldOverflowsSingleByte), e)) /\
  (0 <= v < 2 ^ n -> 8 <= n -> encoder.bitOffset e <> 0 ->
     encoder_go.write v n e = (Fail (Err CannotSpanMultiByteBitfield), e)) /\
  (0 <= v < 2 ^ n -> 8 <= n -> encoder.bitOffset e = 0 -> n mod 8 <> 0 ->
     encoder_go.write v n e = (Fail (Err OnlyByteMultiples), e)).
Proof.
  intros Hn Hoff.
  assert (0 < 2 ^ n < 2 ^ 64) as Hpow.
  { split; [apply Z.pow_pos_nonneg; lia|apply Z.pow_lt_mono_r; lia]. }
  assert (Hfits : 0 <= v < 2 ^ n ->
          (1 <? n) && (u64 (encoder_go.pow2 n - 1) <? v) = false).
  { intros Hv. unfold encoder_go.pow2.
    destruct (Z.ltb_spec n 64) as [_|?]; [|lia].
    rewrite u64_small by lia.
    destruct (Z.ltb_spec (2 ^ n - 1) v) as [?|_]; [lia|]. apply andb_false_r. }
  split; [|split; [|split]].
  - intros H2 Hv. apply write_go_reports_overflow; lia.
  - intros Hv Hlt Hcross. unfold encoder_go.write. rewrite (Hfits Hv).
    destruct (Z.ltb_spec n 8) as [_|?]; [|lia].
    rewrite u64_small by lia.
    destruct (Z.ltb_spec 8 (encoder.bitOffset e + n)) as [_|?]; [reflexivity|lia].
  - intros Hv Hge Hk. unfold encoder_go.write. rewrite (Hfits Hv).
    destruct (Z.ltb_spec n 8) as [?|_]; [lia|].
    destruct (Z.eqb_spec (encoder.bitOffset e) 0) as [?|_]; [contradiction|]. reflexivity.
  - intros Hv Hge Hk Hrem. unfold encoder_go.write. rewrite (Hfits Hv).
    destruct (Z.ltb_spec n 8) as [?|_]; [lia|].
    rewrite Hk. cbn [Z.eqb negb].
    destruct (Z.eqb_spec (n mod 8) 0) as [?|_]; [contradiction|]. reflexivity.
Qed.

Lemma X25_witness :
  encoder_go.write 5 3 sixBitsPending
  = (Fail (Err BitfieldOverflowsSingleByte), sixBitsPending).
Proof.
  apply (X25_go_write_refuses_overflow_and_fields_across_bytes 5 3 sixBitsPending).
  - lia.
  - cbn. lia.
  - lia.
  - lia.
  - cbn. lia.
Defined.





(** ** The back trace *)

Lemma searchFrames_prefix (vs more : list Value) (i : nat) (n : string) :
  (i <= length vs)%nat -> searchFrames (vs ++ more) i n = searchFrames vs i n.
Proof.
  induction i as [|i IH]; intros Hi; [reflexivity|].
  cbn [searchFrames]. rewrite lookup_app_l by lia.
  destruct (vs !! i) as [v|]; [|reflexivity].
  destruct (FieldByName v n); [reflexivity|]. apply IH. lia.
Qed.

(** X27: [fieldByName] searches every struct pushed so far, the most
    recent first. [pop] only decrements [len], and [push] sets it to the
    number of structs ever pushed: after a struct has been left and another
    one entered, the fields of the struct left are still found. *)
Theorem X27_fieldByName_searches_every_struct_pushed_so_far {H}
    (t : transcoder H) (a b : Value) (n : string) :
  fieldByName (with_backtrace t (push (pop (push (backtrace t) a)) b)) n
  = match FieldByName b n with
    | Some f => Some f
    | None =>
        match FieldByName a n with
        | Some f => Some f
        | None => searchFrames (vals (backtrace t)) (length (vals (backtrace t))) n
        end
    end.
Proof.
  unfold fieldByName, push, pop. cbn [with_backtrace backtrace vals len].
  rewrite !length_app. cbn [length].
  replace (length (vals (backtrace t)) + 1 + 1)%nat
    with (S (S (length (vals (backtrace t))))) by lia.
  cbn [searchFrames].
  rewrite lookup_app_r by (rewrite length_app; cbn [length]; lia).
  rewrite length_app. cbn [length].
  replace (S (length (vals (backtrace t))) - (length (vals (backtrace t)) + 1))%nat
    with 0%nat by lia.
  cbn [lookup list_lookup].
  destruct (FieldByName b n); [reflexivity|].
  rewrite lookup_app_l by (rewrite length_app; cbn [length]; lia).
  rewrite lookup_app_r by lia.
  rewrite Nat.sub_diag. cbn [lookup list_lookup].
  destruct (FieldByName a n); [reflexivity|].
  rewrite <- app_assoc. apply searchFrames_prefix. lia.
Qed.

(** ** The size and the bytes written *)

Lemma writeByte_sameWrites (c : nat) (b : Z) (ec eu : encoder.state) :
  sameWrites c ec eu ->
  sameWrites c (snd (encoder.writeByte b ec)) (snd (encoder.writeByte b eu)).
Proof.
  intros [Hc Hu Hw Hcur Hbit].
  rewrite (writeByte_unbounded b eu Hu). cbn [snd].
  unfold encoder.writeByte, WriteByte. rewrite Hc.
  destruct (Nat.leb_spec c (length (written (encoder.writer ec)))) as [Hfull|Hroom];
    cbn [snd]; constructor;
    cbn [encoder.writer encoder.currentByte encoder.bitOffset appended capacity written];
    try assumption; try reflexivity.
  - rewrite Hw in Hfull. rewrite length_take in Hfull.
    rewrite take_app_le by lia. exact Hw.
  - rewrite Hw in Hroom. rewrite length_take in Hroom.
    rewrite Hw. rewrite !take_ge by (rewrite ?length_app; cbn [length]; lia).
    reflexivity.
Qed.

Lemma writeLoop_sameWrites (c : nat) (fuel : nat) (v n : Z) (ec eu : encoder.state) :
  sameWrites c ec eu ->
  sameWrites c (encoder.writeLoop fuel v n ec) (encoder.writeLoop fuel v n eu).
Proof.
  revert v n ec eu. induction fuel as [|fuel IH]; intros v n ec eu Hs; [exact Hs|].
  cbn [encoder.writeLoop].
  destruct (n =? 0); [exact Hs|].
  assert (sameWrites c (encoder.set_current ec (u8 v)) (encoder.set_current eu (u8 v)))
    as Hs1.
  { destruct Hs as [Hc Hu Hw Hcur Hbit]. constructor; cbn; assumption || reflexivity. }
  destruct (n <? 8).
  - destruct Hs1 as [Hc Hu Hw Hcur Hbit]. constructor; cbn; try assumption.
    cbn in Hbit. rewrite Hbit. reflexivity.
  - apply IH.
    replace (encoder.currentByte (encoder.set_current ec (u8 v))) with (u8 v)
      by reflexivity.
    replace (encoder.currentByte (encoder.set_current eu (u8 v))) with (u8 v)
      by reflexivity.
    apply writeByte_sameWrites. exact Hs1.
Qed.

(** [write] on the two sinks: the same result, and the sinks stay related. *)
Lemma write_sameWrites (c : nat) (v n : Z) (ec eu : encoder.state) :
  sameWrites c ec eu ->
  fst (encoder.write v n ec) = fst (encoder.write v n eu) /\
  sameWrites c (snd (encoder.write v n ec)) (snd (encoder.write v n eu)).
Proof.
  intros Hs. pose proof Hs as [Hc Hu Hw Hcur Hbit].
  unfold encoder.write.
  destruct ((1 <? n) && (2 ^ 64 - 1 <? v)); [split; [reflexivity|exact Hs]|].
  rewrite Hbit.
  destruct (negb (encoder.bitOffset eu =? 0)).
  - rewrite Hcur.
    set (x := Z.lor (encoder.currentByte eu) (u8 (u64 (Z.shiftl v (encoder.bitOffset eu))))).
    assert (sameWrites c (encoder.set_current ec x) (encoder.set_current eu x)) as Hs1
      by (constructor; cbn; assumption || reflexivity).
    change (encoder.bitOffset (encoder.set_current ec x)) with (encoder.bitOffset ec).
    change (encoder.bitOffset (encoder.set_current eu x)) with (encoder.bitOffset eu).
    change (encoder.currentByte (encoder.set_current ec x)) with x.
    change (encoder.currentByte (encoder.set_current eu x)) with x.
    rewrite Hbit.
    destruct (n <? u64 (8 - encoder.bitOffset eu)); cbn [fst snd].
    + split; [reflexivity|].
      destruct Hs1 as [Hc1 Hu1 Hw1 Hcur1 Hbit1].
      constructor; cbn; try assumption; try reflexivity.
    + split; [reflexivity|]. apply writeLoop_sameWrites.
      destruct (writeByte_sameWrites c x _ _ Hs1) as [Hc' Hu' Hw' _ _].
      constructor; cbn; assumption || reflexivity.
  - split; [reflexivity|]. cbn [fst snd]. apply writeLoop_sameWrites. exact Hs.
Qed.

Lemma field_sameWrites (c : nat) (value : Value) (tags : option tags)
    (ec eu : encoder.state) :
  sameWrites c ec eu ->
  fst (encoder.field value tags ec) = fst (encoder.field value tags eu) /\
  sameWrites c (snd (encoder.field value tags ec)) (snd (encoder.field value tags eu)).
Proof.
  intros Hs. unfold encoder.field.
  destruct (getValue value) as [x|f]; [|split; [reflexivity|exact Hs]].
  destruct tags as [tg|].
  - match goal with |- context [encoder.write ?a ?b ec] =>
      destruct (write_sameWrites c a b ec eu Hs) as [Hst Hs'];
      destruct (encoder.write a b ec) as [st1 e1];
      destruct (encoder.write a b eu) as [st2 e2] end.
    cbn [fst snd] in *. subst st2. split; [reflexivity|exact Hs'].
  - destruct (KindBits (VKind value)) as [b|f]; [|split; [reflexivity|exact Hs]].
    match goal with |- context [encoder.write ?a ?b ec] =>
      destruct (write_sameWrites c a b ec eu Hs) as [Hst Hs'];
      destruct (encoder.write a b ec) as [st1 e1];
      destruct (encoder.write a b eu) as [st2 e2] end.
    cbn [fst snd] in *. subst st2. split; [reflexivity|exact Hs'].
Qed.

(** The walk of the encoder over a scalar field without a layout role. *)
Lemma encode_flat_field (size : Value -> result Z) (rec : walk encoder.state)
    (v : Value) (n : string) (k : reflect.Kind) (x : Z) (tags : tags)
    (t : transcoder encoder.state) :
  isBasicKind k = true -> isNone (format (tags_layout tags)) = true ->
  transcodeField (encoder.Handler size) rec v n (DBasic k x) tags t
  = let '(st, d', hs) := encoder.field (FieldOf v n (DBasic k x)) (Some tags) (handler t) in
    (st, d', with_handler t hs).
Proof.
  intros Hk Hnone. unfold transcodeField. rewrite Hnone. cbn [negb].
  destruct k; try discriminate Hk; reflexivity.
Qed.

Lemma flat_fields_sameWrites (c : nat) (size : Value -> result Z)
    (rec : walk encoder.state) (v : Value) (fs : list (string * StructTag * data))
    (tc tu : transcoder encoder.state) :
  forallb flatField fs = true ->
  sameWrites c (handler tc) (handler tu) ->
  fst (fst (transcodeFields (encoder.Handler size) rec v fs tc))
  = fst (fst (transcodeFields (encoder.Handler size) rec v fs tu)) /\
  sameWrites c (handler (snd (transcodeFields (encoder.Handler size) rec v fs tc)))
    (handler (snd (transcodeFields (encoder.Handler size) rec v fs tu))).
Proof.
  revert tc tu. induction fs as [|[[n tg] d] fs IH]; intros tc tu Hflat Hs.
  - split; [reflexivity|exact Hs].
  - cbn [forallb] in Hflat. apply andb_prop in Hflat. destruct Hflat as [Hf Hflat].
    unfold flatField in Hf. destruct d as [k x| | | |]; try discriminate Hf.
    apply andb_prop in Hf. destruct Hf as [Hk Hnone].
    cbn [transcodeFields typeOf].
    destruct (parseFieldTags {| Name := n; Tag := tg; Type_ := TBasic k |}) as [tags|f];
      [|split; [reflexivity|exact Hs]].
    rewrite !(encode_flat_field size rec v n k x tags) by assumption.
    destruct (field_sameWrites c (FieldOf v n (DBasic k x)) (Some tags)
                (handler tc) (handler tu) Hs) as [Hst Hs'].
    destruct (encoder.field _ _ (handler tc)) as [[st1 d1] e1].
    destruct (encoder.field _ _ (handler tu)) as [[st2 d2] e2].
    cbn [fst snd] in Hst, Hs'.
    assert (st1 = st2) as <- by (inversion Hst; reflexivity).
    destruct st1 as [[]|f]; [|split; [reflexivity|exact Hs']].
    specialize (IH (with_handler tc e1) (with_handler tu e2) Hflat Hs').
    destruct (transcodeFields _ rec v fs (with_handler tc e1)) as [[st3 fs3] t3].
    destruct (transcodeFields _ rec v fs (with_handler tu e2)) as [[st4 fs4] t4].
    exact IH.
Qed.

Lemma u64_nonneg (z : Z) : 0 <= u64 z.
Proof. unfold u64. apply Z.mod_pos_bound. lia. Qed.

Lemma add_nbits_nonneg (t t' : tags) (sf : StructField) (key val : string) :
  0 <= nbits (tags_bitfield t) -> add t sf key val = Ok t' ->
  0 <= nbits (tags_bitfield t').
Proof.
  intros Ht. unfold add.
  repeat match goal with
         | |- context [if ?c then _ else _] => destruct c
         end;
    try (intros [= <-]; cbn; exact Ht).
  - destruct (Bits (Type_ sf)) as [b|f]; cbn [bind]; [|discriminate].
    destruct (strconv.ParseInt0 _ b); [|discriminate].
    intros [= <-]. cbn. apply u64_nonneg.
  - destruct (strconv.ParseInt0 val 64); [|discriminate].
    intros [= <-]. cbn. exact Ht.
Qed.

Lemma parseRunes_nbits_nonneg (sf : StructField) (opts : parseOptions)
    (runes : list ascii) (key val : string) (inKey inVal : bool) (t t' : tags) :
  0 <= nbits (tags_bitfield t) ->
  parseRunes sf opts runes key val inKey inVal t = Ok t' ->
  0 <= nbits (tags_bitfield t').
Proof.
  revert key val inKey inVal t.
  induction runes as [|r rest IH]; intros key val inKey inVal t Ht.
  - intros [= <-]. exact Ht.
  - cbn [parseRunes].
    repeat match goal with
           | |- context [if ?c then _ else _] => destruct c
           end;
      try (apply IH; exact Ht);
      try (destruct (add t sf _ _) as [t1|f] eqn:Hadd; cbn [bind];
           [apply IH; eapply add_nbits_nonneg; [exact Ht|exact Hadd]|discriminate]).
Qed.

Lemma parseFieldTags_nbits_nonneg (sf : StructField) (tags : tags) :
  parseFieldTags sf = Ok tags -> 0 <= nbits (tags_bitfield tags).
Proof.
  unfold parseFieldTags, parseString.
  match goal with |- context [bind ?r _] => destruct r as [t|g] eqn:Hr end;
    cbn [bind]; [|discriminate].
  assert (0 <= nbits (tags_bitfield t)) as Ht.
  { revert Hr. destruct (Kind (Type_ sf));
      try (intros [= <-]; cbn; lia);
      (destruct (Bits (Type_ sf)) as [b|f]; cbn [bind]; [|discriminate];
       intros [= <-]; cbn; apply u64_nonneg). }
  destruct (structex (Tag sf)); apply parseRunes_nbits_nonneg; exact Ht.
Qed.

Lemma fieldBits_nonneg (f : string * StructTag * data) : 0 <= fieldBits f.
Proof.
  destruct f as [[n tg] d]. unfold fieldBits.
  destruct (parseFieldTags _) as [tags|f] eqn:Hp; [|lia].
  eapply parseFieldTags_nbits_nonneg. exact Hp.
Qed.

Lemma flatBits_nonneg (fs : list (string * StructTag * data)) : 0 <= flatBits fs.
Proof.
  induction fs as [|f fs IH]; cbn [flatBits fold_right]; [lia|].
  fold (flatBits fs). pose proof (fieldBits_nonneg f). lia.
Qed.

(** The loop of [write] on a sink without a limit: [n / 8] bytes reach the
    sink and [n mod 8] bits stay pending, whatever the value is. *)
Lemma writeLoop_count (fuel : nat) (v n : Z) (e : encoder.state) :
  capacity (encoder.writer e) = None -> encoder.bitOffset e = 0 -> 0 <= n ->
  (Z.to_nat (n / 8) < fuel)%nat ->
  capacity (encoder.writer (encoder.writeLoop fuel v n e)) = None /\
  encoder.bitOffset (encoder.writeLoop fuel v n e) = n mod 8 /\
  Z.of_nat (length (written (encoder.writer (encoder.writeLoop fuel v n e))))
  = Z.of_nat (length (written (encoder.writer e))) + n / 8.
Proof.
  revert v n e. induction fuel as [|fuel IH]; intros v n e Hcap Hk Hn Hfuel; [lia|].
  cbn [encoder.writeLoop].
  destruct (Z.eqb_spec n 0) as [->|Hnz].
  - rewrite Hk. change (0 mod 8) with 0. change (0 / 8) with 0.
    split; [exact Hcap|]. split; [reflexivity|lia].
  - destruct (Z.ltb_spec n 8) as [Hlt|Hge].
    + unfold encoder.set_bitOffset, encoder.set_current.
      cbn [encoder.writer encoder.currentByte encoder.byteOffset encoder.bitOffset].
      rewrite Hk, Z.add_0_l, u64_small by lia.
      rewrite Z.mod_small, Z.div_small by lia.
      split; [exact Hcap|]. split; [reflexivity|lia].
    + unfold encoder.set_current. cbn [encoder.currentByte].
      rewrite writeByte_unbounded by exact Hcap. cbn [snd].
      assert (n / 8 = (n - 8) / 8 + 1) as Hdiv.
      { replace n with ((n - 8) + 1 * 8) at 1 by lia. rewrite Z.div_add by lia. lia. }
      assert (0 <= (n - 8) / 8) by (apply Z.div_pos; lia).
      match goal with |- context [encoder.writeLoop fuel _ _ ?e2] =>
        destruct (IH (Z.shiftr v 8) (n - 8) e2) as (Hc' & Ho & Hl) end;
        [exact Hcap|exact Hk|lia|lia|].
      split; [exact Hc'|]. split.
      * rewrite Ho. replace n with ((n - 8) + 1 * 8) at 2 by lia.
        rewrite Z.mod_add by lia. reflexivity.
      * rewrite Hl. cbn [encoder.writer appended written].
        rewrite length_app. cbn [length]. lia.
Qed.

(** [write] on a sink without a limit moves the position of the encoder, in
    bits, by the width written. *)
Lemma write_count (v n : Z) (e e' : encoder.state) :
  capacity (encoder.writer e) = None -> 0 <= encoder.bitOffset e < 8 -> 0 <= n ->
  encoder.write v n e = (Ok tt, e') ->
  capacity (encoder.writer e') = None /\
  encoder.bitOffset e' = (encoder.bitOffset e + n) mod 8 /\
  Z.of_nat (length (written (encoder.writer e')))
  = Z.of_nat (length (written (encoder.writer e))) + (encoder.bitOffset e + n) / 8.
Proof.
  intros Hcap Hoff Hn. unfold encoder.write.
  destruct ((1 <? n) && (2 ^ 64 - 1 <? v)); [discriminate|].
  set (o := encoder.bitOffset e) in *.
  destruct (Z.eqb_spec o 0) as [Hz|Hnz]; cbn [negb].
  - intros [= <-].
    destruct (writeLoop_count (S (Z.to_nat (n / 8))) v n e Hcap Hz Hn ltac:(lia))
      as (Hc' & Ho & Hl).
    rewrite Hz, Z.add_0_l. split; [exact Hc'|]. split; [exact Ho|exact Hl].
  - set (x := Z.lor (encoder.currentByte e) (u8 (u64 (Z.shiftl v o)))).
    change (encoder.bitOffset (encoder.set_current e x)) with o.
    change (encoder.currentByte (encoder.set_current e x)) with x.
    rewrite !(u64_small (8 - o)) by lia.
    destruct (Z.ltb_spec n (8 - o)) as [Hlt|Hge].
    + intros [= <-]. cbn. fold o. rewrite u64_small by lia.
      rewrite Z.mod_small, Z.div_small by lia.
      split; [exact Hcap|]. split; [reflexivity|lia].
    + intros Heq. apply (f_equal snd) in Heq. cbn [snd] in Heq. subst e'.
      rewrite writeByte_unbounded by exact Hcap. cbn [snd].
      assert (0 <= (n - (8 - o)) / 8) by (apply Z.div_pos; lia).
      match goal with |- context [encoder.writeLoop ?f ?v' ?n' ?e3] =>
        destruct (writeLoop_count f v' n' e3) as (Hc' & Ho & Hl) end;
        [exact Hcap|reflexivity|lia|lia|].
      split; [exact Hc'|].
      assert ((o + n) = (n - (8 - o)) + 1 * 8) as Hsum by lia.
      split.
      * rewrite Ho, Hsum, Z.mod_add by lia. reflexivity.
      * rewrite Hl, Hsum, Z.div_add by lia.
        cbn [encoder.writer appended written encoder.set_bitOffset encoder.set_current].
        rewrite length_app. cbn [length]. lia.
Qed.

(** The walk of the encoder over flat fields on a sink without a limit: the
    position moves by the sum of the widths. *)
Lemma flat_fields_written (size : Value -> result Z) (rec : walk encoder.state)
    (v : Value) (fs fs' : list (string * StructTag * data))
    (t t' : transcoder encoder.state) :
  forallb flatField fs = true ->
  capacity (encoder.writer (handler t)) = None ->
  0 <= encoder.bitOffset (handler t) < 8 ->
  transcodeFields (encoder.Handler size) rec v fs t = (Ok tt, fs', t') ->
  forallb parses fs = true /\
  capacity (encoder.writer (handler t')) = None /\
  0 <= encoder.bitOffset (handler t') < 8 /\
  8 * Z.of_nat (length (written (encoder.writer (handler t'))))
    + encoder.bitOffset (handler t')
  = 8 * Z.of_nat (length (written (encoder.writer (handler t))))
    + encoder.bitOffset (handler t) + flatBits fs.
Proof.
  revert fs' t t'. induction fs as [|[[n tg] d] fs IH]; intros fs' t t' Hflat Hcap Hoff.
  - intros [= <- <-]. cbn [flatBits fold_right forallb].
    split; [reflexivity|]. split; [exact Hcap|]. split; [exact Hoff|lia].
  - cbn [forallb] in Hflat. apply andb_prop in Hflat. destruct Hflat as [Hf Hflat].
    unfold flatField in Hf. destruct d as [k x| | | |]; try discriminate Hf.
    apply andb_prop in Hf. destruct Hf as [Hk Hnone].
    cbn [transcodeFields typeOf flatBits fold_right forallb]. fold (flatBits fs).
    unfold fieldBits, parses. cbn [typeOf].
    destruct (parseFieldTags {| Name := n; Tag := tg; Type_ := TBasic k |})
      as [tags|f] eqn:Hparse; [|discriminate].
    rewrite (encode_flat_field size rec v n k x tags) by assumption.
    pose proof (parseFieldTags_nbits_nonneg _ _ Hparse) as Hw.
    unfold encoder.field.
    destruct (getValue (FieldOf v n (DBasic k x))) as [y|f]; [|discriminate].
    destruct (encoder.write _ (nbits (tags_bitfield tags)) (handler t))
      as [[[]|f] e1] eqn:Hwrite; [|discriminate].
    destruct (write_count _ _ _ _ Hcap Hoff Hw Hwrite) as (Hc1 & Ho1 & Hl1).
    destruct (transcodeFields _ rec v fs (with_handler t e1)) as [[[[]|f] fs1] t1] eqn:Hrun;
      [|discriminate].
    intros [= <- <-].
    pose proof (Z.mod_pos_bound (encoder.bitOffset (handler t) + nbits (tags_bitfield tags)) 8
                  ltac:(lia)) as Hm.
    destruct (IH fs1 (with_handler t e1) t1 Hflat Hc1 ltac:(cbn [with_handler handler]; lia)
                Hrun) as (Hp & Hc2 & Ho2 & Hl2).
    split; [exact Hp|]. split; [exact Hc2|]. split; [exact Ho2|].
    rewrite Hl2. cbn [with_handler handler]. rewrite Hl1, Ho1.
    pose proof (Z.div_mod (encoder.bitOffset (handler t) + nbits (tags_bitfield tags)) 8
                  ltac:(lia)).
    lia.
Qed.

Lemma addBits_total (n : Z) (s : sizer.state) :
  0 <= sizer.nbits_ s < 8 -> 0 <= sizer.nbytes s -> 0 <= n ->
  8 * sizer.nbytes s + sizer.nbits_ s + n < 2 ^ 64 ->
  0 <= sizer.nbits_ (sizer.addBits n s) < 8 /\
  0 <= sizer.nbytes (sizer.addBits n s) /\
  8 * sizer.nbytes (sizer.addBits n s) + sizer.nbits_ (sizer.addBits n s)
  = 8 * sizer.nbytes s + sizer.nbits_ s + n.
Proof.
  intros Hb Hy Hn Hfit. unfold sizer.addBits.
  cbn [sizer.nbits_ sizer.nbytes].
  rewrite (u64_small (sizer.nbits_ s + n)) by lia.
  pose proof (Z.div_mod (sizer.nbits_ s + n) 8 ltac:(lia)) as Hdm.
  pose proof (Z.mod_pos_bound (sizer.nbits_ s + n) 8 ltac:(lia)) as Hm.
  assert (0 <= (sizer.nbits_ s + n) / 8) by (apply Z.div_pos; lia).
  rewrite u64_small by lia. lia.
Qed.

(** The walk of the sizer over flat fields whose tags parse: the counters
    move by the sum of the widths. *)
Lemma flat_fields_counted (size : Value -> result Z) (rec : walk sizer.state)
    (v : Value) (fs : list (string * StructTag * data)) (t : transcoder sizer.state) :
  forallb flatField fs = true -> forallb parses fs = true ->
  0 <= sizer.nbits_ (handler t) < 8 -> 0 <= sizer.nbytes (handler t) ->
  8 * sizer.nbytes (handler t) + sizer.nbits_ (handler t) + flatBits fs < 2 ^ 64 ->
  exists fs' t',
    transcodeFields (sizer.Handler size) rec v fs t = (Ok tt, fs', t') /\
    0 <= sizer.nbits_ (handler t') < 8 /\
    8 * sizer.nbytes (handler t') + sizer.nbits_ (handler t')
    = 8 * sizer.nbytes (handler t) + sizer.nbits_ (handler t) + flatBits fs.
Proof.
  revert t. induction fs as [|[[n tg] d] fs IH]; intros t Hflat Hparses Hb Hy Hfit.
  - exists [], t. cbn [flatBits fold_right]. split; [reflexivity|]. split; [exact Hb|lia].
  - cbn [forallb] in Hflat. apply andb_prop in Hflat. destruct Hflat as [Hf Hflat].
    cbn [forallb] in Hparses. apply andb_prop in Hparses. destruct Hparses as [Hp Hparses].
    unfold flatField in Hf. destruct d as [k x| | | |]; try discriminate Hf.
    apply andb_prop in Hf. destruct Hf as [Hk Hnone].
    cbn [flatBits fold_right] in Hfit |- *. fold (flatBits fs) in Hfit |- *.
    unfold fieldBits, parses in *. cbn [typeOf] in *.
    cbn [transcodeFields typeOf].
    destruct (parseFieldTags {| Name := n; Tag := tg; Type_ := TBasic k |})
      as [tags|f] eqn:Hparse; [|discriminate].
    pose proof (parseFieldTags_nbits_nonneg _ _ Hparse) as Hw.
    pose proof (flatBits_nonneg fs) as Hrest.
    assert (transcodeField (sizer.Handler size) rec v n (DBasic k x) tags t
            = (Ok tt, DBasic k x,
               with_handler t (sizer.addBits (nbits (tags_bitfield tags)) (handler t))))
      as ->.
    { unfold transcodeField. rewrite Hnone. cbn [negb].
      destruct k; try discriminate Hk; reflexivity. }
    destruct (addBits_total (nbits (tags_bitfield tags)) (handler t) Hb Hy Hw ltac:(lia))
      as (Hb1 & Hy1 & Ht1).
    destruct (IH (with_handler t (sizer.addBits (nbits (tags_bitfield tags)) (handler t)))
                Hflat Hparses Hb1 Hy1 ltac:(cbn [with_handler handler]; lia))
      as (fs1 & t1 & Hrun & Hb2 & Ht2).
    rewrite Hrun. eexists _, t1. split; [reflexivity|]. split; [exact Hb2|].
    rewrite Ht2. cbn [with_handler handler]. lia.
Qed.

(** The walk of the sizer over flat fields succeeds only when the tags of
    every field parse. *)
Lemma flat_fields_sized_parse (size : Value -> result Z) (rec : walk sizer.state)
    (v : Value) (fs fs' : list (string * StructTag * data)) (t t' : transcoder sizer.state) :
  forallb flatField fs = true ->
  transcodeFields (sizer.Handler size) rec v fs t = (Ok tt, fs', t') ->
  forallb parses fs = true.
Proof.
  revert fs' t t'. induction fs as [|[[n tg] d] fs IH]; intros fs' t t' Hflat; [reflexivity|].
  cbn [forallb] in Hflat. apply andb_prop in Hflat. destruct Hflat as [Hf Hflat].
  unfold flatField in Hf. destruct d as [k x| | | |]; try discriminate Hf.
  apply andb_prop in Hf. destruct Hf as [Hk Hnone].
  cbn [transcodeFields typeOf forallb]. unfold parses at 1. cbn [typeOf].
  destruct (parseFieldTags {| Name := n; Tag := tg; Type_ := TBasic k |})
    as [tags|g] eqn:Hparse; [|discriminate].
  assert (transcodeField (sizer.Handler size) rec v n (DBasic k x) tags t
          = (Ok tt, DBasic k x,
             with_handler t (sizer.addBits (nbits (tags_bitfield tags)) (handler t))))
    as ->.
  { unfold transcodeField. rewrite Hnone. cbn [negb].
    destruct k; try discriminate Hk; reflexivity. }
  destruct (transcodeFields (sizer.Handler size) rec v fs _) as [[[[]|g] fs1] t1] eqn:Hrun;
    [|discriminate].
  intros _. cbn [andb]. eapply IH; [exact Hflat|exact Hrun].
Qed.

(** [Encode] of a flat struct into a sink without a limit writes the whole
    bytes of the sum of the widths. *)
Lemma Encode_flat_bytes (fuel : nat) (fs : list (string * StructTag * data))
    (w : ByteWriter) :
  forallb flatField fs = true ->
  encoder.Encode (S fuel) unbounded (DStruct fs) = (Ok tt, w) ->
  forallb parses fs = true /\ Z.of_nat (length (written w)) = flatBits fs / 8.
Proof.
  intros Hflat. unfold encoder.Encode.
  erewrite (transcode_struct _ fuel) by reflexivity.
  destruct (transcodeFields _ _ _ fs _) as [[st fs'] t'] eqn:Hrun.
  intros [= -> <-].
  apply flat_fields_written in Hrun; [|exact Hflat|reflexivity|cbn; lia].
  destruct Hrun as (Hparses & _ & Hoff & Htotal).
  cbn [with_backtrace handler newTranscoder encoder.writer encoder.bitOffset unbounded
       written length] in Htotal.
  cbn [with_backtrace handler].
  split; [exact Hparses|].
  pose proof (flatBits_nonneg fs) as Hnn.
  pose proof (Z.div_mod (flatBits fs) 8 ltac:(lia)).
  pose proof (Z.mod_pos_bound (flatBits fs) 8 ltac:(lia)). lia.
Qed.

(** [size] of a flat struct whose tags parse. *)
Lemma size_flat (fuel : nat) (fs : list (string * StructTag * data)) :
  forallb flatField fs = true -> forallb parses fs = true -> flatBits fs < 2 ^ 64 ->
  size (S (S fuel)) (ValueOf (DStruct fs))
  = (if flatBits fs mod 8 =? 0 then Ok (flatBits fs / 8) else Fail (Err LeftOverBits)).
Proof.
  intros Hflat Hparses Hfit.
  pose proof (flatBits_nonneg fs) as Hnn.
  rewrite (size_S (S fuel)).
  erewrite (transcode_struct _ fuel) by reflexivity.
  destruct (flat_fields_counted (size (S fuel))
              (transcode (sizer.Handler (size (S fuel))) fuel) (ValueOf (DStruct fs)) fs
              (with_backtrace (newTranscoder (sizerAt 0 0))
                 (push (backtrace (newTranscoder (sizerAt 0 0))) (ValueOf (DStruct fs))))
              Hflat Hparses ltac:(cbn; lia) ltac:(cbn; lia) ltac:(cbn; lia))
    as (fs1 & t1 & Hsize & Hb & Ht).
  rewrite Hsize. cbn [with_backtrace handler].
  cbn [with_backtrace handler newTranscoder sizerAt sizer.nbytes sizer.nbits_] in Ht.
  assert (flatBits fs / 8 = sizer.nbytes (handler t1) /\
          flatBits fs mod 8 = sizer.nbits_ (handler t1)) as [Hdiv' Hmod'].
  { pose proof (Z.div_mod (flatBits fs) 8 ltac:(lia)).
    pose proof (Z.mod_pos_bound (flatBits fs) 8 ltac:(lia)). lia. }
  rewrite Hmod', Hdiv'.
  destruct (sizer.nbits_ (handler t1) =? 0); reflexivity.
Qed.

Lemma size_flat_parses (fuel : nat) (fs : list (string * StructTag * data)) (n : Z) :
  forallb flatField fs = true ->
  size (S (S fuel)) (ValueOf (DStruct fs)) = Ok n ->
  forallb parses fs = true.
Proof.
  intros Hflat. rewrite (size_S (S fuel)).
  erewrite (transcode_struct _ fuel) by reflexivity.
  destruct (transcodeFields _ _ _ fs _) as [[[[]|f] fs'] t'] eqn:Hrun; [|discriminate].
  intros _. eapply flat_fields_sized_parse; [exact Hflat|exact Hrun].
Qed.

(** X28: on a struct of scalar fields without a layout role whose widths
    add up to fewer than 2^64 bits, [Encode] into a sink without a limit
    writes the whole bytes of the sum of the widths, and never the bits of a
    partial byte at the end. [Size] returns that number of bytes when the
    widths add up to whole bytes, and its left-over error otherwise. *)
Theorem X28_Size_is_the_number_of_bytes_Encode_writes
    (fuel : nat) (fs : list (string * StructTag * data)) (w : ByteWriter) :
  forallb flatField fs = true -> flatBits fs < 2 ^ 64 ->
  encoder.Encode (S (S fuel)) unbounded (DStruct fs) = (Ok tt, w) ->
  Z.of_nat (length (written w)) = flatBits fs / 8 /\
  size (S (S fuel)) (ValueOf (DStruct fs))
  = (if flatBits fs mod 8 =? 0 then Ok (flatBits fs / 8) else Fail (Err LeftOverBits)).
Proof.
  intros Hflat Hfit Hrun.
  destruct (Encode_flat_bytes (S fuel) fs w Hflat Hrun) as [Hparses Hlen].
  split; [exact Hlen|].
  apply size_flat; assumption.
Qed.

Lemma X28_witness :
  Z.of_nat (length (written (appended unbounded [17; 3; 0]))) = flatBits threeFields / 8 /\
  size 2 (ValueOf (DStruct threeFields))
  = (if flatBits threeFields mod 8 =? 0 then Ok (flatBits threeFields / 8)
     else Fail (Err LeftOverBits)).
Proof.
  apply (X28_Size_is_the_number_of_bytes_Encode_writes 0 threeFields
           (appended unbounded [17; 3; 0])).
  - vm_compute. reflexivity.
  - vm_compute. reflexivity.
  - vm_compute. reflexivity.
Defined.

(** ** Encoding into a new buffer *)

(** [bufferOf] gives the buffer back from its sink, after any writes. *)
Lemma bufferOf_writeAll (pre suf bs : list Z) :
  bufferOf (bufferAt pre suf) (Buffer.sink (snd (Buffer.writeAll (bufferAt pre suf) bs)))
  = snd (Buffer.writeAll (bufferAt pre suf) bs).
Proof.
  rewrite writeAll_at. cbn [snd]. rewrite sink_at.
  unfold bufferOf, bufferAt. cbn [written Buffer.bytes].
  f_equal. f_equal.
  rewrite length_app, drop_app_add, length_take.
  destruct (Nat.le_gt_cases (length bs) (length suf)) as [Hle|Hgt].
  - rewrite Nat.min_r by lia. reflexivity.
  - rewrite !drop_ge by lia. reflexivity.
Qed.

(** [Encode] of a flat struct into a sink of [c] bytes and into a sink
    without a limit: the same result, and the first sink holds the first
    bytes of the second. *)
Lemma Encode_flat_limit (fuel : nat) (fs : list (string * StructTag * data))
    (wc wu : ByteWriter) (c : nat) :
  forallb flatField fs = true ->
  capacity wc = Some c -> capacity wu = None -> written wc = take c (written wu) ->
  fst (encoder.Encode (S fuel) wc (DStruct fs))
  = fst (encoder.Encode (S fuel) wu (DStruct fs)) /\
  written (snd (encoder.Encode (S fuel) wc (DStruct fs)))
  = take c (written (snd (encoder.Encode (S fuel) wu (DStruct fs)))).
Proof.
  intros Hflat Hc Hu Hw. unfold encoder.Encode.
  erewrite !(transcode_struct _ fuel) by reflexivity.
  pose proof (flat_fields_sameWrites c (size (S fuel))
                (transcode (encoder.Handler (size (S fuel))) fuel)
                (ValueOf (DStruct fs)) fs
                (with_backtrace (newTranscoder (encoderStart wc))
                   (push (backtrace (newTranscoder (encoderStart wc)))
                      (ValueOf (DStruct fs))))
                (with_backtrace (newTranscoder (encoderStart wu))
                   (push (backtrace (newTranscoder (encoderStart wu)))
                      (ValueOf (DStruct fs))))
                Hflat ltac:(constructor; cbn; assumption || reflexivity)) as [Hst Hs].
  unfold encoderStart in Hst, Hs.
  destruct (transcodeFields _ _ _ fs
              (with_backtrace (newTranscoder {| encoder.writer := wc;
                 encoder.currentByte := _; encoder.byteOffset := _;
                 encoder.bitOffset := _ |}) _)) as [[st1 fs1] t1].
  destruct (transcodeFields _ _ _ fs
              (with_backtrace (newTranscoder {| encoder.writer := wu;
                 encoder.currentByte := _; encoder.byteOffset := _;
                 encoder.bitOffset := _ |}) _)) as [[st2 fs2] t2].
  cbn [fst snd with_backtrace handler] in *. subst st2.
  split; [reflexivity|]. apply (sw_written _ _ _ Hs).
Qed.

Lemma Encode_flat_sameWrites (fuel : nat) (fs : list (string * StructTag * data))
    (suf : list Z) :
  forallb flatField fs = true ->
  fst (encoder.Encode (S fuel) (Buffer.sink (bufferAt [] suf)) (DStruct fs))
  = fst (encoder.Encode (S fuel) unbounded (DStruct fs)) /\
  written (snd (encoder.Encode (S fuel) (Buffer.sink (bufferAt [] suf)) (DStruct fs)))
  = take (length suf) (written (snd (encoder.Encode (S fuel) unbounded (DStruct fs)))).
Proof.
  intros Hflat. apply Encode_flat_limit; [exact Hflat|..].
  - rewrite sink_at. reflexivity.
  - reflexivity.
  - rewrite sink_at. cbn [written unbounded]. rewrite take_nil. reflexivity.
Qed.

(** X29: [Encode] of a struct of scalar fields without a layout role into
    a [Buffer] returns what it returns on a sink without a limit, and the
    buffer holds the first bytes of what that sink receives: when the buffer
    is too small, the bytes that do not fit are dropped and no error is
    returned. *)
Theorem X29_Encode_into_a_short_Buffer_drops_bytes_silently
    (fuel : nat) (fs : list (string * StructTag * data)) (suf : list Z) :
  forallb flatField fs = true ->
  fst (encoder.Encode (S fuel) (Buffer.sink (bufferAt [] suf)) (DStruct fs))
  = fst (encoder.Encode (S fuel) unbounded (DStruct fs)) /\
  written (snd (encoder.Encode (S fuel) (Buffer.sink (bufferAt [] suf)) (DStruct fs)))
  = take (length suf) (written (snd (encoder.Encode (S fuel) unbounded (DStruct fs)))).
Proof. exact (Encode_flat_sameWrites fuel fs suf). Qed.

Lemma X29_witness :
  fst (encoder.Encode 1 (Buffer.sink (bufferAt [] [0; 0])) (DStruct threeFields))
  = fst (encoder.Encode 1 unbounded (DStruct threeFields)) /\
  written (snd (encoder.Encode 1 (Buffer.sink (bufferAt [] [0; 0])) (DStruct threeFields)))
  = take (length [0; 0])
      (written (snd (encoder.Encode 1 unbounded (DStruct threeFields)))).
Proof.
  apply (X29_Encode_into_a_short_Buffer_drops_bytes_silently 0 threeFields [0; 0]).
  vm_compute. reflexivity.
Defined.

(** X30: when [Size] succeeds on a struct of scalar fields without a
    layout role (of at most [maxAlloc] bytes), [EncodeByteBuffer] returns
    exactly the bytes that [Encode] writes into a sink without a limit,
    [Size] of them, or fails as that [Encode] does. *)
Theorem X30_EncodeByteBuffer_returns_the_bytes_Encode_writes
    (fuel : nat) (fs : list (string * StructTag * data)) (n : Z) :
  forallb flatField fs = true -> flatBits fs <= 8 * maxAlloc ->
  size (S (S fuel)) (ValueOf (DStruct fs)) = Ok n ->
  EncodeByteBuffer (S (S fuel)) (DStruct fs)
  = match encoder.Encode (S (S fuel)) unbounded (DStruct fs) with
    | (Ok _, w) => Returns (written w)
    | (Fail f, _) => Fails f
    end /\
  forall bs, EncodeByteBuffer (S (S fuel)) (DStruct fs) = Returns bs ->
             Z.of_nat (length bs) = n.
Proof.
  intros Hflat Hfit Hsize.
  pose proof (flatBits_nonneg fs) as Hnn.
  assert (maxAlloc = 2 ^ 48) as Hmax by reflexivity.
  pose proof (size_flat_parses fuel fs n Hflat Hsize) as Hparses.
  pose proof (size_flat fuel fs Hflat Hparses ltac:(lia)) as Hsz.
  rewrite Hsize in Hsz.
  destruct (Z.eqb_spec (flatBits fs mod 8) 0) as [Hmod|_]; [|discriminate].
  injection Hsz as ->.
  assert (0 <= flatBits fs / 8 <= maxAlloc) as Hn.
  { split; [apply Z.div_pos; lia|]. apply Z.div_le_upper_bound; lia. }
  assert (EncodeByteBuffer (S (S fuel)) (DStruct fs)
          = match encoder.Encode (S (S fuel)) unbounded (DStruct fs) with
            | (Ok _, w) => Returns (written w)
            | (Fail f, _) => Fails f
            end /\
          forall w, encoder.Encode (S (S fuel)) unbounded (DStruct fs) = (Ok tt, w) ->
                    Z.of_nat (length (written w)) = flatBits fs / 8) as [Heq Hlen].
  { unfold EncodeByteBuffer, NewBuffer. rewrite Hsize.
    destruct (Z.ltb_spec maxAlloc (flatBits fs / 8)) as [?|_]; [lia|].
    change {| Buffer.bytes := repeat 0 (Z.to_nat (flatBits fs / 8)); Buffer.offset := 0 |}
      with (bufferAt [] (repeat 0 (Z.to_nat (flatBits fs / 8)))).
    destruct (Encode_flat_sameWrites (S fuel) fs (repeat 0 (Z.to_nat (flatBits fs / 8)))
                Hflat) as [Hst Hw].
    destruct (encoder.Encode (S (S fuel)) (Buffer.sink _) (DStruct fs)) as [st1 w1].
    destruct (encoder.Encode (S (S fuel)) unbounded (DStruct fs)) as [st2 w2] eqn:Hrun.
    cbn [fst snd] in Hst, Hw. subst st1.
    destruct st2 as [[]|f].
    - destruct (Encode_flat_bytes (S fuel) fs w2 Hflat Hrun) as [_ Hcount].
      split; [|intros w [= <-]; exact Hcount].
      f_equal. unfold Buffer.Bytes, bufferOf, bufferAt. cbn [Buffer.bytes app].
      rewrite Hw, repeat_length.
      rewrite take_ge by lia.
      rewrite drop_ge by (rewrite repeat_length; lia).
      apply app_nil_r.
    - split; [reflexivity|]. intros w [=]. }
  split; [exact Heq|].
  intros bs Hbs. rewrite Heq in Hbs.
  destruct (encoder.Encode (S (S fuel)) unbounded (DStruct fs)) as [[[]|f] w];
    [|discriminate].
  injection Hbs as <-. apply Hlen. reflexivity.
Qed.

Lemma X30_witness :
  EncodeByteBuffer 2 (DStruct threeFields)
  = match encoder.Encode 2 unbounded (DStruct threeFields) with
    | (Ok _, w) => Returns (written w)
    | (Fail f, _) => Fails f
    end /\
  forall bs, EncodeByteBuffer 2 (DStruct threeFields) = Returns bs ->
             Z.of_nat (length bs) = 3.
Proof.
  apply (X30_EncodeByteBuffer_returns_the_bytes_Encode_writes 0 threeFields 3).
  - vm_compute. reflexivity.
  - vm_compute. discriminate.
  - vm_compute. reflexivity.
Defined.
